(** * prowla: the task queue with locking and the event bus

    A shallow embedding of [mcp-server/lib/task-lock.js] (the file-backed
    task queue and its lock operations), of the file helpers of
    [mcp-server/lib/db.js] it calls, and of [mcp-server/lib/event-emitter.js]
    (the in-memory event bus), followed by the properties of the
    specification stated and proved over these definitions.

    Conventions of the embedding.
    - The tasks directory is a finite map from file names to directory
      entries; [join(getTasksPath(), filename)] is the key [filename].
    - Every reading of the clock ([Date.now()], [new Date()]) is an explicit
      argument: an instant in milliseconds since the epoch.
    - [crypto.randomUUID()] is an explicit argument as well.
    - A JavaScript function that can raise returns an [outcome]. *)

From stdpp Require Import gmap strings list fin_maps.
From Stdlib Require Import ZArith Lia.

#[local] Set Warnings "-register-all".
#[local] Open Scope string_scope.
#[local] Open Scope Z_scope.

(** ** JSON values and the JavaScript operations the code applies to them *)

Module Json.

(** A value as [JSON.parse] returns it.  Numbers are integers here.  A
    string in the ECMAScript date-time format (what [toISOString] produces)
    is [JTime t], [t] the instant it denotes; [JStr s] is any other
    string. *)
Inductive json :=
  | JNull
  | JBool (b : bool)
  | JNum (n : Z)
  | JStr (s : string)
  | JTime (t : Z)
  | JArr (l : list json)
  | JObj (m : gmap string json).

(** An object in memory after [JSON.parse]: a plain object is its
    properties; an array is its elements, plus the named properties the
    code may later set on it. *)
Record jsobj := { elems : option (list json); props : gmap string json }.

Inductive outcome (A : Type) :=
  | Returns (a : A)
  | Throws (e : string).
Arguments Returns {A} a.
Arguments Throws {A} e.

(** [!!v]: null, false, 0 and the empty string are falsy. *)
Definition truthy (v : json) : bool :=
  match v with
  | JNull => false
  | JBool b => b
  | JNum n => negb (n =? 0)
  | JStr s => negb (String.eqb s "")
  | JTime _ | JArr _ | JObj _ => true
  end.

(** A property read [o.k] gives [undefined] (here [None]) when absent. *)
Definition truthy_prop (v : option json) : bool :=
  match v with Some j => truthy j | None => false end.

(** [a === b] on parsed values.  Two distinct objects are never identical. *)
Definition strict_eq (a b : json) : bool :=
  match a, b with
  | JNull, JNull => true
  | JBool x, JBool y => Bool.eqb x y
  | JNum x, JNum y => x =? y
  | JStr x, JStr y => String.eqb x y
  | JTime x, JTime y => x =? y
  | _, _ => false
  end.

Definition prop_is (v : option json) (s : string) : bool :=
  match v with Some j => strict_eq j (JStr s) | None => false end.

(** The instant denoted by the string form of a value, when that string is
    in the date-time format: a one-element array prints as its element. *)
Fixpoint isoOf (v : json) : option Z :=
  match v with
  | JTime t => Some t
  | JArr [x] => isoOf x
  | _ => None
  end.

(** [new Date(v).getTime()], [None] standing for NaN.  Numbers are clipped
    to the range of time values; a string outside the date-time format is
    parsed in an implementation-defined way by ECMAScript and is taken as
    not a date. *)
Definition getTime (v : json) : option Z :=
  match v with
  | JNull => Some 0
  | JBool b => Some (if b then 1 else 0)
  | JNum n => if Z.abs n <=? 8640000000000000 then Some n else None
  | JStr _ => None
  | JTime t => Some t
  | JArr _ => isoOf v
  | JObj _ => None
  end.

(** Parsing a document gives an object to work on, unless it is a
    primitive. *)
Definition to_object (v : json) : option jsobj :=
  match v with
  | JObj m => Some {| elems := None; props := m |}
  | JArr l => Some {| elems := Some l; props := ∅ |}
  | _ => None
  end.

(** [JSON.stringify] then [JSON.parse]: an array keeps its elements only. *)
Definition stringify (o : jsobj) : json :=
  match elems o with
  | Some l => JArr l
  | None => JObj (props o)
  end.

Definition get (o : jsobj) (k : string) : option json := props o !! k.

Definition set (k : string) (v : json) (o : jsobj) : jsobj :=
  {| elems := elems o; props := <[k := v]> (props o) |}.

Definition del (k : string) (o : jsobj) : jsobj :=
  {| elems := elems o; props := delete k (props o) |}.

(** [Array.prototype.sort] with comparator [cmp]: a stable sort (a
    comparator result of NaN counts as 0, which [cmp] already returns). *)
Section Sort.
Context {A : Type} (cmp : A → A → Z).

Fixpoint sort_insert (x : A) (l : list A) : list A :=
  match l with
  | [] => [x]
  | y :: l' => if 0 <? cmp x y then y :: sort_insert x l' else x :: l
  end.

Definition sort (l : list A) : list A := foldr sort_insert [] l.

End Sort.

(** [s.endsWith(suffix)] *)
Definition endsWith (s suffix : string) : bool :=
  let n := String.length s in
  let k := String.length suffix in
  (k <=? n)%nat && String.eqb (String.substring (n - k) k s) suffix.

End Json.

(** ** mcp-server/lib/db.js: the file helpers used by the task queue *)

Module Db.
Import Json.

(** An entry of the tasks directory: a file holding a JSON document, a file
    whose text [JSON.parse] rejects, or an entry that can be neither read
    nor unlinked (a directory of that name). *)
Inductive file :=
  | Doc (j : json)
  | Garbled
  | Directory.

Definition fileExists (fs : gmap string file) (path : string) : bool :=
  bool_decide (is_Some (fs !! path)).

(** The [try]/[catch] of [readJsonFile] turns every failure into the
    default value. *)
Definition readJsonFile (fs : gmap string file) (path : string)
    (defaultValue : json) : json :=
  match fs !! path with
  | Some (Doc j) => j
  | _ => defaultValue
  end.

(** [fs.writeFileSync(path, JSON.stringify(data))].  The callers write to a
    path that is free or holds a document; a failing medium is outside
    the model. *)
Definition writeJsonFile (fs : gmap string file) (path : string)
    (data : json) : gmap string file :=
  <[path := Doc data]> fs.

Definition deleteFile (fs : gmap string file) (path : string)
    : gmap string file * bool :=
  match fs !! path with
  | Some Directory => (fs, false)
  | Some _ => (delete path fs, true)
  | None => (fs, false)
  end.

End Db.

(** ** mcp-server/lib/task-lock.js *)

Module TaskLock.
Import Json Db.

(** How long before a lock is considered stale (30 minutes). *)
Definition STALE_LOCK_MS : Z := 30 * 60 * 1000.

(** [{ success, error }], the result of [releaseTask] and [completeTask];
    an absent or null [error] is [None]. *)
Record result := { success : bool; error : option string }.

(** The three result shapes of [claimTask]:
    [{ success: false, error }],
    [{ success: false, error, claimed_by, claimed_at }] and
    [{ success: true, task, locked: true, claimed_at }]. *)
Inductive claim_result :=
  | ClaimFailed (error : string)
  | ClaimRefused (error : string) (claimed_by claimed_at : option json)
  | Claimed (task : jsobj) (claimed_at : Z).

(** [{ success: true, already_exists, filename }] *)
Record create_result :=
  { created_ok : bool; already_exists : bool; filename : string }.

(** [now] is the reading of [Date.now()]. *)
Definition isLockStale (now : Z) (task : jsobj) : bool :=
  if negb (truthy_prop (get task "claimed_at")) then false
  else
    match get task "claimed_at" ≫= getTime with
    | Some claimedAt => bool_decide (now - claimedAt > STALE_LOCK_MS)
    | None => false
    end.

Definition getTask (fs : gmap string file) (filename : string) : json :=
  readJsonFile fs filename JNull.

(** The options of [listTasksSync]; [type] and [status] default to null,
    [includeStale] to false. *)
Record list_options :=
  { type : json; status : json; includeStale : bool }.

(** [task.status || 'pending'] *)
Definition statusOrPending (task : jsobj) : json :=
  match get task "status" with
  | Some v => if truthy v then v else JStr "pending"
  | None => JStr "pending"
  end.

(** One turn of the loop of [listTasksSync] on an object read from a file:
    [None] when a filter skips it, otherwise the object pushed. *)
Definition listEntry (now : Z) (opts : list_options) (name : string)
    (task0 : jsobj) : option jsobj :=
  let task := set "filename" (JStr name) task0 in
  let stale :=
    includeStale opts && strict_eq (statusOrPending task) (JStr "in_progress")
    && isLockStale now task in
  let effectiveStatus := if stale then JStr "pending" else statusOrPending task in
  let task := if stale then set "is_stale" (JBool true) task else task in
  if truthy (type opts)
     && negb (match get task "type" with
              | Some t => strict_eq t (type opts)
              | None => false
              end)
  then None
  else if truthy (status opts) && negb (strict_eq effectiveStatus (status opts))
  then None
  else Some task.

(** The loop over the file names.  A truthy primitive read from a file makes
    the assignment [task.filename = filename] raise (module code is strict),
    which ends the whole listing.  [clock name] is the reading of
    [Date.now()] taken while the file [name] is examined. *)
Fixpoint listLoop (clock : string → Z) (opts : list_options)
    (fs : gmap string file) (files : list string) : outcome (list jsobj) :=
  match files with
  | [] => Returns []
  | name :: rest =>
      let task := getTask fs name in
      if negb (truthy task) then listLoop clock opts fs rest
      else
        match to_object task with
        | None => Throws "TypeError"
        | Some o =>
            match listLoop clock opts fs rest with
            | Throws e => Throws e
            | Returns tasks =>
                match listEntry (clock name) opts name o with
                | Some t => Returns (t :: tasks)
                | None => Returns tasks
                end
            end
        end
  end.

(** [new Date(a.createdAt || 0).getTime()] *)
Definition createdTime (a : jsobj) : option Z :=
  match get a "createdAt" with
  | Some v => if truthy v then getTime v else Some 0
  | None => Some 0
  end.

(** The comparator [aTime - bTime]; NaN when either date is invalid. *)
Definition byCreatedAt (a b : jsobj) : Z :=
  match createdTime a, createdTime b with
  | Some x, Some y => x - y
  | _, _ => 0
  end.

(** The directory is read in the order of the map's enumeration. *)
Definition readdir (fs : gmap string file) : list string :=
  (map_to_list fs).*1.

Definition listTasksSync (clock : string → Z) (opts : list_options)
    (fs : gmap string file) : outcome (list jsobj) :=
  let files := List.filter (λ f, endsWith f ".json") (readdir fs) in
  match listLoop clock opts fs files with
  | Throws e => Throws e
  | Returns tasks => Returns (sort byCreatedAt tasks)
  end.

(** [now_check] is the clock read by [isLockStale], [now_claim] the one read
    for the claim stamp; [agentId] is null when not given.  Setting a
    property on a truthy primitive raises a TypeError. *)
Definition claimTask (now_check now_claim : Z) (filename : string)
    (agentId : json) (fs : gmap string file)
    : gmap string file * outcome claim_result :=
  if negb (fileExists fs filename) then
    (fs, Returns (ClaimFailed "Task not found"))
  else
    let task := readJsonFile fs filename JNull in
    if negb (truthy task) then
      (fs, Returns (ClaimFailed "Failed to read task file"))
    else
      match to_object task with
      | None => (fs, Throws "TypeError")
      | Some task =>
          if prop_is (get task "status") "in_progress"
             && negb (isLockStale now_check task)
          then
            (fs, Returns (ClaimRefused "Task already claimed"
                            (get task "claimed_by") (get task "claimed_at")))
          else
            let task := set "status" (JStr "in_progress") task in
            let task := set "claimed_at" (JTime now_claim) task in
            let task := set "claimed_by" agentId task in
            let task := set "filename" (JStr filename) task in
            (writeJsonFile fs filename (stringify task),
             Returns (Claimed task now_claim))
      end.

Definition releaseTask (filename : string) (fs : gmap string file)
    : gmap string file * outcome result :=
  if negb (fileExists fs filename) then
    (fs, Returns {| success := false; error := Some "Task not found" |})
  else
    let task := readJsonFile fs filename JNull in
    if negb (truthy task) then
      (fs, Returns {| success := false;
                      error := Some "Failed to read task file" |})
    else
      match to_object task with
      | None => (fs, Throws "TypeError")
      | Some task =>
          let task := set "status" (JStr "pending") task in
          let task := del "claimed_at" task in
          let task := del "claimed_by" task in
          (writeJsonFile fs filename (stringify task),
           Returns {| success := true; error := None |})
      end.

Definition completeTask (filename : string) (fs : gmap string file)
    : gmap string file * outcome result :=
  if negb (fileExists fs filename) then
    (fs, Returns {| success := false; error := Some "Task not found" |})
  else
    let '(fs', deleted) := deleteFile fs filename in
    (fs', Returns {| success := deleted;
                     error := if deleted then None
                              else Some "Failed to delete task file" |}).

(** [taskData] is the object whose properties are spread into the new
    record; [now] is the clock read for [createdAt]. *)
Definition createTask (now : Z) (taskData : gmap string json)
    (filename : string) (fs : gmap string file)
    : gmap string file * outcome create_result :=
  if fileExists fs filename then
    (fs, Returns {| created_ok := true; already_exists := true;
                    filename := filename |})
  else
    let task := <["status" := JStr "pending"]>
                  (<["createdAt" := JTime now]> taskData) in
    (writeJsonFile fs filename (JObj task),
     Returns {| created_ok := true; already_exists := false;
                filename := filename |}).

End TaskLock.

(** ** mcp-server/lib/event-emitter.js *)

Module EventEmitter.
Import Json.

Definition EVENT_TYPES : list string :=
  [ "job.created"; "job.updated"; "job.deleted"; "task.created";
    "task.claimed"; "task.completed"; "research.saved"; "materials.saved" ].

(** Maximum events to keep in memory. *)
Definition MAX_EVENTS : nat := 1000.

(** Event retention period (1 hour). *)
Definition EVENT_RETENTION_MS : Z := 60 * 60 * 1000.

(** An event.  Only [emit] builds events, with [timestamp] the ISO form of
    the clock, so the field is kept as the instant it denotes. *)
Record event :=
  { id : string; type : string; timestamp : Z; payload : json }.

Record subscription :=
  { sub_id : string;
    event_types : list string;
    webhook_url : option string;
    callback_id : option string;
    created_at : Z;
    last_event_id : option string }.

Definition set_last_event_id (eid : string) (s : subscription) : subscription :=
  {| sub_id := sub_id s; event_types := event_types s;
     webhook_url := webhook_url s; callback_id := callback_id s;
     created_at := created_at s; last_event_id := Some eid |}.

(** The state of the module.  [pendingPolls] is a [Map] from poll ids to
    the subscription id each waits on, kept in insertion order; the
    [resolve] closure of an entry is the function [resolvePoll] below.  The
    subscription object a closure captured is the one stored under its id
    (ids come from [randomUUID] and are not reused). *)
Record bus :=
  { eventStore : list event;
    subscriptions : gmap string subscription;
    pendingPolls : list (string * string) }.

(** What a resolved promise of [poll] carries: [{ events }] or
    [{ error, events }]. *)
Record poll_result := { poll_error : option string; events : list event }.

(** [poll] either returns a resolved promise or leaves a pending poll. *)
Inductive poll_outcome :=
  | Resolved (r : poll_result)
  | Suspended (pollId : string).

Definition includes (l : list string) (s : string) : bool :=
  existsb (String.eqb s) l.

(** [Map.prototype.set] and [delete] on the insertion-ordered map. *)
Fixpoint mapSet (k v : string) (m : list (string * string))
    : list (string * string) :=
  match m with
  | [] => [(k, v)]
  | (k', v') :: m' =>
      if String.eqb k k' then (k, v) :: m' else (k', v') :: mapSet k v m'
  end.

Definition mapDelete (k : string) (m : list (string * string))
    : list (string * string) :=
  List.filter (λ kv, negb (String.eqb k kv.1)) m.

Definition mapHas (k : string) (m : list (string * string)) : bool :=
  existsb (λ kv, String.eqb k kv.1) m.

(** [array.slice(-n)]: the last [n] elements. *)
Definition sliceLast {A} (n : nat) (l : list A) : list A :=
  drop (length l - n)%nat l.

(** [now] is the reading of [Date.now()]. *)
Definition pruneEvents (now : Z) (store : list event) : list event :=
  let cutoff := now - EVENT_RETENTION_MS in
  let store := List.filter (λ e, cutoff <? timestamp e) store in
  if (MAX_EVENTS <? length store)%nat then sliceLast MAX_EVENTS store
  else store.

(** The closure [resolve] stored with a pending poll: it advances the cursor
    of its subscription when it is given events, and settles the promise,
    which the model records as a delivery [(pollId, result)]. *)
Definition resolvePoll (sid : string) (evs : list event)
    (subs : gmap string subscription) : gmap string subscription :=
  match last evs with
  | Some e => alter (set_last_event_id (id e)) sid subs
  | None => subs
  end.

(** The loop of [notifyPollers]: the polls left pending, the subscriptions
    and the deliveries made. *)
Fixpoint notifyLoop (ev : event) (polls : list (string * string))
    (subs : gmap string subscription)
    : list (string * string) * gmap string subscription
      * list (string * poll_result) :=
  match polls with
  | [] => ([], subs, [])
  | (pollId, sid) :: rest =>
      match subs !! sid with
      | None =>
          let '(waiting, subs', out) := notifyLoop ev rest subs in
          ((pollId, sid) :: waiting, subs', out)
      | Some s =>
          if includes (event_types s) (type ev) then
            let subs1 := resolvePoll sid [ev] subs in
            let '(waiting, subs', out) := notifyLoop ev rest subs1 in
            (waiting, subs',
             (pollId, {| poll_error := None; events := [ev] |}) :: out)
          else
            let '(waiting, subs', out) := notifyLoop ev rest subs in
            ((pollId, sid) :: waiting, subs', out)
      end
  end.

Definition notifyPollers (ev : event) (st : bus)
    : bus * list (string * poll_result) :=
  let '(waiting, subs, out) := notifyLoop ev (pendingPolls st) (subscriptions st) in
  ({| eventStore := eventStore st; subscriptions := subs;
      pendingPolls := waiting |}, out).

(** [notifyWebhooks] posts the event to the subscriptions that have a
    [webhook_url] and the event's type.  It is asynchronous: [emit] does not
    wait for it, and the requests complete later.  A request that succeeds
    sets the cursor of its subscription; this is the effect of one such
    success on the bus (none when the subscription is gone by then). *)
Definition webhookDelivered (sid : string) (ev : event) (st : bus) : bus :=
  match subscriptions st !! sid with
  | Some s =>
      match webhook_url s with
      | Some url =>
          if negb (String.eqb url "") && includes (event_types s) (type ev)
          then {| eventStore := eventStore st;
                  subscriptions :=
                    <[sid := set_last_event_id (id ev) s]> (subscriptions st);
                  pendingPolls := pendingPolls st |}
          else st
      | None => st
      end
  | None => st
  end.

(** [emit]: [eid] is the generated id, [now_event] the clock read for the
    timestamp and [now_prune] the one read by [pruneEvents].  An unknown
    type is only logged.  The result is the new state, the event returned
    and the long-polls resolved. *)
Definition emit (eid : string) (now_event now_prune : Z) (ty : string)
    (pl : json) (st : bus) : bus * event * list (string * poll_result) :=
  let ev := {| id := eid; type := ty; timestamp := now_event; payload := pl |} in
  let store := pruneEvents now_prune (eventStore st ++ [ev]) in
  let st1 := {| eventStore := store; subscriptions := subscriptions st;
                pendingPolls := pendingPolls st |} in
  let '(st2, out) := notifyPollers ev st1 in
  (st2, ev, out).

(** [{ success: false, error }] or
    [{ success: true, subscription_id, event_types }]. *)
Inductive subscribe_result :=
  | SubscribeFailed (error : string)
  | Subscribed (subscription_id : string) (accepted : list string).

Definition subscribe (sid : string) (now : Z) (types : list string)
    (url cb : option string) (st : bus) : bus * subscribe_result :=
  let validTypes := List.filter (λ t, includes EVENT_TYPES t) types in
  match validTypes with
  | [] => (st, SubscribeFailed "No valid event types specified")
  | _ =>
      let s := {| sub_id := sid; event_types := validTypes;
                  webhook_url := url; callback_id := cb;
                  created_at := now; last_event_id := None |} in
      ({| eventStore := eventStore st;
          subscriptions := <[sid := s]> (subscriptions st);
          pendingPolls := pendingPolls st |},
       Subscribed sid validTypes)
  end.

(** The result, the new state, and the pending polls cancelled with an
    empty result. *)
Definition unsubscribe (sid : string) (st : bus)
    : bus * option string * list (string * poll_result) :=
  match subscriptions st !! sid with
  | None => (st, Some "Subscription not found", [])
  | Some _ =>
      let cancelled :=
        List.filter (λ kv, String.eqb kv.2 sid) (pendingPolls st) in
      ({| eventStore := eventStore st;
          subscriptions := delete sid (subscriptions st);
          pendingPolls :=
            List.filter (λ kv, negb (String.eqb kv.2 sid))
                        (pendingPolls st) |},
       None,
       map (λ kv, (kv.1, {| poll_error := None; events := [] |})) cancelled)
  end.

(** [array.slice(0, limit)], a negative limit counting from the end. *)
Definition sliceTo {A} (limit : Z) (l : list A) : list A :=
  if 0 <=? limit then take (Z.to_nat limit) l
  else take (length l - Z.to_nat (- limit))%nat l.

(** [since] is null or a date string, [ty] null (here [None]) or a type. *)
Definition listEvents (since : json) (ty : option string) (limit : Z)
    (st : bus) : list event :=
  let evs := eventStore st in
  let evs :=
    if truthy since then
      match getTime since with
      | Some sinceTime => List.filter (λ e, sinceTime <? timestamp e) evs
      | None => []
      end
    else evs in
  let evs :=
    match ty with
    | Some t =>
        if negb (String.eqb t "") then
          List.filter (λ e, String.eqb (type e) t) evs
        else evs
    | None => evs
    end in
  let evs := sort (λ a b, timestamp b - timestamp a) evs in
  sliceTo limit evs.

(** [eventStore.find(e => e.id === last_event_id)?.timestamp], or null when
    the cursor is unset (or an empty string). *)
Definition lastEventTime (s : subscription) (store : list event) : option Z :=
  match last_event_id s with
  | Some lid =>
      if negb (String.eqb lid "") then
        timestamp <$> List.find (λ e, String.eqb (id e) lid) store
      else None
  | None => None
  end.

Definition pendingEvents (s : subscription) (store : list event) : list event :=
  let t0 := lastEventTime s store in
  List.filter
    (λ e, includes (event_types s) (type e)
          && match t0 with
             | Some t => negb (timestamp e <=? t)
             | None => true
             end)
    store.

(** [poll]: [pollId] is the id generated when the call has to wait.  The
    timer the call then starts is the transition [pollTimeout]. *)
Definition poll (pollId : string) (sid : string) (st : bus)
    : bus * poll_outcome :=
  match subscriptions st !! sid with
  | None =>
      (st, Resolved {| poll_error := Some "Subscription not found";
                       events := [] |})
  | Some s =>
      let pending := pendingEvents s (eventStore st) in
      match last pending with
      | Some e =>
          ({| eventStore := eventStore st;
              subscriptions :=
                <[sid := set_last_event_id (id e) s]> (subscriptions st);
              pendingPolls := pendingPolls st |},
           Resolved {| poll_error := None; events := pending |})
      | None =>
          ({| eventStore := eventStore st;
              subscriptions := subscriptions st;
              pendingPolls := mapSet pollId sid (pendingPolls st) |},
           Suspended pollId)
      end
  end.

(** The timer of a pending poll fires: the entry is removed and the promise
    settles with no events.  A poll resolved before had its timer cleared,
    so nothing happens for it. *)
Definition pollTimeout (pollId : string) (st : bus)
    : bus * option poll_result :=
  if mapHas pollId (pendingPolls st) then
    ({| eventStore := eventStore st; subscriptions := subscriptions st;
        pendingPolls := mapDelete pollId (pendingPolls st) |},
     Some {| poll_error := None; events := [] |})
  else (st, None).

Definition getSubscription (sid : string) (st : bus) : option subscription :=
  subscriptions st !! sid.

(** [reset]: everything is cleared, every pending poll settles empty. *)
Definition reset (st : bus) : bus * list (string * poll_result) :=
  ({| eventStore := []; subscriptions := ∅; pendingPolls := [] |},
   map (λ kv, (kv.1, {| poll_error := None; events := [] |}))
       (pendingPolls st)).

End EventEmitter.

(** ** claimTask run by several server processes

    The MCP server talks over stdio, so every agent starts a server process
    of its own; all of them work on the same tasks directory.  [claimTask]
    makes three calls into the file system ([fileExists], [readJsonFile],
    [writeJsonFile]); each call is one step here, and the steps of
    different processes may alternate. *)

Module Race.
Import Json Db TaskLock.

(** Where a call of [claimTask] stands. *)
Inductive pc :=
  | AtStart
  | SawFile
  | Loaded (task : json)
  | Finished (r : outcome claim_result).

(** The call and its clock readings. *)
Record call :=
  { now_check : Z; now_claim : Z; agentId : json; at_pc : pc }.

(** The part of [claimTask] after [readJsonFile] returned [task]. *)
Definition afterRead (now_check now_claim : Z) (filename : string)
    (agentId : json) (task : json) (fs : gmap string file)
    : gmap string file * outcome claim_result :=
  if negb (truthy task) then
    (fs, Returns (ClaimFailed "Failed to read task file"))
  else
    match to_object task with
    | None => (fs, Throws "TypeError")
    | Some task =>
        if prop_is (get task "status") "in_progress"
           && negb (isLockStale now_check task)
        then
          (fs, Returns (ClaimRefused "Task already claimed"
                          (get task "claimed_by") (get task "claimed_at")))
        else
          let task := set "status" (JStr "in_progress") task in
          let task := set "claimed_at" (JTime now_claim) task in
          let task := set "claimed_by" agentId task in
          let task := set "filename" (JStr filename) task in
          (writeJsonFile fs filename (stringify task),
           Returns (Claimed task now_claim))
    end.

Definition with_pc (c : call) (p : pc) : call :=
  {| now_check := now_check c; now_claim := now_claim c;
     agentId := agentId c; at_pc := p |}.

(** One file-system call of one process. *)
Definition step (filename : string) (c : call) (fs : gmap string file)
    : gmap string file * call :=
  match at_pc c with
  | AtStart =>
      if negb (fileExists fs filename) then
        (fs, with_pc c (Finished (Returns (ClaimFailed "Task not found"))))
      else (fs, with_pc c SawFile)
  | SawFile => (fs, with_pc c (Loaded (readJsonFile fs filename JNull)))
  | Loaded task =>
      let '(fs', r) :=
        afterRead (now_check c) (now_claim c) filename (agentId c) task fs in
      (fs', with_pc c (Finished r))
  | Finished _ => (fs, c)
  end.

(** A schedule names, step by step, the process that moves. *)
Fixpoint run (filename : string) (schedule : list nat) (procs : list call)
    (fs : gmap string file) : gmap string file * list call :=
  match schedule with
  | [] => (fs, procs)
  | i :: rest =>
      match procs !! i with
      | Some c =>
          let '(fs', c') := step filename c fs in
          run filename rest (<[i := c']> procs) fs'
      | None => run filename rest procs fs
      end
  end.

(** Calls answered one after the other, each with its clock readings and
    agent id. *)
Fixpoint runCalls (filename : string) (calls : list (Z * Z * json))
    (fs : gmap string file)
    : gmap string file * list (outcome claim_result) :=
  match calls with
  | [] => (fs, [])
  | (now_check, now_claim, agentId) :: rest =>
      let '(fs1, r) := claimTask now_check now_claim filename agentId fs in
      let '(fs2, rs) := runCalls filename rest fs1 in
      (fs2, r :: rs)
  end.

Definition results (procs : list call) : list (option (outcome claim_result)) :=
  map (λ c, match at_pc c with Finished r => Some r | _ => None end) procs.

End Race.

(** ** Notions used to state the properties *)

Module QueueNotions.
Import Json Db TaskLock.

(** A record of the queue: a file of the tasks directory that holds a JSON
    object, [m] being its fields. *)
Definition is_record (fs : gmap string file) (key : string)
    (m : gmap string json) : Prop :=
  fs !! key = Some (Doc (JObj m)).

(** No file of the directory holds a bare number, string or [true]: every
    document is an object, an array or a falsy value.  The operations of
    the queue only ever write such documents. *)
Definition objects_only (fs : gmap string file) : Prop :=
  ∀ name j, fs !! name = Some (Doc j) → truthy j = true →
            is_Some (to_object j).

(** The fields [releaseTask] writes back for a record with fields [m]. *)
Definition released (m : gmap string json) : gmap string json :=
  delete "claimed_by" (delete "claimed_at" (<["status" := JStr "pending"]> m)).

(** Record creation as the specification words it: every record that a
    non-duplicate [createTask] stores is pending, stamped with the creation
    time, and carries no claim fields. *)
Definition enters_without_claim_fields : Prop :=
  ∀ now (data : gmap string json) key (fs : gmap string file),
    fs !! key = None →
    ∃ m, is_record (createTask now data key fs).1 key m
         ∧ m !! "status" = Some (JStr "pending")
         ∧ m !! "createdAt" = Some (JTime now)
         ∧ m !! "claimed_at" = None
         ∧ m !! "claimed_by" = None.

End QueueNotions.

(** ** File names

    [join(getTasksPath(), filename)] is the entry [filename] of the tasks
    directory when [filename] is a plain file name: not empty, neither [.]
    nor [..], and free of the path separator and of the NUL character.  Any
    other argument names the directory itself, an entry under another name,
    or a path outside the directory, none of which the map of entries
    describes; what is stated of a name that has no file yet is stated of
    plain names. *)

Module FileNames.
Import Stdlib.Strings.Ascii.

Definition plainChar (c : Ascii.ascii) : bool :=
  negb (Ascii.eqb c "/"%char) && negb (Ascii.eqb c Ascii.zero).

Fixpoint plainChars (s : string) : bool :=
  match s with
  | EmptyString => true
  | String c s' => plainChar c && plainChars s'
  end.

Definition plainName (filename : string) : bool :=
  negb (String.eqb filename "") && negb (String.eqb filename ".")
  && negb (String.eqb filename "..") && plainChars filename.

End FileNames.

Module BusNotions.
Import Json EventEmitter.

(** The bus after a poll delivered up to the event [e]. *)
Definition advanced (sid : string) (s : subscription) (e : event) (st : bus)
    : bus :=
  {| eventStore := eventStore st;
     subscriptions := <[sid := set_last_event_id (id e) s]> (subscriptions st);
     pendingPolls := pendingPolls st |}.

(** The bus when the module is loaded. *)
Definition start : bus :=
  {| eventStore := []; subscriptions := ∅; pendingPolls := [] |}.

(** One call of an exported function, one timer that fires, or one webhook
    request that succeeds. *)
Inductive bus_step : bus → bus → Prop :=
  | step_emit eid t_ev t_pr ty pl st :
      bus_step st (emit eid t_ev t_pr ty pl st).1.1
  | step_webhook sid ev st :
      bus_step st (webhookDelivered sid ev st)
  | step_subscribe sid now tys url cb st :
      bus_step st (subscribe sid now tys url cb st).1
  | step_unsubscribe sid st :
      bus_step st (unsubscribe sid st).1.1
  | step_poll pollId sid st :
      bus_step st (poll pollId sid st).1
  | step_timeout pollId st :
      bus_step st (pollTimeout pollId st).1
  | step_reset st :
      bus_step st (reset st).1.

Inductive reachable : bus → Prop :=
  | reach_start : reachable start
  | reach_step st st' : reachable st → bus_step st st' → reachable st'.

End BusNotions.

(** ** mcp-server/lib/db.js: slugify *)

Module DbSlug.
Import Stdlib.Strings.Ascii.

(** A string is its sequence of characters, each a code unit below 256
    (Latin-1). *)

Definition charCode (c : Ascii.ascii) : nat := Ascii.nat_of_ascii c.

(** [a-z0-9] *)
Definition isSlugChar (c : Ascii.ascii) : bool :=
  let n := charCode c in
  ((97 <=? n) && (n <=? 122) || (48 <=? n) && (n <=? 57))%nat.

(** The characters [toLowerCase] changes among the first 256: A-Z, and the
    accented capitals from 192 to 222 other than the multiplication sign;
    each moves up by 32. *)
Definition isUpper (c : Ascii.ascii) : bool :=
  let n := charCode c in
  ((65 <=? n) && (n <=? 90)
   || (192 <=? n) && (n <=? 222) && negb (n =? 215))%nat.

Definition lowerChar (c : Ascii.ascii) : Ascii.ascii :=
  if isUpper c then Ascii.ascii_of_nat (charCode c + 32) else c.

Fixpoint toLowerCase (s : string) : string :=
  match s with
  | EmptyString => EmptyString
  | String c s' => String (lowerChar c) (toLowerCase s')
  end.

(** [s.replace(/[^a-z0-9]+/g, '-')]: every maximal run of other characters
    becomes one dash.  [inRun] tells that the character before belonged to
    such a run. *)
Fixpoint dashRuns (inRun : bool) (s : string) : string :=
  match s with
  | EmptyString => EmptyString
  | String c s' =>
      if isSlugChar c then String c (dashRuns false s')
      else if inRun then dashRuns true s'
      else String "-"%char (dashRuns true s')
  end.

(** [s.replace(/^-|-$/g, '')]: a dash at the very start and a dash at the
    very end are removed, one each. *)
Definition dropFirstDash (s : string) : string :=
  match s with
  | String "-"%char s' => s'
  | _ => s
  end.

Fixpoint dropLastDash (s : string) : string :=
  match s with
  | EmptyString => EmptyString
  | String c EmptyString => if Ascii.eqb c "-"%char then EmptyString else s
  | String c s' => String c (dropLastDash s')
  end.

Definition slugify (companyName : string) : string :=
  dropLastDash (dropFirstDash (dashRuns false (toLowerCase companyName))).

End DbSlug.

(** ** mcp-server/tools/tasks.js: the handlers *)

Module TaskTools.
Import Json Db TaskLock DbSlug.

(** A row of the table [jobs]: [company] and [role] are NOT NULL text, the
    other columns used here are text or null. *)
Record job :=
  { job_id : Z; company : string; role : string; jobType : json;
    compensation : json; source : json; apply_url : json; notes : json }.

(** What the handlers work on: the tasks directory and the event bus of the
    process. *)
Record world :=
  { tasks : gmap string file; bus : EventEmitter.bus }.

(** [a || b] on two property reads. *)
Definition orElse (a b : option json) : option json :=
  if truthy_prop a then a else b.

(** An object literal, seen as [JSON.stringify] renders it: a property whose
    value is undefined is left out. *)
Definition objectOf (fields : list (string * option json)) : json :=
  JObj (list_to_map (omap (λ kv, (λ v, (kv.1, v)) <$> kv.2) fields)).

(** The properties read off a value that may be a primitive: reading a
    property of a primitive gives undefined. *)
Definition propsOf (v : json) : gmap string json :=
  match to_object v with
  | Some o => props o
  | None => ∅
  end.

(** [{ tasks, count }] *)
Record list_answer := { listed : list jsobj; count : nat }.

(** [include_stale] defaults to true in the handler. *)
Definition tasks_list (clock : string → Z) (ty st : json) (include_stale : bool)
    (w : world) : outcome list_answer :=
  match listTasksSync clock
          {| type := ty; status := st; includeStale := include_stale |}
          (tasks w) with
  | Throws e => Throws e
  | Returns ts => Returns {| listed := ts; count := length ts |}
  end.

(** [{ error: 'Task not found', filename }] or the task with its file
    name. *)
Inductive get_answer :=
  | GetNotFound (error : string) (filename : string)
  | GetTask (task : jsobj).

Definition tasks_get (filename : string) (w : world) : outcome get_answer :=
  let task := getTask (tasks w) filename in
  if negb (truthy task) then Returns (GetNotFound "Task not found" filename)
  else
    match to_object task with
    | None => Throws "TypeError"
    | Some o => Returns (GetTask (set "filename" (JStr filename) o))
    end.

(** The clock readings and the event id are those of [claimTask] and of
    [emit].  The third component lists the long-polls the event woke. *)
Definition tasks_claim (now_check now_claim : Z) (eid : string)
    (now_event now_prune : Z) (filename : string) (agent_id : json)
    (w : world)
    : world * outcome claim_result * list (string * EventEmitter.poll_result) :=
  let '(fs', r) := claimTask now_check now_claim filename agent_id (tasks w) in
  match r with
  | Returns (Claimed task _) =>
      let pl := objectOf
                  [ ("filename", Some (JStr filename));
                    ("agent_id", Some agent_id);
                    ("job_id", orElse (get task "jobId") (get task "job_id"));
                    ("company", get task "company") ] in
      let '(b', _, woken) :=
        EventEmitter.emit eid now_event now_prune "task.claimed" pl (bus w) in
      ({| tasks := fs'; bus := b' |}, r, woken)
  | _ => ({| tasks := fs'; bus := bus w |}, r, [])
  end.

Definition tasks_release (filename : string) (w : world)
    : world * outcome result :=
  let '(fs', r) := releaseTask filename (tasks w) in
  ({| tasks := fs'; bus := bus w |}, r).

(** [log_tokens] is null when not given. *)
Definition tasks_complete (eid : string) (now_event now_prune : Z)
    (filename : string) (log_tokens : json) (w : world)
    : world * outcome result * list (string * EventEmitter.poll_result) :=
  let task := getTask (tasks w) filename in
  let '(fs', r) := completeTask filename (tasks w) in
  match r with
  | Returns res =>
      if success res && truthy task then
        let t := propsOf task in
        let pl := objectOf
                    [ ("filename", Some (JStr filename));
                      ("type", t !! "type");
                      ("job_id", orElse (t !! "jobId") (t !! "job_id"));
                      ("company", t !! "company");
                      ("tokens", Some log_tokens) ] in
        let '(b', _, woken) :=
          EventEmitter.emit eid now_event now_prune "task.completed" pl (bus w)
        in
        ({| tasks := fs'; bus := b' |}, r, woken)
      else ({| tasks := fs'; bus := bus w |}, r, [])
  | Throws _ => ({| tasks := fs'; bus := bus w |}, r, [])
  end.

(** [{ error: 'Job not found', job_id }] or
    [{ ...result, job_id, company }]. *)
Inductive create_answer :=
  | JobNotFound (error : string) (job_id : Z)
  | CreateAnswer (r : create_result) (job_id : Z) (company : string).

Definition researchFile (j : job) : string :=
  "research-" ++ slugify (company j) ++ ".json".

Definition materialsFile (j : job) : string :=
  "generate-materials-" ++ slugify (company j) ++ ".json".

Definition researchData (j : job) : gmap string json :=
  list_to_map
    [ ("type", JStr "research"); ("jobId", JNum (job_id j));
      ("job_id", JNum (job_id j)); ("company", JStr (company j));
      ("role", JStr (role j)); ("source", source j);
      ("applyUrl", apply_url j); ("apply_url", apply_url j);
      ("notes", notes j); ("companySlug", JStr (slugify (company j))) ].

Definition materialsData (j : job) : gmap string json :=
  list_to_map
    [ ("type", JStr "materials"); ("jobId", JNum (job_id j));
      ("job_id", JNum (job_id j)); ("company", JStr (company j));
      ("role", JStr (role j)); ("jobType", jobType j);
      ("job_type", jobType j); ("compensation", compensation j);
      ("source", source j); ("applyUrl", apply_url j);
      ("apply_url", apply_url j); ("notes", notes j);
      ("companySlug", JStr (slugify (company j))) ].

(** The common body of the two creating handlers: [kind] is the [type] of
    the task, [file] and [data] the file name and the task data built from
    the row.  [jobs] is the table, [now] the clock read by [createTask]. *)
Definition createFor (kind : string) (file : job → string)
    (data : job → gmap string json) (jobs : gmap Z job) (now : Z)
    (eid : string) (now_event now_prune : Z) (id : Z) (w : world)
    : world * outcome create_answer
      * list (string * EventEmitter.poll_result) :=
  match jobs !! id with
  | None => (w, Returns (JobNotFound "Job not found" id), [])
  | Some j =>
      let '(fs', r) := createTask now (data j) (file j) (tasks w) in
      match r with
      | Returns res =>
          if created_ok res && negb (already_exists res) then
            let pl := objectOf
                        [ ("filename", Some (JStr (file j)));
                          ("type", Some (JStr kind));
                          ("job_id", Some (JNum (job_id j)));
                          ("company", Some (JStr (company j))) ] in
            let '(b', _, woken) :=
              EventEmitter.emit eid now_event now_prune "task.created" pl
                (bus w) in
            ({| tasks := fs'; bus := b' |},
             Returns (CreateAnswer res (job_id j) (company j)), woken)
          else
            ({| tasks := fs'; bus := bus w |},
             Returns (CreateAnswer res (job_id j) (company j)), [])
      | Throws e => ({| tasks := fs'; bus := bus w |}, Throws e, [])
      end
  end.

Definition tasks_create_research :=
  createFor "research" researchFile researchData.

Definition tasks_create_materials :=
  createFor "materials" materialsFile materialsData.

End TaskTools.

(** ** mcp-server/tools/events.js: the handlers *)

Module EventTools.
Import Json EventEmitter.

(** [{ error: 'Invalid event types', invalid_types, valid_types }] or the
    result of [subscribe]. *)
Inductive subscribe_answer :=
  | InvalidTypes (error : string) (invalid_types valid_types : list string)
  | SubscribeAnswer (r : subscribe_result).

Definition events_subscribe (sid : string) (now : Z) (types : list string)
    (url cb : option string) (st : bus) : bus * subscribe_answer :=
  let invalidTypes :=
    List.filter (λ t, negb (includes EVENT_TYPES t)) types in
  match invalidTypes with
  | [] =>
      let '(st', r) := subscribe sid now types url cb st in
      (st', SubscribeAnswer r)
  | _ => (st, InvalidTypes "Invalid event types" invalidTypes EVENT_TYPES)
  end.

Definition events_unsubscribe := unsubscribe.

(** [{ events, count, available_types }] *)
Record list_answer :=
  { listed : list event; count : nat; available_types : list string }.

Definition events_list (since : json) (ty : option string) (limit : Z)
    (st : bus) : list_answer :=
  let evs := listEvents since ty limit st in
  {| listed := evs; count := length evs; available_types := EVENT_TYPES |}.

(** [{ ...result, subscription_id, event_types, count }] *)
Record poll_answer :=
  { answered : poll_result; subscription_id : string;
    subscribed_types : list string; answer_count : nat }.

(** The answer built once the promise of [poll] has settled with [r]. *)
Definition pollAnswer (sid : string) (s : subscription) (r : poll_result)
    : poll_answer :=
  {| answered := r; subscription_id := sid;
     subscribed_types := event_types s;
     answer_count := length (events r) |}.

(** [{ error: 'Subscription not found', subscription_id }], an answer, or a
    call left waiting for its poll. *)
Inductive poll_reply :=
  | PollNotFound (error : string) (subscription_id : string)
  | PollAnswered (a : poll_answer)
  | PollWaiting (pollId : string).

Definition events_poll (pollId : string) (sid : string) (st : bus)
    : bus * poll_reply :=
  match getSubscription sid st with
  | None => (st, PollNotFound "Subscription not found" sid)
  | Some s =>
      match poll pollId sid st with
      | (st', Resolved r) => (st', PollAnswered (pollAnswer sid s r))
      | (st', Suspended p) => (st', PollWaiting p)
      end
  end.

End EventTools.

(** ** Runs of the queue *)

Module QueueRuns.
Import Json Db TaskLock.

(** One call of an operation of the queue that may write. *)
Inductive queue_step : gmap string file → gmap string file → Prop :=
  | step_create now data key fs :
      queue_step fs (createTask now data key fs).1
  | step_claim now_check now_claim key agent fs :
      queue_step fs (claimTask now_check now_claim key agent fs).1
  | step_release key fs :
      queue_step fs (releaseTask key fs).1
  | step_complete key fs :
      queue_step fs (completeTask key fs).1.

(** The directories the queue makes of an empty one. *)
Inductive made_by_queue : gmap string file → Prop :=
  | made_empty : made_by_queue ∅
  | made_step fs fs' : made_by_queue fs → queue_step fs fs' → made_by_queue fs'.

(** The fields of a record as the queue keeps them: a creation stamp, and
    either the status 'pending' or the status 'in_progress' with a claim
    stamp. *)
Definition well_kept (m : gmap string json) : Prop :=
  (∃ t, m !! "createdAt" = Some (JTime t))
  ∧ (m !! "status" = Some (JStr "pending")
     ∨ (m !! "status" = Some (JStr "in_progress")
        ∧ ∃ T, m !! "claimed_at" = Some (JTime T))).

Definition all_well_kept (fs : gmap string file) : Prop :=
  ∀ key f, fs !! key = Some f → ∃ m, f = Doc (JObj m) ∧ well_kept m.

(** Sorted by a comparator: every element is at most the ones after it. *)
Fixpoint sortedBy {A} (cmp : A → A → Z) (l : list A) : Prop :=
  match l with
  | [] => True
  | x :: l' => (∀ y, In y l' → cmp x y ≤ 0) ∧ sortedBy cmp l'
  end.

End QueueRuns.

(** ** The shape of a slug *)

Module SlugNotions.
Import Stdlib.Strings.Ascii DbSlug.

(** No dash follows a dash, every other character is a lowercase letter or
    a digit; with [afterDash] the string does not begin with a dash
    either. *)
Fixpoint clean (afterDash : bool) (s : string) : Prop :=
  match s with
  | EmptyString => True
  | String c s' =>
      if isSlugChar c then clean false s'
      else c = "-"%char ∧ afterDash = false ∧ clean true s'
  end.

Fixpoint endsWithDash (s : string) : bool :=
  match s with
  | EmptyString => false
  | String c EmptyString => Ascii.eqb c "-"
  | String _ s' => endsWithDash s'
  end.

Fixpoint hasSlugChar (s : string) : bool :=
  match s with
  | EmptyString => false
  | String c s' => isSlugChar c || hasSlugChar s'
  end.

End SlugNotions.

(** * Facts about the JavaScript operations *)

Module JsonSpec.
Import Json.

(** Sorting rearranges: it neither drops nor adds an element. *)
Lemma sort_insert_In {A} (cmp : A → A → Z) x l t :
  In t (sort_insert cmp x l) ↔ t = x ∨ In t l.
Proof.
  induction l as [| y l IH]; simpl.
  - intuition.
  - destruct (0 <? cmp x y); simpl; rewrite ?IH; intuition.
Qed.

Lemma sort_In {A} (cmp : A → A → Z) l t : In t (sort cmp l) ↔ In t l.
Proof.
  induction l as [| x l IH]; simpl; [done |].
  rewrite sort_insert_In, IH. intuition.
Qed.

Lemma sort_insert_length {A} (cmp : A → A → Z) x l :
  length (sort_insert cmp x l) = S (length l).
Proof.
  induction l as [| y l IH]; simpl; [done |].
  destruct (0 <? cmp x y); simpl; by rewrite ?IH.
Qed.

Lemma sort_length {A} (cmp : A → A → Z) l : length (sort cmp l) = length l.
Proof.
  induction l as [| x l IH]; simpl; [done |].
  by rewrite sort_insert_length, IH.
Qed.

End JsonSpec.

(** * Properties of the task queue *)

Module TaskLockSpec.
Import Json Db TaskLock QueueNotions FileNames JsonSpec.

Lemma fileExists_true fs key f : fs !! key = Some f → fileExists fs key = true.
Proof.
  intros H. unfold fileExists. apply bool_decide_eq_true_2. by exists f.
Qed.

Lemma fileExists_false fs key : fs !! key = None → fileExists fs key = false.
Proof.
  intros H. unfold fileExists. apply bool_decide_eq_false_2.
  rewrite H. by intros [f Hf].
Qed.

Lemma fileExists_spec fs key : fileExists fs key = true ↔ is_Some (fs !! key).
Proof. unfold fileExists. by rewrite bool_decide_eq_true. Qed.

Lemma readJsonFile_record fs key m d :
  is_record fs key m → readJsonFile fs key d = JObj m.
Proof. unfold is_record, readJsonFile. by intros ->. Qed.

#[local] Ltac open_record H :=
  rewrite ?(fileExists_true _ _ _ H), ?(readJsonFile_record _ _ _ _ H); simpl.

(** What [claimTask] does on a record it may claim. *)
Lemma claimTask_free now_check now_claim key agent fs m :
  is_record fs key m →
  prop_is (m !! "status") "in_progress"
    && negb (isLockStale now_check {| elems := None; props := m |}) = false →
  let m' := <["filename" := JStr key]>
              (<["claimed_by" := agent]>
                 (<["claimed_at" := JTime now_claim]>
                    (<["status" := JStr "in_progress"]> m))) in
  claimTask now_check now_claim key agent fs
  = (<[key := Doc (JObj m')]> fs,
     Returns (Claimed {| elems := None; props := m' |} now_claim)).
Proof.
  intros Hrec Hfree. unfold claimTask. open_record Hrec.
  unfold get; simpl. by rewrite Hfree.
Qed.

(** What [claimTask] does on a record that is locked. *)
Lemma claimTask_locked now_check now_claim key agent fs m :
  is_record fs key m →
  prop_is (m !! "status") "in_progress" = true →
  isLockStale now_check {| elems := None; props := m |} = false →
  claimTask now_check now_claim key agent fs
  = (fs, Returns (ClaimRefused "Task already claimed"
                    (m !! "claimed_by") (m !! "claimed_at"))).
Proof.
  intros Hrec Hst Hfresh. unfold claimTask. open_record Hrec.
  unfold get; simpl. by rewrite Hst, Hfresh.
Qed.

Lemma isLockStale_stamp now m T :
  m !! "claimed_at" = Some (JTime T) →
  isLockStale now {| elems := None; props := m |}
  = bool_decide (now - T > STALE_LOCK_MS).
Proof. intros H. unfold isLockStale, get; simpl. by rewrite H. Qed.

(** C4.  Idempotent creation: on a key that is a plain file name and has
    no file yet, the first [createTask] answers [already_exists = false] and
    the second [already_exists = true]; the second call (with the same
    payload or any other) leaves the directory as the first one made it, so
    the record still has the [createdAt] of the first call and every field
    of the payload. *)
Theorem createTask_twice now1 now2 (data data2 : gmap string json) key
    (fs : gmap string file) :
  plainName key = true →
  fs !! key = None →
  ∃ fs1 m,
    createTask now1 data key fs
    = (fs1, Returns {| created_ok := true; already_exists := false;
                       filename := key |})
    ∧ createTask now2 data2 key fs1
      = (fs1, Returns {| created_ok := true; already_exists := true;
                         filename := key |})
    ∧ is_record fs1 key m
    ∧ m !! "createdAt" = Some (JTime now1)
    ∧ m !! "status" = Some (JStr "pending")
    ∧ ∀ k, k ≠ "createdAt" → k ≠ "status" → m !! k = data !! k.
Proof.
  intros _ Hfree.
  set (m := <["status" := JStr "pending"]> (<["createdAt" := JTime now1]> data)).
  exists (<[key := Doc (JObj m)]> fs), m.
  assert (Hrec : is_record (<[key := Doc (JObj m)]> fs) key m)
    by apply lookup_insert_eq.
  repeat split.
  - unfold createTask. by rewrite (fileExists_false _ _ Hfree).
  - unfold createTask. by rewrite (fileExists_true _ _ _ Hrec).
  - exact Hrec.
  - subst m. by simplify_map_eq.
  - subst m. by simplify_map_eq.
  - intros k H1 H2. subst m. by simplify_map_eq.
Qed.

Lemma createTask_twice_witness :
  ∃ fs1 m,
    createTask 1000 {[ "company" := JStr "Acme AI" ]} "research-acme-ai.json" ∅
    = (fs1, Returns {| created_ok := true; already_exists := false;
                       filename := "research-acme-ai.json" |})
    ∧ createTask 2000 {[ "company" := JStr "Acme AI" ]}
        "research-acme-ai.json" fs1
      = (fs1, Returns {| created_ok := true; already_exists := true;
                         filename := "research-acme-ai.json" |})
    ∧ is_record fs1 "research-acme-ai.json" m
    ∧ m !! "createdAt" = Some (JTime 1000)
    ∧ m !! "status" = Some (JStr "pending")
    ∧ ∀ k, k ≠ "createdAt" → k ≠ "status"
           → m !! k = ({[ "company" := JStr "Acme AI" ]} : gmap string json) !! k.
Proof.
  apply (createTask_twice 1000 2000 {[ "company" := JStr "Acme AI" ]}
           {[ "company" := JStr "Acme AI" ]} "research-acme-ai.json" ∅).
  - reflexivity.
  - reflexivity.
Defined.

(** A file that is not a directory is deleted by [completeTask]. *)
Lemma completeTask_succeeds key fs f :
  fs !! key = Some f → f ≠ Directory →
  completeTask key fs
  = (delete key fs, Returns {| success := true; error := None |}).
Proof.
  intros Hf Hdir. unfold completeTask, deleteFile.
  rewrite (fileExists_true _ _ _ Hf), Hf. by destruct f.
Qed.

Lemma completeTask_success_inv key fs fs' r :
  completeTask key fs = (fs', Returns r) → success r = true →
  fs' = delete key fs.
Proof.
  unfold completeTask, deleteFile. destruct (fileExists fs key); simpl.
  - destruct (fs !! key) as [[ | | ]|]; intros [= <- <-]; simpl; congruence.
  - intros [= <- <-]; simpl; congruence.
Qed.

(** C5.  Completion removes the record: on a key that holds a file (a
    record, or a file whose text is not JSON) [completeTask] answers
    [success = true] and takes that file, and no other, out of the
    directory; after it [getTask] finds nothing under the key (null), and a
    [createTask] on the same key writes a new record and answers
    [already_exists = false]. *)
Theorem complete_then_get_and_create key (fs : gmap string file) f :
  fs !! key = Some f →
  f ≠ Directory →
  ∃ fs',
    completeTask key fs = (fs', Returns {| success := true; error := None |})
    ∧ fs' !! key = None
    ∧ (∀ other, other ≠ key → fs' !! other = fs !! other)
    ∧ getTask fs' key = JNull
    ∧ ∀ now (data : gmap string json),
        ∃ fs2 m,
          createTask now data key fs'
          = (fs2, Returns {| created_ok := true; already_exists := false;
                             filename := key |})
          ∧ is_record fs2 key m
          ∧ m !! "status" = Some (JStr "pending")
          ∧ m !! "createdAt" = Some (JTime now)
          ∧ getTask fs2 key = JObj m.
Proof.
  intros Hf Hfile. exists (delete key fs).
  assert (Hgone : delete key fs !! key = None) by apply lookup_delete_eq.
  split; [by apply (completeTask_succeeds key fs f) |].
  split; [done |].
  split; [intros other Hne; by apply lookup_delete_ne |].
  split; [unfold getTask, readJsonFile; by rewrite Hgone |].
  intros now data.
  set (m := <["status" := JStr "pending"]> (<["createdAt" := JTime now]> data)).
  exists (<[key := Doc (JObj m)]> (delete key fs)), m.
  split; [unfold createTask; by rewrite (fileExists_false _ _ Hgone) |].
  split; [apply lookup_insert_eq |].
  split; [subst m; by simplify_map_eq |].
  split; [subst m; by simplify_map_eq |].
  unfold getTask, readJsonFile. by rewrite lookup_insert_eq.
Qed.

Lemma complete_then_get_and_create_witness :
  let m : gmap string json :=
    {[ "status" := JStr "in_progress"; "claimed_by" := JStr "worker-A";
       "claimed_at" := JTime 1000; "createdAt" := JTime 500 ]} in
  let fs : gmap string file := {[ "research-acme-ai.json" := Doc (JObj m) ]} in
  ∃ fs',
    completeTask "research-acme-ai.json" fs
    = (fs', Returns {| success := true; error := None |})
    ∧ fs' !! "research-acme-ai.json" = None
    ∧ (∀ other, other ≠ "research-acme-ai.json" → fs' !! other = fs !! other)
    ∧ getTask fs' "research-acme-ai.json" = JNull
    ∧ ∀ now (data : gmap string json),
        ∃ fs2 m2,
          createTask now data "research-acme-ai.json" fs'
          = (fs2, Returns {| created_ok := true; already_exists := false;
                             filename := "research-acme-ai.json" |})
          ∧ is_record fs2 "research-acme-ai.json" m2
          ∧ m2 !! "status" = Some (JStr "pending")
          ∧ m2 !! "createdAt" = Some (JTime now)
          ∧ getTask fs2 "research-acme-ai.json" = JObj m2.
Proof.
  intros m fs.
  apply (complete_then_get_and_create "research-acme-ai.json" fs
           (Doc (JObj m))).
  - reflexivity.
  - discriminate.
Defined.

Lemma releaseTask_record key fs m :
  is_record fs key m →
  releaseTask key fs
  = (<[key := Doc (JObj (released m))]> fs,
     Returns {| success := true; error := None |}).
Proof. intros Hrec. unfold releaseTask. by open_record Hrec. Qed.

Lemma released_pending m :
  m !! "status" = Some (JStr "pending") →
  m !! "claimed_at" = None → m !! "claimed_by" = None →
  released m = m.
Proof.
  intros Hs Hat Hby. unfold released.
  rewrite (insert_id m _ _ Hs).
  rewrite (delete_id m "claimed_at") by done.
  by rewrite delete_id.
Qed.

(** C7.  Release: on every record [releaseTask] takes no account of who
    holds the claim and answers [success = true]; the record it writes has
    [status = 'pending'], no [claimed_at] and no [claimed_by], and every
    other field as before, and no other file changes.  On a record that is
    already pending with no claim fields the directory is left exactly as it
    was.  An answer [success = false] means that the key holds no record. *)
Theorem release_semantics key (fs : gmap string file) :
  (∀ m, is_record fs key m →
     ∃ fs' m',
       releaseTask key fs = (fs', Returns {| success := true; error := None |})
       ∧ is_record fs' key m'
       ∧ m' !! "status" = Some (JStr "pending")
       ∧ m' !! "claimed_at" = None
       ∧ m' !! "claimed_by" = None
       ∧ (∀ k, k ≠ "status" → k ≠ "claimed_at" → k ≠ "claimed_by" →
               m' !! k = m !! k)
       ∧ (∀ other, other ≠ key → fs' !! other = fs !! other)
       ∧ (m !! "status" = Some (JStr "pending") →
          m !! "claimed_at" = None → m !! "claimed_by" = None → fs' = fs))
  ∧ (∀ fs' r, releaseTask key fs = (fs', Returns r) → success r = false →
       fs' = fs ∧ ¬ ∃ m, is_record fs key m).
Proof.
  split.
  - intros m Hrec.
    exists (<[key := Doc (JObj (released m))]> fs), (released m).
    split; [by apply releaseTask_record |].
    split; [apply lookup_insert_eq |].
    unfold released.
    split; [by simplify_map_eq |].
    split; [by simplify_map_eq |].
    split; [by simplify_map_eq |].
    split; [intros k H1 H2 H3; by simplify_map_eq |].
    split; [intros other Hne; by rewrite lookup_insert_ne |].
    intros Hs Hat Hby. fold (released m).
    rewrite released_pending by done. by apply insert_id.
  - intros fs' r Hrel Hfail. split.
    + revert Hrel. unfold releaseTask.
      destruct (fileExists fs key); simpl; [| by intros [= <- _]].
      destruct (truthy (readJsonFile fs key JNull)); simpl;
        [| by intros [= <- _]].
      destruct (to_object (readJsonFile fs key JNull)); [| done].
      intros [= _ <-]. done.
    + intros [m Hrec]. rewrite (releaseTask_record _ _ _ Hrec) in Hrel.
      injection Hrel as _ <-. done.
Qed.

Lemma release_semantics_witness :
  let m : gmap string json :=
    {[ "status" := JStr "in_progress"; "claimed_by" := JStr "worker-A";
       "claimed_at" := JTime 1000; "company" := JStr "Acme AI" ]} in
  let fs : gmap string file := {[ "research-acme-ai.json" := Doc (JObj m) ]} in
  (∃ fs' m',
     releaseTask "research-acme-ai.json" fs
     = (fs', Returns {| success := true; error := None |})
     ∧ is_record fs' "research-acme-ai.json" m'
     ∧ m' !! "status" = Some (JStr "pending")
     ∧ m' !! "claimed_at" = None
     ∧ m' !! "claimed_by" = None
     ∧ (∀ k, k ≠ "status" → k ≠ "claimed_at" → k ≠ "claimed_by" →
             m' !! k = m !! k)
     ∧ (∀ other, other ≠ "research-acme-ai.json" → fs' !! other = fs !! other)
     ∧ (m !! "status" = Some (JStr "pending") →
        m !! "claimed_at" = None → m !! "claimed_by" = None → fs' = fs))
  ∧ (∅ : gmap string file) = ∅
    ∧ ¬ ∃ m, is_record ∅ "research-acme-ai.json" m.
Proof.
  intros m fs. split.
  - destruct (release_semantics "research-acme-ai.json" fs) as [Hok _].
    apply (Hok m). reflexivity.
  - destruct (release_semantics "research-acme-ai.json" ∅) as [_ Hfail].
    apply (Hfail ∅ {| success := false; error := Some "Task not found" |});
      reflexivity.
Defined.

(** A payload that itself has claim fields keeps them in the stored
    record. *)
Lemma create_keeps_claim_fields_of_payload : ¬ enters_without_claim_fields.
Proof.
  intros H.
  destruct (H 5000 {[ "claimed_by" := JStr "worker-A"; "claimed_at" := JTime 1000 ]}
              "research-acme-ai.json" ∅ (lookup_empty _))
    as (m & Hrec & _ & _ & _ & Hby).
  vm_compute in Hrec. injection Hrec as <-. vm_compute in Hby. discriminate.
Qed.

(** C10, amended.  A non-duplicate [createTask], that is one on a plain
    file name that has no file yet, stores the payload with [status] set to
    'pending' and [createdAt] set to the creation time, whatever the payload
    had under these two names; every other field of the payload is stored as
    given, so the record has a claim field exactly when the payload had
    it. *)
Theorem createTask_stores_pending now (data : gmap string json) key
    (fs : gmap string file) :
  plainName key = true →
  fs !! key = None →
  ∃ fs' m,
    createTask now data key fs
    = (fs', Returns {| created_ok := true; already_exists := false;
                       filename := key |})
    ∧ is_record fs' key m
    ∧ m !! "status" = Some (JStr "pending")
    ∧ m !! "createdAt" = Some (JTime now)
    ∧ (∀ k, k ≠ "status" → k ≠ "createdAt" → m !! k = data !! k)
    ∧ m !! "claimed_at" = data !! "claimed_at"
    ∧ m !! "claimed_by" = data !! "claimed_by".
Proof.
  intros _ Hfree.
  set (m := <["status" := JStr "pending"]> (<["createdAt" := JTime now]> data)).
  exists (<[key := Doc (JObj m)]> fs), m.
  split; [unfold createTask; by rewrite (fileExists_false _ _ Hfree) |].
  split; [apply lookup_insert_eq |].
  subst m.
  split; [by simplify_map_eq |].
  split; [by simplify_map_eq |].
  split; [intros k H1 H2; by simplify_map_eq |].
  split; by simplify_map_eq.
Qed.

Lemma createTask_stores_pending_witness :
  let data : gmap string json :=
    {[ "status" := JStr "in_progress"; "createdAt" := JTime 1;
       "company" := JStr "Acme AI" ]} in
  ∃ fs' m,
    createTask 5000 data "research-acme-ai.json" ∅
    = (fs', Returns {| created_ok := true; already_exists := false;
                       filename := "research-acme-ai.json" |})
    ∧ is_record fs' "research-acme-ai.json" m
    ∧ m !! "status" = Some (JStr "pending")
    ∧ m !! "createdAt" = Some (JTime 5000)
    ∧ (∀ k, k ≠ "status" → k ≠ "createdAt" → m !! k = data !! k)
    ∧ m !! "claimed_at" = data !! "claimed_at"
    ∧ m !! "claimed_by" = data !! "claimed_by".
Proof.
  intros data.
  apply (createTask_stores_pending 5000 data "research-acme-ai.json" ∅).
  - reflexivity.
  - reflexivity.
Defined.

(** *** Directories of objects, and listing *)

Lemma stringify_object o : is_Some (to_object (stringify o)).
Proof. unfold stringify. destruct (elems o); simpl; eauto. Qed.

Lemma objects_only_write fs key o :
  objects_only fs → objects_only (writeJsonFile fs key (stringify o)).
Proof.
  intros Hok name j. unfold writeJsonFile.
  destruct (decide (key = name)) as [-> | Hne].
  - rewrite lookup_insert_eq. intros [= <-] _. apply stringify_object.
  - rewrite lookup_insert_ne by done. apply Hok.
Qed.

Lemma objects_only_delete fs key : objects_only fs → objects_only (delete key fs).
Proof.
  intros Hok name j Hl. apply (Hok name j).
  apply lookup_delete_Some in Hl. tauto.
Qed.

(** [objects_only] holds of the empty directory and is kept by every
    operation of the queue. *)
Lemma objects_only_empty : objects_only ∅.
Proof. intros name j Hl. by rewrite lookup_empty in Hl. Qed.

Lemma objects_only_createTask now data key fs :
  objects_only fs → objects_only (createTask now data key fs).1.
Proof.
  intros Hok. unfold createTask. destruct (fileExists fs key); simpl; [done |].
  exact (objects_only_write fs key
           {| elems := None;
              props := <["status" := JStr "pending"]>
                         (<["createdAt" := JTime now]> data) |} Hok).
Qed.

Lemma objects_only_claimTask n1 n2 key agent fs :
  objects_only fs → objects_only (claimTask n1 n2 key agent fs).1.
Proof.
  intros Hok. unfold claimTask.
  destruct (fileExists fs key); simpl; [| done].
  destruct (truthy (readJsonFile fs key JNull)); simpl; [| done].
  destruct (to_object (readJsonFile fs key JNull)) as [o |]; [| done].
  destruct (_ && _); simpl; [done |]. by apply objects_only_write.
Qed.

Lemma objects_only_releaseTask key fs :
  objects_only fs → objects_only (releaseTask key fs).1.
Proof.
  intros Hok. unfold releaseTask.
  destruct (fileExists fs key); simpl; [| done].
  destruct (truthy (readJsonFile fs key JNull)); simpl; [| done].
  destruct (to_object (readJsonFile fs key JNull)) as [o |]; [| done].
  simpl. by apply objects_only_write.
Qed.

Lemma objects_only_completeTask key fs :
  objects_only fs → objects_only (completeTask key fs).1.
Proof.
  intros Hok. unfold completeTask, deleteFile.
  destruct (fileExists fs key); simpl; [| done].
  destruct (fs !! key) as [[ | | ]|]; simpl; try done;
    by apply objects_only_delete.
Qed.

Lemma getTask_truthy_object fs name :
  objects_only fs → truthy (getTask fs name) = true →
  is_Some (to_object (getTask fs name)).
Proof.
  intros Hok. unfold getTask, readJsonFile.
  destruct (fs !! name) as [[j | | ]|] eqn:Hl; simpl; try done.
  by apply (Hok name).
Qed.

(** On a directory of objects the lock operations always return;
    [completeTask] does so on any directory. *)
Lemma claimTask_returns now_check now_claim key agent fs :
  objects_only fs →
  ∃ r, (claimTask now_check now_claim key agent fs).2 = Returns r.
Proof.
  intros Hok. unfold claimTask.
  destruct (fileExists fs key); simpl; [| eauto].
  destruct (truthy (readJsonFile fs key JNull)) eqn:Htr; simpl; [| eauto].
  destruct (getTask_truthy_object fs key Hok Htr) as [o Ho].
  unfold getTask in Ho. rewrite Ho. destruct (_ && _); simpl; eauto.
Qed.

Lemma releaseTask_returns key fs :
  objects_only fs → ∃ r, (releaseTask key fs).2 = Returns r.
Proof.
  intros Hok. unfold releaseTask.
  destruct (fileExists fs key); simpl; [| eauto].
  destruct (truthy (readJsonFile fs key JNull)) eqn:Htr; simpl; [| eauto].
  destruct (getTask_truthy_object fs key Hok Htr) as [o Ho].
  unfold getTask in Ho. rewrite Ho. simpl; eauto.
Qed.

Lemma completeTask_returns key fs : ∃ r, (completeTask key fs).2 = Returns r.
Proof.
  unfold completeTask. destruct (fileExists fs key); simpl; [| eauto].
  destruct (deleteFile fs key). simpl; eauto.
Qed.

(** A file that holds a bare number is not a record, and the assignment to
    a property of the number raises. *)
Example claimTask_on_a_number :
  claimTask 0 0 "n.json" JNull {[ "n.json" := Doc (JNum 5) ]}
  = ({[ "n.json" := Doc (JNum 5) ]}, Throws "TypeError").
Proof. reflexivity. Qed.

(** C6.  The failures of the lock operations are results, not exceptions:
    on a plain file name with no file, [claimTask], [completeTask] and
    [releaseTask] return [success = false] with the error 'Task not found'
    (the specification's NOT_FOUND); on a record that is in progress and
    whose lock is not stale (its [claimed_at] is a stamp no older than
    [STALE_LOCK_MS] at the check, or is missing or falsy), [claimTask]
    returns [success = false] with the error 'Task already claimed'
    (ALREADY_CLAIMED) together with the record's [claimed_by] and
    [claimed_at].  Each time the directory is left as it was and the call
    returns instead of raising.  More generally [completeTask] always
    returns, and so do [claimTask] and [releaseTask] on a directory of
    objects. *)
Theorem failures_are_results key (fs : gmap string file) :
  (plainName key = true → fs !! key = None →
     (∀ now_check now_claim agent,
        claimTask now_check now_claim key agent fs
        = (fs, Returns (ClaimFailed "Task not found")))
     ∧ completeTask key fs
       = (fs, Returns {| success := false; error := Some "Task not found" |})
     ∧ releaseTask key fs
       = (fs, Returns {| success := false; error := Some "Task not found" |}))
  ∧ (∀ m now_check now_claim agent,
       is_record fs key m →
       m !! "status" = Some (JStr "in_progress") →
       (∃ T, m !! "claimed_at" = Some (JTime T)
             ∧ now_check - T ≤ STALE_LOCK_MS)
       ∨ truthy_prop (m !! "claimed_at") = false →
       claimTask now_check now_claim key agent fs
       = (fs, Returns (ClaimRefused "Task already claimed"
                         (m !! "claimed_by") (m !! "claimed_at"))))
  ∧ (∃ r, (completeTask key fs).2 = Returns r)
  ∧ (objects_only fs →
       (∀ now_check now_claim agent,
          ∃ r, (claimTask now_check now_claim key agent fs).2 = Returns r)
       ∧ ∃ r, (releaseTask key fs).2 = Returns r).
Proof.
  split; [| split; [| split]].
  - intros _ Hnone. pose proof (fileExists_false _ _ Hnone) as He.
    split; [| split].
    + intros. unfold claimTask. by rewrite He.
    + unfold completeTask. by rewrite He.
    + unfold releaseTask. by rewrite He.
  - intros m now_check now_claim agent Hrec Hst Hstamp.
    apply claimTask_locked; [done | by rewrite Hst |].
    destruct Hstamp as [(T & HT & Hyoung) | Hnone].
    + rewrite (isLockStale_stamp now_check m T HT).
      apply bool_decide_eq_false. lia.
    + unfold isLockStale, get. cbn [props]. by rewrite Hnone.
  - apply completeTask_returns.
  - intros Hok. split.
    + intros. by apply claimTask_returns.
    + by apply releaseTask_returns.
Qed.

Lemma failures_are_results_witness :
  let fs : gmap string file :=
    {[ "a.json" := Doc (JObj {[ "status" := JStr "in_progress";
                                "claimed_by" := JStr "worker-A";
                                "claimed_at" := JTime 1000 ]}) ]} in
  claimTask 5000 5001 "b.json" (JStr "worker-B") fs
  = (fs, Returns (ClaimFailed "Task not found"))
  ∧ completeTask "b.json" fs
    = (fs, Returns {| success := false; error := Some "Task not found" |})
  ∧ releaseTask "b.json" fs
    = (fs, Returns {| success := false; error := Some "Task not found" |})
  ∧ claimTask 5000 5001 "a.json" (JStr "worker-B") fs
    = (fs, Returns (ClaimRefused "Task already claimed"
                      (Some (JStr "worker-A")) (Some (JTime 1000)))).
Proof.
  intros fs.
  destruct (failures_are_results "b.json" fs) as (Hmissing & _ & _ & _).
  destruct (Hmissing eq_refl eq_refl) as (Hclaim & Hcomplete & Hrelease).
  destruct (failures_are_results "a.json" fs) as (_ & Hlocked & _ & _).
  split; [| split; [| split]].
  - apply Hclaim.
  - apply Hcomplete.
  - apply Hrelease.
  - rewrite (Hlocked {[ "status" := JStr "in_progress";
                        "claimed_by" := JStr "worker-A";
                        "claimed_at" := JTime 1000 ]} 5000 5001 (JStr "worker-B"));
      [reflexivity | reflexivity | reflexivity |].
    left. exists 1000. split; [reflexivity |]. unfold STALE_LOCK_MS. lia.
Defined.

(** The loop returns, and its result holds exactly the entries that pass
    the filters. *)
Lemma listLoop_returns clock opts fs files :
  objects_only fs →
  ∃ tasks,
    listLoop clock opts fs files = Returns tasks
    ∧ ∀ t, In t tasks ↔
           ∃ name o, In name files
                     ∧ truthy (getTask fs name) = true
                     ∧ to_object (getTask fs name) = Some o
                     ∧ listEntry (clock name) opts name o = Some t.
Proof.
  intros Hok. induction files as [| name rest (tasks & Heq & Hin)].
  - exists []. split; [done |]. intros t; split; [done |].
    by intros (? & ? & [] & _).
  - simpl. destruct (truthy (getTask fs name)) eqn:Htr; simpl.
    + destruct (getTask_truthy_object fs name Hok Htr) as [o Ho].
      rewrite Ho, Heq.
      destruct (listEntry (clock name) opts name o) as [t0 |] eqn:Hentry.
      * exists (t0 :: tasks). split; [done |]. intros t; split.
        -- intros [<- | Ht]; [by exists name, o; auto |].
           apply Hin in Ht as (n & o' & ? & ?). exists n, o'; auto.
        -- intros (n & o' & [<- | Hn] & Hb & Hc & Hd).
           ++ left. congruence.
           ++ right. apply Hin. by exists n, o'.
      * exists tasks. split; [done |]. intros t; split.
        -- intros Ht. apply Hin in Ht as (n & o' & ? & ?). exists n, o'; auto.
        -- intros (n & o' & [<- | Hn] & Hb & Hc & Hd).
           ++ congruence.
           ++ apply Hin. by exists n, o'.
    + exists tasks. split; [done |]. intros t; split.
      * intros Ht. apply Hin in Ht as (n & o' & ? & ?). exists n, o'; auto.
      * intros (n & o' & [<- | Hn] & Hb & Hc & Hd).
        -- congruence.
        -- apply Hin. by exists n, o'.
Qed.

Lemma readdir_In fs name : In name (readdir fs) ↔ is_Some (fs !! name).
Proof.
  unfold readdir. rewrite <- list_elem_of_In, list_elem_of_fmap. split.
  - intros ([n f] & -> & Hin). apply elem_of_map_to_list in Hin. by exists f.
  - intros [f Hf]. exists (name, f). split; [done |].
    by apply elem_of_map_to_list.
Qed.

(** [listTasksSync] returns, with exactly the entries of the [.json] files
    that pass the filters. *)
Lemma listTasksSync_returns clock opts fs :
  objects_only fs →
  ∃ tasks,
    listTasksSync clock opts fs = Returns tasks
    ∧ ∀ t, In t tasks ↔
           ∃ name o, endsWith name ".json" = true
                     ∧ truthy (getTask fs name) = true
                     ∧ to_object (getTask fs name) = Some o
                     ∧ listEntry (clock name) opts name o = Some t.
Proof.
  intros Hok. unfold listTasksSync.
  destruct (listLoop_returns clock opts fs
              (List.filter (λ f, endsWith f ".json") (readdir fs)) Hok)
    as (tasks & -> & Hin).
  exists (sort byCreatedAt tasks). split; [done |].
  intros t. rewrite sort_In, Hin. split.
  - intros (n & o & Hn & ?). apply filter_In in Hn as [_ Hn]. by exists n, o.
  - intros (n & o & Hn & Htr & Ho & He). exists n, o.
    split; [| done]. apply filter_In. split; [| done].
    apply readdir_In. unfold getTask, readJsonFile in Htr.
    destruct (fs !! n); [eauto | done].
Qed.

Lemma listEntry_filename now opts name o t :
  listEntry now opts name o = Some t → get t "filename" = Some (JStr name).
Proof.
  unfold listEntry.
  destruct (includeStale opts && _ && _); destruct (truthy (type opts) && _);
    try done; destruct (truthy (status opts) && _); try done;
    intros [= <-]; unfold get, set; simpl; by simplify_map_eq.
Qed.

(** The entry of a record whose lock is stale, when stale locks are
    included: flagged [is_stale], kept under the status filters null and
    'pending', dropped under 'in_progress'. *)
Lemma listEntry_stale now ty st key m T :
  m !! "status" = Some (JStr "in_progress") →
  m !! "claimed_at" = Some (JTime T) →
  T + STALE_LOCK_MS < now →
  truthy ty = false ∨ (∃ t, m !! "type" = Some t ∧ strict_eq t ty = true) →
  listEntry now {| type := ty; status := st; includeStale := true |} key
    {| elems := None; props := m |}
  = if truthy st && negb (strict_eq (JStr "pending") st) then None
    else Some {| elems := None;
                 props := <["is_stale" := JBool true]>
                            (<["filename" := JStr key]> m) |}.
Proof.
  intros Hs Hat Hlate Hty.
  assert (Hstale : isLockStale now
            {| elems := None; props := <["filename" := JStr key]> m |} = true).
  { rewrite (isLockStale_stamp _ _ T) by by simplify_map_eq.
    apply bool_decide_eq_true_2. lia. }
  unfold listEntry, statusOrPending, get, set.
  cbn [includeStale type status props elems andb].
  rewrite lookup_insert_ne, Hs by done.
  change (truthy (JStr "in_progress")) with true. cbv iota.
  change (strict_eq (JStr "in_progress") (JStr "in_progress")) with true.
  rewrite Hstale. cbn [andb props].
  rewrite !lookup_insert_ne by done.
  destruct Hty as [-> | (t & -> & ->)]; [done |].
  cbn [negb]. by rewrite andb_false_r.
Qed.

(** C3.  Staleness reclaim: take a record in progress whose [claimed_at] is
    the instant [T], in a [.json] file of a directory of objects, and let
    more than [STALE_LOCK_MS] pass.  A listing that includes stale locks
    then returns the record flagged [is_stale = true], and treats it as
    pending: it is listed when the status filter is absent or 'pending' and
    not listed when the filter is 'in_progress'.  The listing only reads, so
    the file still holds the fields [m] with their status 'in_progress', and
    a [claimTask] made then succeeds and stamps the new claim. *)
Theorem stale_lock_reclaim key (fs : gmap string file) m T clock ty
    now_check now_claim agent :
  objects_only fs →
  is_record fs key m →
  endsWith key ".json" = true →
  m !! "status" = Some (JStr "in_progress") →
  m !! "claimed_at" = Some (JTime T) →
  T + STALE_LOCK_MS < clock key →
  T + STALE_LOCK_MS < now_check →
  truthy ty = false ∨ (∃ t, m !! "type" = Some t ∧ strict_eq t ty = true) →
  (∀ st, st = JNull ∨ st = JStr "pending" →
     ∃ tasks,
       listTasksSync clock {| type := ty; status := st; includeStale := true |} fs
       = Returns tasks
       ∧ In {| elems := None;
               props := <["is_stale" := JBool true]>
                          (<["filename" := JStr key]> m) |} tasks)
  ∧ (∃ tasks,
       listTasksSync clock
         {| type := ty; status := JStr "in_progress"; includeStale := true |} fs
       = Returns tasks
       ∧ ∀ t, In t tasks → get t "filename" ≠ Some (JStr key))
  ∧ getTask fs key = JObj m
  ∧ ∃ m',
      claimTask now_check now_claim key agent fs
      = (<[key := Doc (JObj m')]> fs,
         Returns (Claimed {| elems := None; props := m' |} now_claim))
      ∧ m' !! "status" = Some (JStr "in_progress")
      ∧ m' !! "claimed_at" = Some (JTime now_claim)
      ∧ m' !! "claimed_by" = Some agent.
Proof.
  intros Hok Hrec Hjson Hs Hat Hlist Hclaim Hty.
  assert (Hget : getTask fs key = JObj m) by by apply readJsonFile_record.
  split; [| split; [| split]].
  - intros st Hst.
    destruct (listTasksSync_returns clock
                {| type := ty; status := st; includeStale := true |} fs Hok)
      as (tasks & Heq & Hin).
    exists tasks. split; [done |]. apply Hin.
    exists key, {| elems := None; props := m |}.
    rewrite Hget. repeat split; try done.
    rewrite (listEntry_stale _ _ _ _ _ T) by done.
    by destruct Hst as [-> | ->].
  - destruct (listTasksSync_returns clock
                {| type := ty; status := JStr "in_progress";
                   includeStale := true |} fs Hok)
      as (tasks & Heq & Hin).
    exists tasks. split; [done |]. intros t Ht Hname.
    apply Hin in Ht as (name & o & _ & _ & Ho & Hentry).
    pose proof (listEntry_filename _ _ _ _ _ Hentry) as Hname'.
    assert (name = key) as -> by congruence.
    rewrite Hget in Ho. injection Ho as <-.
    rewrite (listEntry_stale _ _ _ _ _ T) in Hentry by done.
    discriminate.
  - exact Hget.
  - eexists. split.
    + apply claimTask_free; [done |].
      rewrite (isLockStale_stamp _ _ T) by done.
      rewrite bool_decide_eq_true_2 by lia. apply andb_false_r.
    + by simplify_map_eq.
Qed.

Lemma stale_lock_reclaim_witness :
  let m : gmap string json :=
    {[ "type" := JStr "research"; "status" := JStr "in_progress";
       "claimed_by" := JStr "worker-A"; "claimed_at" := JTime 1000 ]} in
  let fs : gmap string file := {[ "research-acme-ai.json" := Doc (JObj m) ]} in
  let clock : string → Z := λ _, 1801001 in
  (∀ st, st = JNull ∨ st = JStr "pending" →
     ∃ tasks,
       listTasksSync clock
         {| type := JStr "research"; status := st; includeStale := true |} fs
       = Returns tasks
       ∧ In {| elems := None;
               props := <["is_stale" := JBool true]>
                          (<["filename" := JStr "research-acme-ai.json"]> m) |}
            tasks)
  ∧ (∃ tasks,
       listTasksSync clock
         {| type := JStr "research"; status := JStr "in_progress";
            includeStale := true |} fs
       = Returns tasks
       ∧ ∀ t, In t tasks → get t "filename" ≠ Some (JStr "research-acme-ai.json"))
  ∧ getTask fs "research-acme-ai.json" = JObj m
  ∧ ∃ m',
      claimTask 1801002 1801003 "research-acme-ai.json" (JStr "worker-B") fs
      = (<["research-acme-ai.json" := Doc (JObj m')]> fs,
         Returns (Claimed {| elems := None; props := m' |} 1801003))
      ∧ m' !! "status" = Some (JStr "in_progress")
      ∧ m' !! "claimed_at" = Some (JTime 1801003)
      ∧ m' !! "claimed_by" = Some (JStr "worker-B").
Proof.
  intros m fs clock.
  apply (stale_lock_reclaim "research-acme-ai.json" fs m 1000 clock
           (JStr "research") 1801002 1801003 (JStr "worker-B")).
  - intros name j Hl. apply lookup_singleton_Some in Hl as [_ [= <-]].
    simpl; eauto.
  - reflexivity.
  - reflexivity.
  - reflexivity.
  - reflexivity.
  - unfold STALE_LOCK_MS, clock. lia.
  - unfold STALE_LOCK_MS. lia.
  - right. exists (JStr "research"). split; reflexivity.
Defined.

End TaskLockSpec.

(** * Claims made by several processes *)

Module RaceSpec.
Import Json Db TaskLock Race QueueNotions TaskLockSpec.

(** The three steps of one process, run without interruption, are
    [claimTask]. *)
Lemma run_alone filename c fs :
  at_pc c = AtStart →
  let '(fs', procs) := run filename [0; 0; 0]%nat [c] fs in
  (fs', results procs)
  = (let '(fs1, r) :=
       claimTask (now_check c) (now_claim c) filename (agentId c) fs in
     (fs1, [Some r])).
Proof.
  intros Hpc. unfold run, step, claimTask, afterRead. simpl. rewrite Hpc.
  destruct (fileExists fs filename); simpl; [| done].
  destruct (truthy (readJsonFile fs filename JNull)); simpl; [| done].
  destruct (to_object (readJsonFile fs filename JNull)) as [o |]; simpl;
    [| done].
  by destruct (_ && _).
Qed.

(** Calls that follow one another: on a record that can be claimed the
    first call succeeds, and a second call made while that lock is not
    stale is refused with the first caller's id and claim stamp. *)
Lemma serial_claims key fs m c1 t1 a1 c2 t2 a2 :
  is_record fs key m →
  prop_is (m !! "status") "in_progress"
    && negb (isLockStale c1 {| elems := None; props := m |}) = false →
  c2 - t1 ≤ STALE_LOCK_MS →
  ∃ fs1 task,
    claimTask c1 t1 key a1 fs = (fs1, Returns (Claimed task t1))
    ∧ claimTask c2 t2 key a2 fs1
      = (fs1, Returns (ClaimRefused "Task already claimed"
                         (Some a1) (Some (JTime t1)))).
Proof.
  intros Hrec Hfree Hsoon.
  rewrite (claimTask_free c1 t1 key a1 fs m Hrec Hfree).
  set (m' := <["filename" := JStr key]> (<["claimed_by" := a1]>
               (<["claimed_at" := JTime t1]>
                  (<["status" := JStr "in_progress"]> m)))).
  eexists _, _. split; [reflexivity |].
  rewrite (claimTask_locked c2 t2 key a2 _ m').
  - subst m'. by simplify_map_eq.
  - apply lookup_insert_eq.
  - subst m'. by simplify_map_eq.
  - rewrite (isLockStale_stamp _ _ t1) by (subst m'; by simplify_map_eq).
    apply bool_decide_eq_false_2. lia.
Qed.

(** Any number of calls that follow one another: the first succeeds and
    every later one, made while the lock is not stale, is refused with the
    first caller's id and claim stamp; the directory stays as the first
    call left it. *)
Lemma serial_claims_many key fs m c1 t1 a1 (later : list (Z * Z * json)) :
  is_record fs key m →
  prop_is (m !! "status") "in_progress"
    && negb (isLockStale c1 {| elems := None; props := m |}) = false →
  Forall (λ c, c.1.1 - t1 ≤ STALE_LOCK_MS) later →
  ∃ fs1 task,
    runCalls key ((c1, t1, a1) :: later) fs
    = (fs1,
       Returns (Claimed task t1)
       :: map (λ _, Returns (ClaimRefused "Task already claimed"
                               (Some a1) (Some (JTime t1)))) later).
Proof.
  intros Hrec Hfree Hsoon.
  pose proof (claimTask_free c1 t1 key a1 fs m Hrec Hfree) as Hfirst.
  cbv zeta in Hfirst. eexists _, _. cbn [runCalls]. rewrite Hfirst.
  match type of Hfirst with _ = (?f, _) => set (fs1 := f) in * end.
  assert (∀ c2 t2 a2, c2 - t1 ≤ STALE_LOCK_MS →
            claimTask c2 t2 key a2 fs1
            = (fs1, Returns (ClaimRefused "Task already claimed"
                               (Some a1) (Some (JTime t1))))) as Hrefused.
  { intros c2 t2 a2 Hc.
    destruct (serial_claims key fs m c1 t1 a1 c2 t2 a2 Hrec Hfree Hc) as
      (fs1' & task' & Hfirst' & Hsecond).
    rewrite Hfirst in Hfirst'. by injection Hfirst' as <- <-. }
  clear Hfirst.
  assert (runCalls key later fs1
          = (fs1, map (λ _, Returns (ClaimRefused "Task already claimed"
                                       (Some a1) (Some (JTime t1)))) later))
    as ->; [| done].
  induction Hsoon as [| [[c2 t2] a2] rest Hc _ IH]; [done |].
  cbn [runCalls map]. rewrite (Hrefused c2 t2 a2 Hc). by rewrite IH.
Qed.

(** Two processes that both read the record before either writes it: both
    calls return [success = true], and the file names the one that wrote
    last. *)
Lemma both_read_then_both_write key fs m (pa pb : call) :
  is_record fs key m →
  at_pc pa = AtStart → at_pc pb = AtStart →
  prop_is (m !! "status") "in_progress"
    && negb (isLockStale (now_check pa) {| elems := None; props := m |}) = false →
  prop_is (m !! "status") "in_progress"
    && negb (isLockStale (now_check pb) {| elems := None; props := m |}) = false →
  ∃ fs' ta tb,
    run key [0; 0; 1; 1; 0; 1]%nat [pa; pb] fs
    = (fs', [with_pc pa (Finished (Returns (Claimed ta (now_claim pa))));
             with_pc pb (Finished (Returns (Claimed tb (now_claim pb))))])
    ∧ get ta "claimed_by" = Some (agentId pa)
    ∧ get tb "claimed_by" = Some (agentId pb)
    ∧ ∃ m', is_record fs' key m' ∧ m' !! "claimed_by" = Some (agentId pb).
Proof.
  intros Hrec Ha Hb Hfa Hfb.
  destruct pa as [ca ta aa pca], pb as [cb tb ab pcb]. simpl in *. subst.
  pose proof (fileExists_true _ _ _ Hrec) as Hex.
  pose proof (readJsonFile_record _ _ _ JNull Hrec) as Hread.
  unfold run, step, with_pc, afterRead, get. cbn -[String.eqb].
  rewrite Hex. cbn -[String.eqb]. rewrite Hex. cbn -[String.eqb].
  rewrite Hread. cbn -[String.eqb]. rewrite Hfa, Hfb.
  eexists _, _, _. split; [reflexivity |]. unfold get. simpl.
  split; [by simplify_map_eq |]. split; [by simplify_map_eq |].
  eexists. split; [apply lookup_insert_eq |]. by simplify_map_eq.
Qed.

(** C1.  Two server processes claim the pending task
    [research-acme-ai.json], worker-A at instant 2000 and worker-B at 2001;
    B reads the file after A has read it and before A writes it.  Both
    calls return [success = true] with their own claim stamp, and the file
    ends up naming worker-B: the claims are not serialised. *)
Theorem racing_claims_both_succeed :
  let fs0 :=
    (createTask 1000 {[ "type" := JStr "research"; "company" := JStr "Acme AI" ]}
       "research-acme-ai.json" ∅).1 in
  let a := {| now_check := 2000; now_claim := 2000;
              agentId := JStr "worker-A"; at_pc := AtStart |} in
  let b := {| now_check := 2001; now_claim := 2001;
              agentId := JStr "worker-B"; at_pc := AtStart |} in
  let '(fs', procs) :=
    run "research-acme-ai.json" [0; 0; 1; 1; 0; 1]%nat [a; b] fs0 in
  map (λ r, match r with
            | Some (Returns (Claimed t stamp)) =>
                Some (get t "claimed_by", stamp)
            | _ => None
            end) (results procs)
  = [ Some (Some (JStr "worker-A"), 2000); Some (Some (JStr "worker-B"), 2001) ]
  ∧ ∃ m, is_record fs' "research-acme-ai.json" m
         ∧ m !! "claimed_by" = Some (JStr "worker-B")
         ∧ m !! "claimed_at" = Some (JTime 2001).
Proof.
  vm_compute. split; [reflexivity |].
  eexists. split; [reflexivity |]. split; reflexivity.
Qed.

End RaceSpec.

(** * Properties of the event bus *)

Module EventEmitterSpec.
Import Json EventEmitter BusNotions JsonSpec.

Lemma sliceLast_length {A} n (l : list A) : (length (sliceLast n l) ≤ n)%nat.
Proof. unfold sliceLast. rewrite length_drop. lia. Qed.

Lemma sliceLast_In {A} n (l : list A) x : In x (sliceLast n l) → In x l.
Proof.
  unfold sliceLast. rewrite <- !list_elem_of_In. apply subseteq_drop.
Qed.

Lemma sliceLast_keeps_last {A} n (l : list A) x :
  (0 < n)%nat → In x (sliceLast n (l ++ [x])).
Proof.
  intros Hn. unfold sliceLast. rewrite length_app; simpl.
  rewrite drop_app_le by lia. apply in_or_app. right. by left.
Qed.

Lemma pruneEvents_length now store :
  (length (pruneEvents now store) ≤ MAX_EVENTS)%nat.
Proof.
  unfold pruneEvents.
  destruct (MAX_EVENTS <? length _)%nat eqn:Hlen.
  - apply sliceLast_length.
  - by apply Nat.ltb_ge in Hlen.
Qed.

Lemma pruneEvents_In now store e :
  In e (pruneEvents now store) →
  In e store ∧ now - EVENT_RETENTION_MS < timestamp e.
Proof.
  unfold pruneEvents. intros Hin.
  assert (In e (List.filter (λ e, now - EVENT_RETENTION_MS <? timestamp e) store))
    as Hf.
  { destruct (MAX_EVENTS <? length _)%nat; [by apply sliceLast_In in Hin | done]. }
  apply filter_In in Hf as [? Ht]. split; [done |]. by apply Z.ltb_lt.
Qed.

Lemma pruneEvents_keeps_new now store ev :
  now - EVENT_RETENTION_MS < timestamp ev →
  In ev (pruneEvents now (store ++ [ev])).
Proof.
  intros Hyoung. unfold pruneEvents. rewrite List.filter_app. simpl.
  rewrite (proj2 (Z.ltb_lt _ _) Hyoung).
  destruct (MAX_EVENTS <? length _)%nat.
  - apply sliceLast_keeps_last. unfold MAX_EVENTS. lia.
  - apply in_or_app. right. by left.
Qed.

(** [notifyPollers] hands every poll it resolves the emitted event alone,
    and does not touch the log. *)
Lemma notifyLoop_deliveries ev polls subs :
  ∀ p r, In (p, r) (notifyLoop ev polls subs).2 → events r = [ev].
Proof.
  revert subs. induction polls as [| [pollId sid] rest IH]; intros subs p r;
    simpl; [done |].
  destruct (subs !! sid) as [s |].
  - destruct (includes (event_types s) (type ev)).
    + destruct (notifyLoop ev rest (resolvePoll sid [ev] subs))
        as [[w subs'] out] eqn:Hloop. simpl.
      intros [[= <- <-] | Hin]; [done |].
      apply (IH (resolvePoll sid [ev] subs) p r). by rewrite Hloop.
    + destruct (notifyLoop ev rest subs) as [[w subs'] out] eqn:Hloop. simpl.
      intros Hin. apply (IH subs p r). by rewrite Hloop.
  - destruct (notifyLoop ev rest subs) as [[w subs'] out] eqn:Hloop. simpl.
    intros Hin. apply (IH subs p r). by rewrite Hloop.
Qed.

Lemma emit_eventStore eid t_ev t_pr ty pl st :
  eventStore (emit eid t_ev t_pr ty pl st).1.1
  = pruneEvents t_pr
      (eventStore st
       ++ [{| id := eid; type := ty; timestamp := t_ev; payload := pl |}]).
Proof.
  unfold emit, notifyPollers. simpl.
  by destruct (notifyLoop _ _ _) as [[w subs] out].
Qed.

Lemma emit_event eid t_ev t_pr ty pl st :
  (emit eid t_ev t_pr ty pl st).1.2
  = {| id := eid; type := ty; timestamp := t_ev; payload := pl |}.
Proof.
  unfold emit, notifyPollers. simpl.
  by destruct (notifyLoop _ _ _) as [[w subs] out].
Qed.

Lemma emit_deliveries eid t_ev t_pr ty pl st p r :
  In (p, r) (emit eid t_ev t_pr ty pl st).2 →
  events r = [(emit eid t_ev t_pr ty pl st).1.2].
Proof.
  rewrite emit_event. unfold emit, notifyPollers. simpl.
  destruct (notifyLoop _ _ _) as [[w subs] out] eqn:Hloop. simpl.
  intros Hin. eapply notifyLoop_deliveries. by rewrite Hloop.
Qed.

Lemma sliceTo_In {A} limit (l : list A) x : In x (sliceTo limit l) → In x l.
Proof.
  unfold sliceTo. rewrite <- !list_elem_of_In.
  destruct (0 <=? limit); apply subseteq_take.
Qed.

Lemma listEvents_In since ty limit st e :
  In e (listEvents since ty limit st) → In e (eventStore st).
Proof.
  unfold listEvents. intros Hin. apply sliceTo_In, sort_In in Hin.
  assert (∀ l, In e (match ty with
                     | Some t =>
                         if negb (String.eqb t "")
                         then List.filter (λ e, String.eqb (type e) t) l
                         else l
                     | None => l
                     end) → In e l) as Hty.
  { intros l. destruct ty as [t |]; [| done].
    destruct (negb _); [| done]. intros H. by apply filter_In in H as [? _]. }
  apply Hty in Hin. destruct (truthy since); [| done].
  destruct (getTime since); [| done]. by apply filter_In in Hin as [? _].
Qed.

Lemma pendingEvents_In s store e :
  In e (pendingEvents s store) → In e store.
Proof. unfold pendingEvents. intros H. by apply filter_In in H as [? _]. Qed.

Lemma poll_events_In pollId sid st st' r e :
  poll pollId sid st = (st', Resolved r) → In e (events r) →
  In e (eventStore st).
Proof.
  unfold poll. destruct (subscriptions st !! sid) as [s |].
  - destruct (last (pendingEvents s (eventStore st))); [| done].
    intros [= <- <-]. simpl. apply pendingEvents_In.
  - by intros [= <- <-].
Qed.

Lemma sliceTo_length {A} limit (l : list A) :
  (length (sliceTo limit l) ≤ length l)%nat.
Proof. unfold sliceTo. destruct (0 <=? limit); rewrite length_take; lia. Qed.

Lemma listEvents_length since ty limit st :
  (length (listEvents since ty limit st) ≤ length (eventStore st))%nat.
Proof.
  unfold listEvents. etrans; [apply sliceTo_length |]. rewrite sort_length.
  assert (∀ l, (length (match ty with
                        | Some t =>
                            if negb (String.eqb t "")
                            then List.filter (λ e, String.eqb (type e) t) l
                            else l
                        | None => l
                        end) ≤ length l)%nat) as Hty.
  { intros l. destruct ty as [t |]; [| done].
    destruct (negb _); [| done]. apply filter_length_le. }
  etrans; [apply Hty |]. destruct (truthy since); [| done].
  destruct (getTime since); simpl; [apply filter_length_le | lia].
Qed.

Lemma poll_events_length pollId sid st st' r :
  poll pollId sid st = (st', Resolved r) →
  (length (events r) ≤ length (eventStore st))%nat.
Proof.
  unfold poll. destruct (subscriptions st !! sid) as [s |].
  - destruct (last (pendingEvents s (eventStore st))); [| done].
    intros [= <- <-]. simpl. apply filter_length_le.
  - intros [= <- <-]. simpl. lia.
Qed.

(** Whatever is called, in whatever order, the log never holds more than
    [MAX_EVENTS] events. *)
Lemma log_bounded_always st :
  reachable st → (length (eventStore st) ≤ MAX_EVENTS)%nat.
Proof.
  induction 1 as [| st st' _ IH Hstep].
  - simpl. unfold MAX_EVENTS. lia.
  - destruct Hstep.
    + rewrite emit_eventStore. apply pruneEvents_length.
    + unfold webhookDelivered.
      destruct (subscriptions st !! sid) as [s |]; [| done].
      destruct (webhook_url s); [| done]. by destruct (_ && _).
    + unfold subscribe. by destruct (List.filter _ _).
    + unfold unsubscribe. by destruct (subscriptions st !! sid).
    + unfold poll. destruct (subscriptions st !! sid) as [s |]; [| done].
      by destruct (last _).
    + unfold pollTimeout. by destruct (mapHas _ _).
    + simpl. unfold MAX_EVENTS. lia.
Qed.

(** C8.  The log after an [emit] whose pruning read the clock at [t_pr]:
    it has at most [MAX_EVENTS] events, each of them from the log before
    or the new event, and each stamped later than [t_pr] minus
    [EVENT_RETENTION_MS].  What [listEvents] and [poll] return in that state
    is taken from this log, so it obeys both bounds and a pruned event is
    not returned.  The long-polls woken by the [emit] get the new event
    alone, which is in the log unless it is itself already older than the
    window. *)
Theorem emit_keeps_log_bounded eid t_ev t_pr ty pl st :
  let st' := (emit eid t_ev t_pr ty pl st).1.1 in
  let ev := (emit eid t_ev t_pr ty pl st).1.2 in
  let woken := (emit eid t_ev t_pr ty pl st).2 in
  (length (eventStore st') ≤ MAX_EVENTS)%nat
  ∧ (∀ e, In e (eventStore st') →
          In e (eventStore st ++ [ev])
          ∧ t_pr - EVENT_RETENTION_MS < timestamp e)
  ∧ (∀ since ty' limit,
       (length (listEvents since ty' limit st') ≤ MAX_EVENTS)%nat
       ∧ ∀ e, In e (listEvents since ty' limit st') →
              In e (eventStore st')
              ∧ t_pr - EVENT_RETENTION_MS < timestamp e)
  ∧ (∀ pollId sid st'' r,
       poll pollId sid st' = (st'', Resolved r) →
       (length (events r) ≤ MAX_EVENTS)%nat
       ∧ ∀ e, In e (events r) →
              In e (eventStore st')
              ∧ t_pr - EVENT_RETENTION_MS < timestamp e)
  ∧ (∀ p r, In (p, r) woken → events r = [ev])
  ∧ (t_pr - EVENT_RETENTION_MS < t_ev → In ev (eventStore st')).
Proof.
  intros st' ev woken.
  assert (Hstore : eventStore st' = pruneEvents t_pr (eventStore st ++ [ev])).
  { subst st' ev. by rewrite emit_eventStore, emit_event. }
  assert (Hlen : (length (eventStore st') ≤ MAX_EVENTS)%nat).
  { rewrite Hstore. apply pruneEvents_length. }
  assert (Hin : ∀ e, In e (eventStore st') →
                     In e (eventStore st ++ [ev])
                     ∧ t_pr - EVENT_RETENTION_MS < timestamp e).
  { intros e. rewrite Hstore. apply pruneEvents_In. }
  split; [done |]. split; [done |].
  split; [| split; [| split]].
  - intros since ty' limit. split.
    + etrans; [apply listEvents_length | done].
    + intros e He. apply listEvents_In in He. split; [done |]. by apply Hin.
  - intros pollId sid st'' r Hpoll. split.
    + etrans; [by eapply poll_events_length | done].
    + intros e He. eapply poll_events_In in He; [| done].
      split; [done |]. by apply Hin.
  - intros p r. subst woken ev. apply emit_deliveries.
  - intros Hyoung. rewrite Hstore. apply pruneEvents_keeps_new.
    subst ev. by rewrite emit_event.
Qed.

(** An event stamped 1000 is dropped by an [emit] made more than an hour
    later, and [listEvents] then returns the new event only. *)
Lemma emit_keeps_log_bounded_witness :
  let old := {| id := "e0"; type := "task.created"; timestamp := 1000;
                payload := JNull |} in
  let st := {| eventStore := [old]; subscriptions := ∅; pendingPolls := [] |} in
  let st' := (emit "e1" 3601000 3601000 "task.claimed" JNull st).1.1 in
  listEvents JNull None 100 st'
  = [ {| id := "e1"; type := "task.claimed"; timestamp := 3601000;
         payload := JNull |} ]
  ∧ ∀ e, In e (listEvents JNull None 100 st') →
         In e (eventStore st') ∧ 3601000 - EVENT_RETENTION_MS < timestamp e.
Proof.
  intros old st st'. split; [reflexivity |].
  apply (emit_keeps_log_bounded "e1" 3601000 3601000 "task.claimed" JNull st).
Defined.

(** *** The cursor *)

Lemma find_absent (lid : string) store :
  (∀ e, In e store → id e ≠ lid) →
  List.find (λ e, String.eqb (id e) lid) store = None.
Proof.
  intros Habs. destruct (List.find _ store) as [e |] eqn:Hf; [| done].
  apply find_some in Hf as [Hin Heq]. apply String.eqb_eq in Heq.
  by destruct (Habs e Hin).
Qed.

Lemma lastEventTime_absent s store lid :
  last_event_id s = Some lid →
  (∀ e, In e store → id e ≠ lid) →
  lastEventTime s store = None.
Proof.
  intros Hcur Habs. unfold lastEventTime. rewrite Hcur.
  destruct (negb _); [| done]. by rewrite find_absent.
Qed.

(** C9.  A subscription whose cursor names an event that the log no longer
    holds is polled as if it had no cursor: the events to deliver are all
    the events of the log with a subscribed type.  Every such event is
    returned, whether or not an earlier poll had delivered it already; the
    poll resolves at once with them and moves the cursor to the last one,
    and waits only when the log has no event of a subscribed type. *)
Theorem poll_with_lost_cursor pollId sid st s lid :
  subscriptions st !! sid = Some s →
  last_event_id s = Some lid →
  (∀ e, In e (eventStore st) → id e ≠ lid) →
  let matching :=
    List.filter (λ e, includes (event_types s) (type e)) (eventStore st) in
  pendingEvents s (eventStore st) = matching
  ∧ (∀ e, In e (eventStore st) → includes (event_types s) (type e) = true →
          In e matching)
  ∧ match last matching with
    | Some e =>
        poll pollId sid st
        = (advanced sid s e st,
           Resolved {| poll_error := None; events := matching |})
    | None =>
        poll pollId sid st
        = ({| eventStore := eventStore st;
              subscriptions := subscriptions st;
              pendingPolls := mapSet pollId sid (pendingPolls st) |},
           Suspended pollId)
    end.
Proof.
  intros Hsub Hcur Habs matching.
  assert (Hpend : pendingEvents s (eventStore st) = matching).
  { unfold pendingEvents. rewrite (lastEventTime_absent s _ lid) by done.
    subst matching. apply filter_ext. intros e. apply andb_true_r. }
  split; [done |]. split.
  - intros e Hin Hty. subst matching. apply filter_In. by split.
  - unfold poll. rewrite Hsub, Hpend. by destruct (last matching).
Qed.

(** The clock steps back between two emits: the older-stamped event [b]
    becomes the cursor, an emit an hour later prunes it, and the next poll
    hands out [a] a second time. *)
Lemma poll_with_lost_cursor_witness :
  let a := {| id := "a"; type := "task.created"; timestamp := 10;
              payload := JNull |} in
  let c := {| id := "c"; type := "task.created"; timestamp := 3600007;
              payload := JNull |} in
  let s := {| sub_id := "S1"; event_types := ["task.created"];
              webhook_url := None; callback_id := None; created_at := 0;
              last_event_id := Some "b" |} in
  let st := {| eventStore := [a; c]; subscriptions := {[ "S1" := s ]};
               pendingPolls := [] |} in
  (* how the bus got there *)
  (let st1 := (subscribe "S1" 0 ["task.created"] None None
                 {| eventStore := []; subscriptions := ∅;
                    pendingPolls := [] |}).1 in
   let st2 := (emit "a" 10 10 "task.created" JNull st1).1.1 in
   let st3 := (emit "b" 5 10 "task.created" JNull st2).1.1 in
   let '(st4, first) := poll "p1" "S1" st3 in
   first = Resolved {| poll_error := None;
                       events := [a; {| id := "b"; type := "task.created";
                                        timestamp := 5; payload := JNull |}] |}
   ∧ (emit "c" 3600007 3600007 "task.created" JNull st4).1.1 = st)
  (* and what the next poll returns *)
  ∧ poll "p2" "S1" st
    = (advanced "S1" s c st,
       Resolved {| poll_error := None; events := [a; c] |}).
Proof.
  intros a c s st. split.
  - vm_compute. split; reflexivity.
  - pose proof (poll_with_lost_cursor "p2" "S1" st s "b") as H.
    destruct H as (_ & _ & Hpoll).
    + reflexivity.
    + reflexivity.
    + intros e [<- | [<- | []]]; discriminate.
    + exact Hpoll.
Defined.

(** *** Delivery to a subscription that is not waiting *)

Lemma find_app_l {A} (f : A → bool) l l' x :
  List.find f l = Some x → List.find f (l ++ l') = Some x.
Proof.
  induction l as [| y l IH]; simpl; [done |]. by destruct (f y).
Qed.

Lemma find_app_r {A} (f : A → bool) l l' :
  List.find f l = None → List.find f (l ++ l') = List.find f l'.
Proof.
  induction l as [| y l IH]; simpl; [done |]. by destruct (f y).
Qed.

Lemma filter_none {A} (f : A → bool) l :
  (∀ x, In x l → f x = false) → List.filter f l = [].
Proof.
  induction l as [| y l IH]; simpl; [done |]. intros Hall.
  rewrite (Hall y) by auto. apply IH. auto.
Qed.

(** Polls of other subscriptions may be resolved by an [emit]; a
    subscription with no pending poll keeps its cursor and stays without
    one. *)
Lemma notifyLoop_not_waiting ev sid polls subs :
  (∀ p, ¬ In (p, sid) polls) →
  (notifyLoop ev polls subs).1.2 !! sid = subs !! sid
  ∧ ∀ p, ¬ In (p, sid) (notifyLoop ev polls subs).1.1.
Proof.
  revert subs. induction polls as [| [pollId sid'] rest IH]; intros subs Hno;
    simpl; [done |].
  assert (sid' ≠ sid) as Hne by (intros ->; apply (Hno pollId); by left).
  assert (∀ p, ¬ In (p, sid) rest) as Hrest
    by (intros p Hp; apply (Hno p); by right).
  destruct (subs !! sid') as [s' |] eqn:Hs'.
  - destruct (includes (event_types s') (type ev)).
    + destruct (IH (resolvePoll sid' [ev] subs) Hrest) as [Hsubs Hwait].
      destruct (notifyLoop ev rest (resolvePoll sid' [ev] subs))
        as [[w subs'] out]. simpl in *.
      split; [| done]. rewrite Hsubs. unfold resolvePoll. simpl.
      by rewrite lookup_alter_ne.
    + destruct (IH subs Hrest) as [Hsubs Hwait].
      destruct (notifyLoop ev rest subs) as [[w subs'] out]. simpl in *.
      split; [done |]. intros p [[= _ ?] | Hp]; [done | by apply (Hwait p)].
  - destruct (IH subs Hrest) as [Hsubs Hwait].
    destruct (notifyLoop ev rest subs) as [[w subs'] out]. simpl in *.
    split; [done |]. intros p [[= _ ?] | Hp]; [done | by apply (Hwait p)].
Qed.

Lemma emit_not_waiting eid t_ev t_pr ty pl st sid :
  (∀ p, ¬ In (p, sid) (pendingPolls st)) →
  subscriptions (emit eid t_ev t_pr ty pl st).1.1 !! sid
  = subscriptions st !! sid
  ∧ ∀ p, ¬ In (p, sid) (pendingPolls (emit eid t_ev t_pr ty pl st).1.1).
Proof.
  intros Hno. unfold emit, notifyPollers. simpl.
  pose proof (notifyLoop_not_waiting
                {| id := eid; type := ty; timestamp := t_ev; payload := pl |}
                sid (pendingPolls st) (subscriptions st) Hno) as H.
  by destruct (notifyLoop _ _ _) as [[w subs] out].
Qed.

Lemma mapHas_mapSet k v m : mapHas k (mapSet k v m) = true.
Proof.
  induction m as [| [k' v'] m IH]; simpl.
  - by rewrite String.eqb_refl.
  - destruct (String.eqb k k') eqn:Heq; simpl.
    + by rewrite String.eqb_refl.
    + by rewrite Heq.
Qed.

(** What to deliver from a log [store ++ [e1; e2]] when the cursor event
    has the stamp [t0], nothing of [store] is due, [e1] is due and [e2] is
    not. *)
Lemma pendingEvents_two s store t0 e1 e2 :
  lastEventTime s (store ++ [e1; e2]) = Some t0 →
  (∀ e, In e store → includes (event_types s) (type e) = true →
        timestamp e ≤ t0) →
  pendingEvents s (store ++ [e1; e2])
  = List.filter (λ e, includes (event_types s) (type e)
                      && negb (timestamp e <=? t0)) [e1; e2].
Proof.
  intros Ht0 Hold. unfold pendingEvents. rewrite Ht0, List.filter_app.
  rewrite filter_none; [done |]. intros e Hin.
  destruct (includes (event_types s) (type e)) eqn:Hty; [| done].
  simpl. apply negb_false_iff, Z.leb_le. by apply Hold.
Qed.

(** When the stamps of the events differ, the poll behaves as the
    specification describes.  The subscription [s] has its cursor on [e0],
    nothing later of its types is in the log, and it is not waiting in a
    poll.  [E1], of a subscribed type, is emitted with a fresh id and a
    stamp later than that of [e0], then [E2] of another type; both emits
    prune nothing.  Then the poll returns [E1] alone and moves the cursor to
    it; a second poll finds nothing, is left pending, and its timer
    resolves it with no events. *)
Lemma poll_delivers_once st sid s e0 eid1 t1 p1 ty1 pl1 eid2 t2 p2 ty2 pl2
    pollA pollB :
  let E1 := {| id := eid1; type := ty1; timestamp := t1; payload := pl1 |} in
  let E2 := {| id := eid2; type := ty2; timestamp := t2; payload := pl2 |} in
  subscriptions st !! sid = Some s →
  last_event_id s = Some (id e0) →
  id e0 ≠ "" →
  List.find (λ e, String.eqb (id e) (id e0)) (eventStore st) = Some e0 →
  (∀ e, In e (eventStore st) → includes (event_types s) (type e) = true →
        timestamp e ≤ timestamp e0) →
  (∀ p, ¬ In (p, sid) (pendingPolls st)) →
  includes (event_types s) ty1 = true →
  includes (event_types s) ty2 = false →
  timestamp e0 < t1 →
  eid1 ≠ "" →
  (∀ e, In e (eventStore st) → id e ≠ eid1) →
  pruneEvents p1 (eventStore st ++ [E1]) = (eventStore st ++ [E1])%list →
  pruneEvents p2 (eventStore st ++ [E1; E2])
  = (eventStore st ++ [E1; E2])%list →
  let st1 := (emit eid1 t1 p1 ty1 pl1 st).1.1 in
  let st2 := (emit eid2 t2 p2 ty2 pl2 st1).1.1 in
  poll pollA sid st2
  = (advanced sid s E1 st2,
     Resolved {| poll_error := None; events := [E1] |})
  ∧ poll pollB sid (advanced sid s E1 st2)
    = ({| eventStore := eventStore st2;
          subscriptions := subscriptions (advanced sid s E1 st2);
          pendingPolls := mapSet pollB sid (pendingPolls st2) |},
       Suspended pollB)
  ∧ (pollTimeout pollB (poll pollB sid (advanced sid s E1 st2)).1).2
    = Some {| poll_error := None; events := [] |}.
Proof.
  intros E1 E2 Hsub Hcur Hid0 Hfind Hold Hwait Hty1 Hty2 Hlater Hid1 Hfresh
    Hkeep1 Hkeep2 st1 st2.
  (* the state after the two emits *)
  assert (Hstore1 : eventStore st1 = (eventStore st ++ [E1])%list).
  { subst st1. by rewrite emit_eventStore. }
  destruct (emit_not_waiting eid1 t1 p1 ty1 pl1 st sid Hwait) as [Hsub1 Hwait1].
  fold st1 in Hsub1, Hwait1.
  assert (Hstore2 : eventStore st2 = (eventStore st ++ [E1; E2])%list).
  { subst st2. rewrite emit_eventStore, Hstore1, <- app_assoc. exact Hkeep2. }
  destruct (emit_not_waiting eid2 t2 p2 ty2 pl2 st1 sid Hwait1) as [Hsub2 _].
  fold st2 in Hsub2. rewrite Hsub1, Hsub in Hsub2.
  (* the first poll *)
  assert (Hpend : pendingEvents s (eventStore st2) = [E1]).
  { rewrite Hstore2, (pendingEvents_two s _ (timestamp e0)); [| | done].
    - cbn [List.filter type timestamp E1 E2]. rewrite Hty1, Hty2.
      cbn [andb]. by rewrite (proj2 (Z.leb_gt _ _) Hlater).
    - unfold lastEventTime. rewrite Hcur.
      rewrite (proj2 (String.eqb_neq _ _) Hid0). cbn [negb].
      by rewrite (find_app_l _ _ _ _ Hfind). }
  assert (Hfirst : poll pollA sid st2
                   = (advanced sid s E1 st2,
                      Resolved {| poll_error := None; events := [E1] |})).
  { unfold poll. by rewrite Hsub2, Hpend. }
  (* the second poll *)
  set (s' := set_last_event_id (id E1) s).
  assert (Hpend' : pendingEvents s' (eventStore st2) = []).
  { rewrite Hstore2, (pendingEvents_two s' _ t1).
    - cbn [List.filter type timestamp E1 E2 s' set_last_event_id event_types].
      rewrite Hty1, Hty2. cbn [andb]. by rewrite Z.leb_refl.
    - unfold lastEventTime. cbn [s' set_last_event_id last_event_id id E1].
      rewrite (proj2 (String.eqb_neq _ _) Hid1). cbn [negb].
      rewrite find_app_r by by apply find_absent.
      cbn [List.find id E1]. by rewrite String.eqb_refl.
    - intros e Hin Hty. specialize (Hold e Hin Hty). lia. }
  assert (Hsecond : poll pollB sid (advanced sid s E1 st2)
                    = ({| eventStore := eventStore st2;
                          subscriptions := subscriptions (advanced sid s E1 st2);
                          pendingPolls := mapSet pollB sid (pendingPolls st2) |},
                       Suspended pollB)).
  { unfold poll, advanced. cbn [subscriptions eventStore pendingPolls].
    rewrite lookup_insert_eq. fold s'. by rewrite Hpend'. }
  split; [done |]. split; [done |].
  rewrite Hsecond. unfold pollTimeout. cbn [fst pendingPolls].
  by rewrite mapHas_mapSet.
Qed.

(** The lemma at work: [e1] is stamped one millisecond after [e0]. *)
Example poll_delivers_once_example :
  let e0 := {| id := "e0"; type := "task.created"; timestamp := 1000;
               payload := JNull |} in
  let e1 := {| id := "e1"; type := "task.created"; timestamp := 1001;
               payload := JNull |} in
  let s := {| sub_id := "S1"; event_types := ["task.created"];
              webhook_url := None; callback_id := None; created_at := 0;
              last_event_id := Some "e0" |} in
  let st := {| eventStore := [e0]; subscriptions := {[ "S1" := s ]};
               pendingPolls := [] |} in
  let st1 := (emit "e1" 1001 1001 "task.created" JNull st).1.1 in
  let st2 := (emit "e2" 1001 1001 "job.created" JNull st1).1.1 in
  poll "p2" "S1" st2
  = (advanced "S1" s e1 st2,
     Resolved {| poll_error := None; events := [e1] |})
  ∧ (poll "p3" "S1" (advanced "S1" s e1 st2)).2 = Suspended "p3"
  ∧ (pollTimeout "p3" (poll "p3" "S1" (advanced "S1" s e1 st2)).1).2
    = Some {| poll_error := None; events := [] |}.
Proof.
  intros e0 e1 s st st1 st2.
  destruct (poll_delivers_once st "S1" s e0 "e1" 1001 1001 "task.created"
              JNull "e2" 1001 1001 "job.created" JNull "p2" "p3")
    as (H1 & H2 & H3); try reflexivity.
  - done.
  - intros e [<- | []] _. reflexivity.
  - intros p [].
  - done.
  - intros e [<- | []]. discriminate.
  - split; [exact H1 |]. split; [| exact H3]. exact (f_equal snd H2).
Qed.

(** C2.  A subscription to 'task.created' polls and is handed [e0], so its
    cursor stands at [e0].  Within the same millisecond 'task.created' is
    emitted again ([e1]) and then 'job.created' ([e2]).  The events to
    deliver are those stamped later than the cursor event, and [e1] carries
    the stamp of [e0]: the next poll returns nothing and is left pending,
    and its timer resolves it with no events, although [e1] is in the log
    and was never delivered. *)
Theorem same_millisecond_event_is_skipped :
  let e0 := {| id := "e0"; type := "task.created"; timestamp := 1000;
               payload := JNull |} in
  let e1 := {| id := "e1"; type := "task.created"; timestamp := 1000;
               payload := JNull |} in
  let st0 := {| eventStore := []; subscriptions := ∅; pendingPolls := [] |} in
  let st1 := (subscribe "S1" 0 ["task.created"] None None st0).1 in
  let st2 := (emit "e0" 1000 1000 "task.created" JNull st1).1.1 in
  let st3 := (poll "p1" "S1" st2).1 in
  let st4 := (emit "e1" 1000 1000 "task.created" JNull st3).1.1 in
  let st5 := (emit "e2" 1000 1000 "job.created" JNull st4).1.1 in
  (poll "p1" "S1" st2).2 = Resolved {| poll_error := None; events := [e0] |}
  ∧ (last_event_id <$> getSubscription "S1" st5) = Some (Some "e0")
  ∧ In e1 (eventStore st5)
  ∧ (poll "p2" "S1" st5).2 = Suspended "p2"
  ∧ (pollTimeout "p2" (poll "p2" "S1" st5).1).2
    = Some {| poll_error := None; events := [] |}.
Proof.
  vm_compute. split; [reflexivity |]. split; [reflexivity |].
  split; [right; left; reflexivity |]. split; reflexivity.
Qed.

End EventEmitterSpec.

(** * Properties of slugify *)

Module DbSlugSpec.
Import Stdlib.Strings.Ascii DbSlug SlugNotions.

Lemma dash_not_slugChar : isSlugChar "-" = false.
Proof. reflexivity. Qed.

Lemma slugChar_not_upper c : isSlugChar c = true → isUpper c = false.
Proof. destruct c as [[] [] [] [] [] [] [] []]; vm_compute; congruence. Qed.

Lemma slugChar_lower c : isSlugChar c = true → lowerChar c = c.
Proof. intros H. unfold lowerChar. by rewrite slugChar_not_upper. Qed.

Lemma clean_weaken b s : clean b s → clean false s.
Proof.
  destruct s as [| c s]; simpl; [done |].
  destruct (isSlugChar c); [done |]. intros (? & ? & ?). by subst.
Qed.

Lemma dashRuns_clean b s : clean b (dashRuns b s).
Proof.
  revert b. induction s as [| c s IH]; intros b; simpl; [done |].
  destruct (isSlugChar c) eqn:Hc; simpl.
  - rewrite Hc. apply IH.
  - destruct b; simpl.
    + apply IH.
    + auto.
Qed.

Lemma dropFirstDash_clean s : clean false s → clean true (dropFirstDash s).
Proof.
  destruct s as [| c s]; simpl; [done |].
  destruct (isSlugChar c) eqn:Hc.
  - intros Hs. assert (c ≠ "-"%char) by (intros ->; discriminate Hc).
    destruct c as [[] [] [] [] [] [] [] []]; simpl; try rewrite Hc; try done.
  - intros (-> & _ & Hs). done.
Qed.

Lemma dropLastDash_clean b s : clean b s → clean b (dropLastDash s).
Proof.
  revert b. induction s as [| c s IH]; intros b; simpl; [done |].
  destruct s as [| c' s'].
  - destruct (Ascii.eqb c "-") eqn:Heq; simpl; [by destruct (isSlugChar c) |].
    done.
  - change (dropLastDash (String c (String c' s')))
      with (String c (dropLastDash (String c' s'))).
    cbn [clean]. destruct (isSlugChar c).
    + apply IH.
    + intros (? & ? & ?). split; [done |]. split; [done |]. by apply IH.
Qed.

Lemma dropLastDash_no_dash b s : clean b s → endsWithDash (dropLastDash s) = false.
Proof.
  revert b. induction s as [| c s IH]; intros b; [done |].
  destruct s as [| c' s'].
  - simpl. destruct (Ascii.eqb c "-") eqn:Heq; simpl; [done | by rewrite Heq].
  - change (dropLastDash (String c (String c' s')))
      with (String c (dropLastDash (String c' s'))).
    intros Hc.
    assert (∃ b', clean b' (String c' s')) as [b' Hc'].
    { cbn [clean] in Hc. destruct (isSlugChar c); [eauto |].
      destruct Hc as (_ & _ & ?); eauto. }
    pose proof (IH b' Hc') as Hend.
    destruct (dropLastDash (String c' s')) as [| d r] eqn:Hd; [| exact Hend].
    (* the rest was a single dash: then [c] is not one *)
    cbn [endsWithDash].
    destruct s' as [| c'' s'']; simpl in Hd.
    + destruct (Ascii.eqb c' "-") eqn:Hc'd; [| done].
      apply Ascii.eqb_eq in Hc'd as ->.
      cbn [clean] in Hc. destruct (isSlugChar c) eqn:Hsl.
      * apply Ascii.eqb_neq. intros ->. discriminate Hsl.
      * destruct Hc as (_ & _ & Hc). simpl in Hc. by destruct Hc as (_ & ? & _).
    + discriminate Hd.
Qed.

Lemma clean_chars b s c :
  clean b s → In c (String.list_ascii_of_string s) →
  isSlugChar c = true ∨ c = "-"%char.
Proof.
  revert b. induction s as [| d s IH]; intros b; simpl; [done |].
  destruct (isSlugChar d) eqn:Hd.
  - intros Hs [<- | Hin]; [by left | by eapply IH].
  - intros (-> & _ & Hs) [<- | Hin]; [by right | by eapply IH].
Qed.

Lemma clean_no_double_dash b t u : ¬ clean b (t ++ "--" ++ u).
Proof.
  revert b. induction t as [| c t IH]; intros b; simpl.
  - intros (_ & _ & _ & ? & _). done.
  - destruct (isSlugChar c); [apply IH |]. intros (_ & _ & ?). by eapply IH.
Qed.

Lemma endsWithDash_app t : endsWithDash (t ++ "-") = true.
Proof.
  induction t as [| c t IH]; [done |]. simpl.
  destruct (t ++ "-")%string eqn:Ht; [by destruct t | exact IH].
Qed.

Lemma slugify_clean s : clean true (slugify s) ∧ endsWithDash (slugify s) = false.
Proof.
  unfold slugify.
  pose proof (dropFirstDash_clean _ (dashRuns_clean false (toLowerCase s))) as H.
  split; [by apply dropLastDash_clean | by eapply dropLastDash_no_dash].
Qed.

(** X1.  The shape of a slug: it is made of lowercase letters, digits and
    dashes only, it neither begins nor ends with a dash, and it has no two
    dashes in a row. *)
Theorem slugify_shape s :
  (∀ c, In c (String.list_ascii_of_string (slugify s)) →
        isSlugChar c = true ∨ c = "-"%char)
  ∧ (∀ t, slugify s ≠ String "-" t)
  ∧ (∀ t, slugify s ≠ t ++ "-")
  ∧ (∀ t u, slugify s ≠ t ++ "--" ++ u).
Proof.
  destruct (slugify_clean s) as [Hclean Hend].
  split; [| split; [| split]].
  - intros c. by apply clean_chars with (b := true).
  - intros t Heq. rewrite Heq in Hclean. simpl in Hclean.
    by destruct Hclean as (_ & ? & _).
  - intros t Heq. rewrite Heq, endsWithDash_app in Hend. done.
  - intros t u Heq. rewrite Heq in Hclean. by eapply clean_no_double_dash.
Qed.

Lemma clean_lower b s : clean b s → toLowerCase s = s.
Proof.
  revert b. induction s as [| c s IH]; intros b; simpl; [done |].
  destruct (isSlugChar c) eqn:Hc.
  - intros Hs. by rewrite (slugChar_lower c Hc), (IH false).
  - intros (-> & _ & Hs). by rewrite (IH true).
Qed.

Lemma clean_dashRuns b s : clean b s → dashRuns b s = s.
Proof.
  revert b. induction s as [| c s IH]; intros b; simpl; [done |].
  destruct (isSlugChar c) eqn:Hc.
  - intros Hs. by rewrite (IH false).
  - intros (-> & -> & Hs). by rewrite (IH true).
Qed.

Lemma clean_dropFirstDash s : clean true s → dropFirstDash s = s.
Proof.
  destruct s as [| c s]; simpl; [done |].
  destruct (isSlugChar c) eqn:Hc.
  - intros _. destruct c as [[] [] [] [] [] [] [] []]; try done.
  - by intros (_ & ? & _).
Qed.

Lemma dropLastDash_id s : endsWithDash s = false → dropLastDash s = s.
Proof.
  induction s as [| c s IH]; [done |]. destruct s as [| c' s'].
  - simpl. by intros ->.
  - intros H.
    change (dropLastDash (String c (String c' s')))
      with (String c (dropLastDash (String c' s'))).
    by rewrite IH.
Qed.

(** X2.  A slug is its own slug: [slugify] applied twice gives what it
    gives once. *)
Theorem slugify_idempotent s : slugify (slugify s) = slugify s.
Proof.
  destruct (slugify_clean s) as [Hclean Hend].
  unfold slugify at 1.
  rewrite (clean_lower true _ Hclean).
  rewrite (clean_dashRuns false _ (clean_weaken _ _ Hclean)).
  rewrite (clean_dropFirstDash _ Hclean).
  by apply dropLastDash_id.
Qed.

Lemma hasSlugChar_spec s :
  hasSlugChar s = false ↔
  ∀ c, In c (String.list_ascii_of_string s) → isSlugChar c = false.
Proof.
  induction s as [| d s IH]; simpl; [done |].
  rewrite orb_false_iff, IH. split.
  - intros [Hd Hs] c [<- | Hin]; auto.
  - intros H. split; [apply H; auto |]. intros c Hc. apply H. auto.
Qed.

Lemma toLowerCase_chars s c :
  In c (String.list_ascii_of_string (toLowerCase s)) ↔
  ∃ d, In d (String.list_ascii_of_string s) ∧ c = lowerChar d.
Proof.
  induction s as [| e s IH]; simpl.
  - split; [done | by intros (? & [] & _)].
  - rewrite IH. split.
    + intros [<- | (d & Hd & ->)]; [exists e; auto | exists d; auto].
    + intros (d & [<- | Hd] & ->); [by left | right; by exists d].
Qed.

Lemma dashRuns_hasSlugChar b s : hasSlugChar (dashRuns b s) = hasSlugChar s.
Proof.
  revert b. induction s as [| c s IH]; intros b; simpl; [done |].
  destruct (isSlugChar c) eqn:Hc; simpl.
  - by rewrite Hc, IH.
  - destruct b; simpl; by rewrite IH.
Qed.

Lemma dropFirstDash_hasSlugChar s :
  hasSlugChar (dropFirstDash s) = hasSlugChar s.
Proof.
  destruct s as [| c s]; [done |].
  destruct c as [[] [] [] [] [] [] [] []]; done.
Qed.

Lemma dropLastDash_hasSlugChar s :
  hasSlugChar (dropLastDash s) = hasSlugChar s.
Proof.
  induction s as [| c s IH]; [done |]. destruct s as [| c' s'].
  - simpl. destruct (Ascii.eqb c "-") eqn:Heq; [| done].
    apply Ascii.eqb_eq in Heq as ->. done.
  - change (dropLastDash (String c (String c' s')))
      with (String c (dropLastDash (String c' s'))).
    cbn [hasSlugChar]. by rewrite IH.
Qed.

Lemma dashRuns_nothing s :
  hasSlugChar s = false →
  dashRuns true s = EmptyString
  ∧ (dashRuns false s = EmptyString ∨ dashRuns false s = "-"%string).
Proof.
  induction s as [| c s IH]; simpl; [auto |].
  intros [Hc Hs]%orb_false_iff. rewrite Hc.
  destruct (IH Hs) as [Ht _]. rewrite Ht. auto.
Qed.

(** X3.  The slug is empty exactly when the name has no letter A-Z or a-z
    and no digit: every such name gives the same, empty, slug. *)
Theorem slugify_empty_iff s :
  slugify s = EmptyString ↔
  ∀ c, In c (String.list_ascii_of_string s) → isSlugChar (lowerChar c) = false.
Proof.
  assert (hasSlugChar (toLowerCase s) = false ↔
          ∀ c, In c (String.list_ascii_of_string s) →
               isSlugChar (lowerChar c) = false) as Hlow.
  { rewrite hasSlugChar_spec. split.
    - intros H c Hc. apply H, toLowerCase_chars. eauto.
    - intros H c (d & Hd & ->)%toLowerCase_chars. auto. }
  rewrite <- Hlow. unfold slugify. split.
  - intros Hempty.
    rewrite <- (dashRuns_hasSlugChar false), <- dropFirstDash_hasSlugChar,
      <- dropLastDash_hasSlugChar, Hempty. done.
  - intros Hnone. destruct (dashRuns_nothing _ Hnone) as [_ [-> | ->]]; done.
Qed.

Lemma slugify_empty_iff_witness :
  slugify "!!! ***" = EmptyString.
Proof.
  apply (slugify_empty_iff "!!! ***").
  intros c Hc. simpl in Hc.
  repeat (destruct Hc as [<- | Hc]; [reflexivity |]). destruct Hc.
Defined.

End DbSlugSpec.

(** * Sorting sorts *)

Module SortSpec.
Import Json QueueRuns JsonSpec.

(** Insertion keeps a list sorted, for a comparator that is total and
    transitive on the elements at hand. *)
Section SortSorted.
Context {A : Type} (cmp : A → A → Z) (P : A → Prop).
Hypothesis total : ∀ x y, P x → P y → 0 < cmp x y → cmp y x ≤ 0.
Hypothesis trans : ∀ x y z, P x → P y → P z →
                            cmp x y ≤ 0 → cmp y z ≤ 0 → cmp x z ≤ 0.

Lemma sort_insert_sorted x l :
  P x → (∀ y, In y l → P y) → sortedBy cmp l →
  sortedBy cmp (sort_insert cmp x l).
Proof.
  intros Hx. induction l as [| y l IH]; intros Hl Hs; simpl.
  - split; [intros ? [] | done].
  - destruct Hs as [Hy Hs]. destruct (0 <? cmp x y) eqn:Hc.
    + apply Z.ltb_lt in Hc. simpl. split.
      * intros w Hw. apply sort_insert_In in Hw as [-> | Hw].
        -- apply total; auto. apply Hl. by left.
        -- by apply Hy.
      * apply IH; [| done]. intros w Hw. apply Hl. by right.
    + apply Z.ltb_ge in Hc. simpl. split; [| split; [done | done]].
      intros w [<- | Hw]; [done |].
      apply (trans x y w); auto.
      * apply Hl. by left.
      * apply Hl. by right.
Qed.

Lemma sort_sorted l : (∀ y, In y l → P y) → sortedBy cmp (sort cmp l).
Proof.
  induction l as [| x l IH]; intros Hl; simpl; [done |].
  apply sort_insert_sorted.
  - apply Hl. by left.
  - intros y Hy. apply sort_In in Hy. apply Hl. by right.
  - apply IH. intros y Hy. apply Hl. by right.
Qed.

End SortSorted.

Lemma sortedBy_lookup {A} (cmp : A → A → Z) (l : list A) (i j : nat) a b :
  sortedBy cmp l → l !! i = Some a → l !! j = Some b → (i < j)%nat →
  cmp a b ≤ 0.
Proof.
  revert i j. induction l as [| x l IH]; intros i j Hs Hi Hj Hlt; [done |].
  destruct Hs as [Hx Hs].
  destruct i as [| i], j as [| j]; try lia; simpl in *.
  - injection Hi as <-. apply Hx. rewrite <- list_elem_of_In.
    by eapply list_elem_of_lookup_2.
  - apply (IH i j); auto. lia.
Qed.

End SortSpec.

(** * More about the task queue *)

Module TaskLockMore.
Import Json Db TaskLock QueueNotions FileNames QueueRuns JsonSpec SortSpec
  TaskLockSpec.

(** X4.  First in, first out: when every task listed has a [createdAt] that
    is a date, a task never comes after one created later. *)
Theorem listTasksSync_oldest_first clock opts (fs : gmap string file) :
  objects_only fs →
  ∃ tasks,
    listTasksSync clock opts fs = Returns tasks
    ∧ ((∀ t, In t tasks → createdTime t ≠ None) →
       ∀ (i j : nat) a b,
         tasks !! i = Some a → tasks !! j = Some b → (i < j)%nat →
         ∃ ta tb, createdTime a = Some ta ∧ createdTime b = Some tb
                  ∧ ta ≤ tb).
Proof.
  intros Hok. unfold listTasksSync.
  destruct (listLoop_returns clock opts fs
              (List.filter (λ f, endsWith f ".json") (readdir fs)) Hok)
    as (tasks & -> & _).
  exists (sort byCreatedAt tasks). split; [done |].
  intros Hdated i j a b Ha Hb Hlt.
  assert (sortedBy byCreatedAt (sort byCreatedAt tasks)) as Hsorted.
  { apply (sort_sorted byCreatedAt (λ t, createdTime t ≠ None)).
    - intros x y Hx Hy. unfold byCreatedAt.
      destruct (createdTime x), (createdTime y); try done. lia.
    - intros x y z Hx Hy Hz. unfold byCreatedAt.
      destruct (createdTime x), (createdTime y), (createdTime z); try done.
      lia.
    - intros t Ht. apply Hdated. by apply sort_In. }
  pose proof (sortedBy_lookup _ _ _ _ _ _ Hsorted Ha Hb Hlt) as Hle.
  assert (In a (sort byCreatedAt tasks)) as Hina
    by (rewrite <- list_elem_of_In; by eapply list_elem_of_lookup_2).
  assert (In b (sort byCreatedAt tasks)) as Hinb
    by (rewrite <- list_elem_of_In; by eapply list_elem_of_lookup_2).
  apply Hdated in Hina, Hinb. unfold byCreatedAt in Hle.
  destruct (createdTime a) as [ta |], (createdTime b) as [tb |]; try done.
  exists ta, tb. repeat split; try done. lia.
Qed.

Lemma objects_only_insert fs key j :
  objects_only fs → is_Some (to_object j) → objects_only (<[key := Doc j]> fs).
Proof.
  intros Hok Hj name j'. destruct (decide (key = name)) as [-> | Hne].
  - rewrite lookup_insert_eq. by intros [= <-] _.
  - rewrite lookup_insert_ne by done. apply Hok.
Qed.

Lemma listTasksSync_oldest_first_witness :
  let fs : gmap string file :=
    <["b.json" := Doc (JObj {[ "createdAt" := JTime 1000 ]})]>
      (<["a.json" := Doc (JObj {[ "createdAt" := JTime 2000 ]})]> ∅) in
  ∃ tasks,
    listTasksSync (λ _, 5000)
      {| type := JNull; status := JNull; includeStale := false |} fs
    = Returns tasks
    ∧ ((∀ t, In t tasks → createdTime t ≠ None) →
       ∀ (i j : nat) a b,
         tasks !! i = Some a → tasks !! j = Some b → (i < j)%nat →
         ∃ ta tb, createdTime a = Some ta ∧ createdTime b = Some tb
                  ∧ ta ≤ tb).
Proof.
  intros fs.
  apply (listTasksSync_oldest_first (λ _, 5000)
           {| type := JNull; status := JNull; includeStale := false |} fs).
  apply objects_only_insert; [| simpl; eauto].
  apply objects_only_insert; [apply objects_only_empty | simpl; eauto].
Defined.

(** What an entry of the listing keeps of the object it was read from. *)
Lemma listEntry_fields now opts name o t :
  listEntry now opts name o = Some t →
  get t "filename" = Some (JStr name)
  ∧ (∀ k, k ≠ "filename" → k ≠ "is_stale" → get t k = get o k)
  ∧ (includeStale opts = false → get t "is_stale" = get o "is_stale")
  ∧ (truthy (type opts) = true →
     ∃ v, get t "type" = Some v ∧ strict_eq v (type opts) = true).
Proof.
  unfold listEntry. intros Hentry.
  set (stale := includeStale opts && _ && _) in Hentry.
  destruct (truthy (type opts) && _) eqn:Hty; [done |].
  destruct (truthy (status opts) && _) eqn:Hst; [done |].
  injection Hentry as <-.
  assert (∀ k, k ≠ "is_stale" →
            get (if stale then set "is_stale" (JBool true)
                                (set "filename" (JStr name) o)
                 else set "filename" (JStr name) o) k
            = get (set "filename" (JStr name) o) k) as Hsame.
  { intros k Hk. destruct stale; [| done]. unfold get, set; simpl.
    by rewrite lookup_insert_ne. }
  split; [| split; [| split]].
  - rewrite Hsame by done. unfold get, set; simpl. apply lookup_insert_eq.
  - intros k Hk1 Hk2. rewrite Hsame by done. unfold get, set; simpl.
    by rewrite lookup_insert_ne.
  - intros Hinc. subst stale. rewrite Hinc. simpl. unfold get, set; simpl.
    by rewrite lookup_insert_ne.
  - intros Htruthy. rewrite Htruthy in Hty. simpl in Hty.
    apply negb_false_iff in Hty.
    destruct (get _ "type") as [v |]; [eauto | done].
Qed.

(** X5.  What a listing shows: every task listed was read from a [.json]
    file that holds an object, carries that file's name as [filename] and
    the fields of the file (the flag [is_stale] apart, which only a listing
    that includes stale locks may set), and has the [type] asked for when a
    type filter is given. *)
Theorem listed_tasks_are_the_json_files clock opts (fs : gmap string file) :
  objects_only fs →
  ∃ tasks,
    listTasksSync clock opts fs = Returns tasks
    ∧ ∀ t, In t tasks →
        ∃ name j o,
          endsWith name ".json" = true
          ∧ fs !! name = Some (Doc j) ∧ to_object j = Some o
          ∧ get t "filename" = Some (JStr name)
          ∧ (∀ k, k ≠ "filename" → k ≠ "is_stale" → get t k = get o k)
          ∧ (includeStale opts = false → get t "is_stale" = get o "is_stale")
          ∧ (truthy (type opts) = true →
             ∃ v, get t "type" = Some v ∧ strict_eq v (type opts) = true).
Proof.
  intros Hok.
  destruct (listTasksSync_returns clock opts fs Hok) as (tasks & Heq & Hin).
  exists tasks. split; [done |]. intros t Ht.
  apply Hin in Ht as (name & o & Hjson & Htr & Ho & Hentry).
  unfold getTask, readJsonFile in Htr, Ho.
  destruct (fs !! name) as [[j | | ]|] eqn:Hfile; try done.
  exists name, j, o. split; [done |]. split; [done |]. split; [done |].
  by apply (listEntry_fields (clock name) opts).
Qed.

Lemma listed_tasks_are_the_json_files_witness :
  let fs : gmap string file :=
    <["a.json" := Doc (JObj {[ "type" := JStr "research" ]})]> ∅ in
  let opts := {| type := JStr "research"; status := JNull;
                 includeStale := false |} in
  ∃ tasks,
    listTasksSync (λ _, 5000) opts fs = Returns tasks
    ∧ ∀ t, In t tasks →
        ∃ name j o,
          endsWith name ".json" = true
          ∧ fs !! name = Some (Doc j) ∧ to_object j = Some o
          ∧ get t "filename" = Some (JStr name)
          ∧ (∀ k, k ≠ "filename" → k ≠ "is_stale" → get t k = get o k)
          ∧ (includeStale opts = false → get t "is_stale" = get o "is_stale")
          ∧ (truthy (type opts) = true →
             ∃ v, get t "type" = Some v ∧ strict_eq v (type opts) = true).
Proof.
  intros fs opts.
  apply (listed_tasks_are_the_json_files (λ _, 5000) opts fs).
  apply objects_only_insert; [apply objects_only_empty | simpl; eauto].
Defined.

(** The entry of a record under no filter. *)
Lemma listEntry_unfiltered now inc name m :
  ∃ t, listEntry now {| type := JNull; status := JNull; includeStale := inc |}
         name {| elems := None; props := m |} = Some t.
Proof. unfold listEntry. simpl. eauto. Qed.

(** X6.  A listing without filters leaves no task out: every [.json] file
    that holds a record is listed under its file name. *)
Theorem unfiltered_listing_is_complete clock inc (fs : gmap string file)
    key m :
  objects_only fs →
  is_record fs key m →
  endsWith key ".json" = true →
  ∃ tasks t,
    listTasksSync clock
      {| type := JNull; status := JNull; includeStale := inc |} fs
    = Returns tasks
    ∧ In t tasks
    ∧ get t "filename" = Some (JStr key)
    ∧ ∀ k, k ≠ "filename" → k ≠ "is_stale" → get t k = m !! k.
Proof.
  intros Hok Hrec Hjson.
  destruct (listTasksSync_returns clock
              {| type := JNull; status := JNull; includeStale := inc |} fs Hok)
    as (tasks & Heq & Hin).
  destruct (listEntry_unfiltered (clock key) inc key m) as [t Ht].
  exists tasks, t. split; [done |].
  pose proof (readJsonFile_record fs key m JNull Hrec) as Hget.
  split.
  - apply Hin. exists key, {| elems := None; props := m |}.
    unfold getTask. rewrite Hget. done.
  - destruct (listEntry_fields _ _ _ _ _ Ht) as (Hname & Hkeep & _).
    split; [done |]. intros k H1 H2. by rewrite Hkeep.
Qed.

Lemma unfiltered_listing_is_complete_witness :
  let m : gmap string json := {[ "company" := JStr "Acme AI" ]} in
  let fs : gmap string file := <["a.json" := Doc (JObj m)]> ∅ in
  ∃ tasks t,
    listTasksSync (λ _, 5000)
      {| type := JNull; status := JNull; includeStale := true |} fs
    = Returns tasks
    ∧ In t tasks
    ∧ get t "filename" = Some (JStr "a.json")
    ∧ ∀ k, k ≠ "filename" → k ≠ "is_stale" → get t k = m !! k.
Proof.
  intros m fs.
  apply (unfiltered_listing_is_complete (λ _, 5000) true fs "a.json" m).
  - apply objects_only_insert; [apply objects_only_empty | simpl; eauto].
  - reflexivity.
  - reflexivity.
Defined.

(** The entry of a record in progress when stale locks are not looked
    for. *)
Lemma listEntry_in_progress now ty st key m :
  m !! "status" = Some (JStr "in_progress") →
  truthy ty = false →
  listEntry now {| type := ty; status := st; includeStale := false |} key
    {| elems := None; props := m |}
  = if truthy st && negb (strict_eq (JStr "in_progress") st) then None
    else Some {| elems := None; props := <["filename" := JStr key]> m |}.
Proof.
  intros Hs Hty. unfold listEntry, statusOrPending, get, set.
  cbn [includeStale type status props elems andb].
  rewrite !lookup_insert_ne by done. rewrite Hs.
  change (truthy (JStr "in_progress")) with true. cbv iota.
  by rewrite Hty.
Qed.

(** X7.  Without [includeStale] the age of a lock plays no part: a record in
    progress is listed as it is stored, however old its claim, under the
    status filter 'in_progress' and not under 'pending', and no [is_stale]
    flag is added. *)
Theorem listing_without_stale_check clock (fs : gmap string file) key m :
  objects_only fs →
  is_record fs key m →
  endsWith key ".json" = true →
  m !! "status" = Some (JStr "in_progress") →
  (∃ tasks,
     listTasksSync clock
       {| type := JNull; status := JStr "in_progress"; includeStale := false |}
       fs = Returns tasks
     ∧ In {| elems := None; props := <["filename" := JStr key]> m |} tasks)
  ∧ (∃ tasks,
       listTasksSync clock
         {| type := JNull; status := JStr "pending"; includeStale := false |}
         fs = Returns tasks
       ∧ ∀ t, In t tasks → get t "filename" ≠ Some (JStr key)).
Proof.
  intros Hok Hrec Hjson Hs.
  pose proof (readJsonFile_record fs key m JNull Hrec) as Hget.
  split.
  - destruct (listTasksSync_returns clock
                {| type := JNull; status := JStr "in_progress";
                   includeStale := false |} fs Hok) as (tasks & Heq & Hin).
    exists tasks. split; [done |]. apply Hin.
    exists key, {| elems := None; props := m |}. unfold getTask.
    rewrite Hget. repeat split; try done.
    by rewrite listEntry_in_progress.
  - destruct (listTasksSync_returns clock
                {| type := JNull; status := JStr "pending";
                   includeStale := false |} fs Hok) as (tasks & Heq & Hin).
    exists tasks. split; [done |]. intros t Ht Hname.
    apply Hin in Ht as (name & o & _ & _ & Ho & Hentry).
    pose proof (listEntry_filename _ _ _ _ _ Hentry) as Hname'.
    assert (name = key) as -> by congruence.
    unfold getTask in Ho. rewrite Hget in Ho. injection Ho as <-.
    rewrite listEntry_in_progress in Hentry by done. discriminate.
Qed.

Lemma listing_without_stale_check_witness :
  let m : gmap string json :=
    {[ "status" := JStr "in_progress"; "claimed_at" := JTime 1000 ]} in
  let fs : gmap string file := <["a.json" := Doc (JObj m)]> ∅ in
  (∃ tasks,
     listTasksSync (λ _, 999999999)
       {| type := JNull; status := JStr "in_progress"; includeStale := false |}
       fs = Returns tasks
     ∧ In {| elems := None; props := <["filename" := JStr "a.json"]> m |} tasks)
  ∧ (∃ tasks,
       listTasksSync (λ _, 999999999)
         {| type := JNull; status := JStr "pending"; includeStale := false |}
         fs = Returns tasks
       ∧ ∀ t, In t tasks → get t "filename" ≠ Some (JStr "a.json")).
Proof.
  intros m fs.
  apply (listing_without_stale_check (λ _, 999999999) fs "a.json" m).
  - apply objects_only_insert; [apply objects_only_empty | simpl; eauto].
  - reflexivity.
  - reflexivity.
  - reflexivity.
Defined.

(** X8.  A successful claim hands back the record as the file now holds it,
    so the caller need not read it again: the file's fields are those of
    the task returned, namely the former fields with [status], [claimed_at],
    [claimed_by] and [filename] set; no other file changes. *)
Theorem claim_returns_what_it_stores now_check now_claim key agent
    (fs fs' : gmap string file) m task stamp :
  is_record fs key m →
  claimTask now_check now_claim key agent fs
  = (fs', Returns (Claimed task stamp)) →
  stamp = now_claim
  ∧ getTask fs' key = JObj (props task)
  ∧ get task "status" = Some (JStr "in_progress")
  ∧ get task "claimed_at" = Some (JTime now_claim)
  ∧ get task "claimed_by" = Some agent
  ∧ get task "filename" = Some (JStr key)
  ∧ (∀ k, k ≠ "status" → k ≠ "claimed_at" → k ≠ "claimed_by" →
          k ≠ "filename" → get task k = m !! k)
  ∧ (∀ other, other ≠ key → fs' !! other = fs !! other).
Proof.
  intros Hrec. unfold claimTask.
  rewrite (fileExists_true _ _ _ Hrec), (readJsonFile_record _ _ _ _ Hrec).
  cbn [negb truthy to_object].
  destruct (_ && _); [done |]. intros [= <- <- <-].
  unfold getTask, readJsonFile, writeJsonFile, get, set, stringify; simpl.
  rewrite lookup_insert_eq.
  repeat split; try by simplify_map_eq.
  - intros k H1 H2 H3 H4. by simplify_map_eq.
  - intros other Hne. by rewrite lookup_insert_ne.
Qed.

Lemma claim_returns_what_it_stores_witness :
  let m : gmap string json :=
    {[ "status" := JStr "pending"; "company" := JStr "Acme AI" ]} in
  let fs : gmap string file := {[ "a.json" := Doc (JObj m) ]} in
  let m' : gmap string json :=
    <["filename" := JStr "a.json"]>
      (<["claimed_by" := JStr "worker-A"]>
         (<["claimed_at" := JTime 2000]>
            (<["status" := JStr "in_progress"]> m))) in
  let task := {| elems := None; props := m' |} in
  getTask (<["a.json" := Doc (JObj m')]> fs) "a.json" = JObj (props task)
  ∧ get task "company" = Some (JStr "Acme AI").
Proof.
  intros m fs m' task.
  destruct (claim_returns_what_it_stores 1000 2000 "a.json" (JStr "worker-A")
              fs (<["a.json" := Doc (JObj m')]> fs) m task 2000)
    as (_ & Hget & _ & _ & _ & _ & Hkeep & _).
  - reflexivity.
  - reflexivity.
  - split; [exact Hget |]. by rewrite Hkeep.
Defined.

(** X9.  Claim, then release: the record is back to pending with no claim
    fields, and differs from what it was only by the [filename] field the
    claim wrote into the file.  A record that was pending without claim
    fields is thus the same again, with [filename] added. *)
Theorem claim_then_release now_check now_claim key agent
    (fs : gmap string file) m :
  is_record fs key m →
  prop_is (m !! "status") "in_progress"
    && negb (isLockStale now_check {| elems := None; props := m |}) = false →
  ∃ fs1 task,
    claimTask now_check now_claim key agent fs
    = (fs1, Returns (Claimed task now_claim))
    ∧ releaseTask key fs1
      = (<[key := Doc (JObj (<["filename" := JStr key]> (released m)))]> fs,
         Returns {| success := true; error := None |})
    ∧ (m !! "status" = Some (JStr "pending") →
       m !! "claimed_at" = None → m !! "claimed_by" = None →
       released m = m).
Proof.
  intros Hrec Hfree.
  rewrite (claimTask_free now_check now_claim key agent fs m Hrec Hfree).
  eexists _, _. split; [reflexivity |]. split.
  - erewrite releaseTask_record by apply lookup_insert_eq.
    rewrite insert_insert_eq. f_equal. f_equal. f_equal. f_equal.
    unfold released. apply map_eq. intros k.
    destruct (decide (k = "claimed_by")) as [-> | ?]; [by simplify_map_eq |].
    destruct (decide (k = "claimed_at")) as [-> | ?]; [by simplify_map_eq |].
    destruct (decide (k = "status")) as [-> | ?]; [by simplify_map_eq |].
    destruct (decide (k = "filename")) as [-> | ?]; by simplify_map_eq.
  - apply released_pending.
Qed.

Lemma claim_then_release_witness :
  let m : gmap string json :=
    {[ "status" := JStr "pending"; "company" := JStr "Acme AI" ]} in
  let fs : gmap string file := {[ "a.json" := Doc (JObj m) ]} in
  ∃ fs1 task,
    claimTask 1000 2000 "a.json" (JStr "worker-A") fs
    = (fs1, Returns (Claimed task 2000))
    ∧ releaseTask "a.json" fs1
      = (<["a.json" := Doc (JObj (<["filename" := JStr "a.json"]> (released m)))]>
           fs,
         Returns {| success := true; error := None |})
    ∧ (m !! "status" = Some (JStr "pending") →
       m !! "claimed_at" = None → m !! "claimed_by" = None →
       released m = m).
Proof.
  intros m fs.
  apply (claim_then_release 1000 2000 "a.json" (JStr "worker-A") fs m).
  - reflexivity.
  - reflexivity.
Defined.

(** X10.  A lock without a stamp never expires: when a record is in
    progress and its [claimed_at] is missing or falsy (null, false, 0 or the
    empty string), every claim is refused whatever the clock says.
    [releaseTask] is the way out: after it the claim succeeds. *)
Theorem lock_without_stamp_never_expires key (fs : gmap string file) m :
  is_record fs key m →
  m !! "status" = Some (JStr "in_progress") →
  truthy_prop (m !! "claimed_at") = false →
  (∀ now_check now_claim agent,
     claimTask now_check now_claim key agent fs
     = (fs, Returns (ClaimRefused "Task already claimed"
                       (m !! "claimed_by") (m !! "claimed_at"))))
  ∧ ∀ now_check now_claim agent,
      ∃ fs2 task,
        claimTask now_check now_claim key agent (releaseTask key fs).1
        = (fs2, Returns (Claimed task now_claim)).
Proof.
  intros Hrec Hs Hstamp.
  assert (∀ now, isLockStale now {| elems := None; props := m |} = false)
    as Hfresh.
  { intros now. unfold isLockStale, get. cbn [props]. by rewrite Hstamp. }
  split.
  - intros. apply claimTask_locked; [done | by rewrite Hs | done].
  - intros now_check now_claim agent.
    rewrite (releaseTask_record key fs m Hrec). cbn [fst].
    eexists _, _. apply claimTask_free; [apply lookup_insert_eq |].
    unfold released. by simplify_map_eq.
Qed.

Lemma lock_without_stamp_never_expires_witness :
  let m : gmap string json :=
    {[ "status" := JStr "in_progress"; "claimed_by" := JStr "worker-A" ]} in
  let fs : gmap string file := {[ "a.json" := Doc (JObj m) ]} in
  (∀ now_check now_claim agent,
     claimTask now_check now_claim "a.json" agent fs
     = (fs, Returns (ClaimRefused "Task already claimed"
                       (m !! "claimed_by") (m !! "claimed_at"))))
  ∧ ∀ now_check now_claim agent,
      ∃ fs2 task,
        claimTask now_check now_claim "a.json" agent
          (releaseTask "a.json" fs).1
        = (fs2, Returns (Claimed task now_claim)).
Proof.
  intros m fs.
  apply (lock_without_stamp_never_expires "a.json" fs m).
  - reflexivity.
  - reflexivity.
  - reflexivity.
Defined.

Lemma all_well_kept_insert fs key m :
  all_well_kept fs → well_kept m → all_well_kept (<[key := Doc (JObj m)]> fs).
Proof.
  intros Hall Hm k f. destruct (decide (key = k)) as [-> | Hne].
  - rewrite lookup_insert_eq. intros [= <-]. eauto.
  - rewrite lookup_insert_ne by done. apply Hall.
Qed.

Lemma all_well_kept_step fs fs' :
  all_well_kept fs → queue_step fs fs' → all_well_kept fs'.
Proof.
  intros Hall Hstep. destruct Hstep.
  - (* createTask *)
    unfold createTask. destruct (fileExists fs key); [done |]. cbn [fst].
    apply all_well_kept_insert; [done |]. split.
    + exists now. by simplify_map_eq.
    + left. by simplify_map_eq.
  - (* claimTask *)
    unfold claimTask. destruct (fileExists fs key) eqn:Hex; [| done].
    apply fileExists_spec in Hex as [f Hf].
    destruct (Hall key f Hf) as (m & -> & [[t Ht] Hst]).
    rewrite (readJsonFile_record fs key m JNull Hf).
    cbn [negb truthy to_object]. destruct (_ && _); [done |].
    cbn [fst]. apply all_well_kept_insert; [done |].
    unfold set; cbn [props]. split.
    + exists t. by simplify_map_eq.
    + right. split; [by simplify_map_eq |]. exists now_claim.
      by simplify_map_eq.
  - (* releaseTask *)
    unfold releaseTask. destruct (fileExists fs key) eqn:Hex; [| done].
    apply fileExists_spec in Hex as [f Hf].
    destruct (Hall key f Hf) as (m & -> & [[t Ht] Hst]).
    rewrite (readJsonFile_record fs key m JNull Hf).
    cbn [negb truthy to_object fst].
    apply all_well_kept_insert; [done |].
    unfold del, set; cbn [props]. split.
    + exists t. by simplify_map_eq.
    + left. by simplify_map_eq.
  - (* completeTask *)
    unfold completeTask, deleteFile.
    destruct (fileExists fs key); [| done].
    assert (all_well_kept (delete key fs)) as Hdel.
    { intros k f Hk. apply lookup_delete_Some in Hk as [_ Hk]. eauto. }
    destruct (fs !! key) as [[ | | ]|]; done.
Qed.

Lemma all_well_kept_objects fs : all_well_kept fs → objects_only fs.
Proof.
  intros Hall name j Hj _. destruct (Hall name _ Hj) as (m & [= ->] & _).
  simpl. eauto.
Qed.

(** X11.  What the queue makes of an empty directory, by any sequence of
    [createTask], [claimTask], [releaseTask] and [completeTask]: every file
    is a record with a creation stamp, and is either pending or in progress
    with a claim stamp [T], so that its lock does expire: a claim made
    later than [T] plus [STALE_LOCK_MS] succeeds.  A listing of such a
    directory always returns. *)
Theorem queue_keeps_its_records_well (fs : gmap string file) :
  made_by_queue fs →
  (∀ key f, fs !! key = Some f →
     ∃ m, f = Doc (JObj m)
          ∧ (∃ t, m !! "createdAt" = Some (JTime t))
          ∧ (m !! "status" = Some (JStr "pending")
             ∨ (m !! "status" = Some (JStr "in_progress")
                ∧ ∃ T, m !! "claimed_at" = Some (JTime T)
                       ∧ ∀ now_check now_claim agent,
                           T + STALE_LOCK_MS < now_check →
                           ∃ fs' task,
                             claimTask now_check now_claim key agent fs
                             = (fs', Returns (Claimed task now_claim)))))
  ∧ ∀ clock opts, ∃ tasks, listTasksSync clock opts fs = Returns tasks.
Proof.
  intros Hmade.
  assert (all_well_kept fs) as Hall.
  { induction Hmade as [| fs fs' _ IH Hstep].
    - intros key f Hf. by rewrite lookup_empty in Hf.
    - by eapply all_well_kept_step. }
  split.
  - intros key f Hf. destruct (Hall key f Hf) as (m & -> & Ht & Hst).
    exists m. split; [done |]. split; [done |].
    destruct Hst as [Hp | (Hi & T & HT)]; [by left | right].
    split; [done |]. exists T. split; [done |].
    intros now_check now_claim agent Hlate. eexists _, _.
    apply claimTask_free; [done |].
    rewrite (isLockStale_stamp _ _ T) by done.
    rewrite bool_decide_eq_true_2 by lia. apply andb_false_r.
  - intros clock opts.
    destruct (listTasksSync_returns clock opts fs
                (all_well_kept_objects fs Hall)) as (tasks & Heq & _).
    eauto.
Qed.

Lemma queue_keeps_its_records_well_witness :
  let fs1 := (createTask 1000 {[ "company" := JStr "Acme AI" ]} "a.json" ∅).1 in
  let fs2 := (claimTask 2000 2000 "a.json" (JStr "worker-A") fs1).1 in
  ∃ tasks,
    listTasksSync (λ _, 5000)
      {| type := JNull; status := JStr "in_progress"; includeStale := true |}
      fs2
    = Returns tasks.
Proof.
  intros fs1 fs2.
  apply (queue_keeps_its_records_well fs2).
  apply (made_step fs1); [| apply step_claim].
  apply (made_step ∅); [apply made_empty | apply step_create].
Defined.

(** The entry of a pending record under the status filter 'pending'. *)
Lemma listEntry_pending now inc key m :
  m !! "status" = Some (JStr "pending") →
  listEntry now
    {| type := JNull; status := JStr "pending"; includeStale := inc |} key
    {| elems := None; props := m |}
  = Some {| elems := None; props := <["filename" := JStr key]> m |}.
Proof.
  intros Hs. unfold listEntry, statusOrPending, get, set.
  cbn [includeStale type status props elems truthy andb].
  rewrite !lookup_insert_ne by done. rewrite Hs.
  change (truthy (JStr "pending")) with true. cbv iota.
  change (strict_eq (JStr "pending") (JStr "in_progress")) with false.
  rewrite andb_false_r. cbn [andb]. done.
Qed.

(** X12.  Create, then list: a task created under a free plain file name
    that ends in [.json] is in the next listing of pending tasks, with its
    file name, the status 'pending', the creation stamp and the payload. *)
Theorem created_task_is_listed clock inc now (data : gmap string json) key
    (fs : gmap string file) :
  objects_only fs →
  plainName key = true →
  fs !! key = None →
  endsWith key ".json" = true →
  ∃ tasks,
    listTasksSync clock
      {| type := JNull; status := JStr "pending"; includeStale := inc |}
      (createTask now data key fs).1
    = Returns tasks
    ∧ In {| elems := None;
            props := <["filename" := JStr key]>
                       (<["status" := JStr "pending"]>
                          (<["createdAt" := JTime now]> data)) |} tasks.
Proof.
  intros Hok _ Hfree Hjson.
  pose proof (objects_only_createTask now data key fs Hok) as Hok'.
  destruct (listTasksSync_returns clock
              {| type := JNull; status := JStr "pending"; includeStale := inc |}
              _ Hok') as (tasks & Heq & Hin).
  exists tasks. split; [done |]. apply Hin.
  set (m := <["status" := JStr "pending"]> (<["createdAt" := JTime now]> data)).
  assert (getTask (createTask now data key fs).1 key = JObj m) as Hget.
  { unfold createTask. rewrite (fileExists_false _ _ Hfree). cbn [fst].
    unfold getTask, readJsonFile, writeJsonFile. by rewrite lookup_insert_eq. }
  exists key, {| elems := None; props := m |}. rewrite Hget.
  repeat split; try done.
  apply listEntry_pending. subst m. by simplify_map_eq.
Qed.

Lemma created_task_is_listed_witness :
  ∃ tasks,
    listTasksSync (λ _, 5000)
      {| type := JNull; status := JStr "pending"; includeStale := true |}
      (createTask 1000 {[ "company" := JStr "Acme AI" ]}
         "research-acme-ai.json" ∅).1
    = Returns tasks
    ∧ In {| elems := None;
            props := <["filename" := JStr "research-acme-ai.json"]>
                       (<["status" := JStr "pending"]>
                          (<["createdAt" := JTime 1000]>
                             {[ "company" := JStr "Acme AI" ]})) |} tasks.
Proof.
  apply (created_task_is_listed (λ _, 5000) true 1000
           {[ "company" := JStr "Acme AI" ]} "research-acme-ai.json" ∅).
  - apply objects_only_empty.
  - reflexivity.
  - reflexivity.
  - reflexivity.
Defined.

(** X13.  A file that cannot be read as JSON (garbled text, or a directory
    of that name) stays out of the way: [getTask] gives null and a listing
    skips it; [claimTask] and [releaseTask] answer 'Failed to read task
    file' and [createTask] answers [already_exists], all without touching
    it.  [completeTask] deletes a garbled file, and answers 'Failed to
    delete task file' for a directory. *)
Theorem unreadable_file_is_left_alone key (fs : gmap string file) f :
  fs !! key = Some f →
  f = Garbled ∨ f = Directory →
  getTask fs key = JNull
  ∧ (∀ now_check now_claim agent,
       claimTask now_check now_claim key agent fs
       = (fs, Returns (ClaimFailed "Failed to read task file")))
  ∧ releaseTask key fs
    = (fs, Returns {| success := false;
                      error := Some "Failed to read task file" |})
  ∧ (∀ now data,
       createTask now data key fs
       = (fs, Returns {| created_ok := true; already_exists := true;
                         filename := key |}))
  ∧ (f = Garbled →
     completeTask key fs
     = (delete key fs, Returns {| success := true; error := None |}))
  ∧ (f = Directory →
     completeTask key fs
     = (fs, Returns {| success := false;
                       error := Some "Failed to delete task file" |}))
  ∧ (objects_only fs →
     ∀ clock opts,
       ∃ tasks, listTasksSync clock opts fs = Returns tasks
                ∧ ∀ t, In t tasks → get t "filename" ≠ Some (JStr key)).
Proof.
  intros Hf Hkind.
  pose proof (fileExists_true _ _ _ Hf) as Hex.
  assert (getTask fs key = JNull) as Hget.
  { unfold getTask, readJsonFile. rewrite Hf. by destruct Hkind as [-> | ->]. }
  split; [done |]. split; [| split; [| split; [| split; [| split]]]].
  - intros. unfold claimTask. rewrite Hex. unfold getTask in Hget.
    by rewrite Hget.
  - unfold releaseTask. rewrite Hex. unfold getTask in Hget. by rewrite Hget.
  - intros. unfold createTask. by rewrite Hex.
  - intros ->. unfold completeTask, deleteFile. by rewrite Hex, Hf.
  - intros ->. unfold completeTask, deleteFile. by rewrite Hex, Hf.
  - intros Hok clock opts.
    destruct (listTasksSync_returns clock opts fs Hok) as (tasks & Heq & Hin).
    exists tasks. split; [done |]. intros t Ht Hname.
    apply Hin in Ht as (name & o & _ & Htr & _ & Hentry).
    pose proof (listEntry_filename _ _ _ _ _ Hentry) as Hname'.
    assert (name = key) as -> by congruence.
    by rewrite Hget in Htr.
Qed.

Lemma unreadable_file_is_left_alone_witness :
  let fs : gmap string file := {[ "a.json" := Garbled ]} in
  getTask fs "a.json" = JNull
  ∧ completeTask "a.json" fs
    = (delete "a.json" fs, Returns {| success := true; error := None |}).
Proof.
  intros fs.
  destruct (unreadable_file_is_left_alone "a.json" fs Garbled)
    as (Hget & _ & _ & _ & Hcomplete & _).
  - reflexivity.
  - by left.
  - split; [exact Hget | exact (Hcomplete eq_refl)].
Defined.

End TaskLockMore.

(** * More about the event bus *)

Module EventEmitterMore.
Import Json EventEmitter BusNotions QueueRuns JsonSpec SortSpec EventEmitterSpec.

(** X14.  A new subscription starts without a cursor, so its first poll
    catches up: the types accepted are the requested ones that are event
    types of the bus (others are dropped without notice), and the first
    poll returns every event of the log that has one of them, also those
    emitted before the subscription was made. *)
Theorem first_poll_catches_up sid now types url cb st st1 sid' accepted
    pollId :
  subscribe sid now types url cb st = (st1, Subscribed sid' accepted) →
  sid' = sid
  ∧ (∀ t, In t accepted ↔ In t types ∧ In t EVENT_TYPES)
  ∧ ∃ s, getSubscription sid st1 = Some s
         ∧ event_types s = accepted ∧ last_event_id s = None
         ∧ let due := List.filter (λ e, includes accepted (type e))
                                  (eventStore st) in
           match last due with
           | Some e =>
               poll pollId sid st1
               = (advanced sid s e st1,
                  Resolved {| poll_error := None; events := due |})
           | None => (poll pollId sid st1).2 = Suspended pollId
           end.
Proof.
  unfold subscribe.
  destruct (List.filter (λ t, includes EVENT_TYPES t) types) as [| t0 ts]
    eqn:Hvalid; [done |].
  intros [= <- <- <-]. split; [done |]. split.
  - intros t. rewrite <- Hvalid, filter_In. unfold includes.
    rewrite existsb_exists. split.
    + intros [Hin (x & Hx & ->%String.eqb_eq)]. done.
    + intros [Hin Hev]. split; [done |]. exists t.
      by rewrite String.eqb_refl.
  - eexists. unfold getSubscription. cbn [subscriptions].
    rewrite lookup_insert_eq. split; [reflexivity |].
    split; [done |]. split; [done |].
    cbv zeta. unfold poll. cbn [subscriptions eventStore pendingPolls].
    rewrite lookup_insert_eq.
    assert (∀ store,
              pendingEvents
                {| sub_id := sid; event_types := t0 :: ts; webhook_url := url;
                   callback_id := cb; created_at := now;
                   last_event_id := None |} store
              = List.filter (λ e, includes (t0 :: ts) (type e)) store) as ->.
    { intros store. unfold pendingEvents, lastEventTime.
      cbn [last_event_id event_types]. apply filter_ext. intros e.
      apply andb_true_r. }
    by destruct (last _).
Qed.

Lemma first_poll_catches_up_witness :
  let e0 := {| id := "e0"; type := "task.created"; timestamp := 1000;
               payload := JNull |} in
  let st := {| eventStore := [e0]; subscriptions := ∅; pendingPolls := [] |} in
  let st1 := (subscribe "S1" 2000 ["task.created"; "bogus"] None None st).1 in
  ∃ s, getSubscription "S1" st1 = Some s
       ∧ poll "p1" "S1" st1
         = (advanced "S1" s e0 st1,
            Resolved {| poll_error := None; events := [e0] |}).
Proof.
  intros e0 st st1.
  destruct (first_poll_catches_up "S1" 2000 ["task.created"; "bogus"] None
              None st st1 "S1" ["task.created"] "p1" eq_refl)
    as (_ & _ & s & Hs & _ & _ & Hpoll).
  exists s. split; [exact Hs | exact Hpoll].
Defined.

(** X15.  [unsubscribe] of a known id removes that subscription alone,
    keeps the log, settles with no events exactly the polls that waited on
    it and leaves the other polls pending.  From then on the id is unknown:
    a poll on it resolves at once with 'Subscription not found', and a
    second [unsubscribe] fails with the same error and changes nothing. *)
Theorem unsubscribe_cancels_its_polls sid st s :
  subscriptions st !! sid = Some s →
  ∃ st' cancelled,
    unsubscribe sid st = (st', None, cancelled)
    ∧ eventStore st' = eventStore st
    ∧ subscriptions st' !! sid = None
    ∧ (∀ other, other ≠ sid →
                subscriptions st' !! other = subscriptions st !! other)
    ∧ (∀ p r, In (p, r) cancelled ↔
              In (p, sid) (pendingPolls st)
              ∧ r = {| poll_error := None; events := [] |})
    ∧ (∀ p s2, In (p, s2) (pendingPolls st') ↔
               In (p, s2) (pendingPolls st) ∧ s2 ≠ sid)
    ∧ (∀ pollId,
         poll pollId sid st'
         = (st', Resolved {| poll_error := Some "Subscription not found";
                             events := [] |}))
    ∧ unsubscribe sid st' = (st', Some "Subscription not found", []).
Proof.
  intros Hsub. unfold unsubscribe at 1. rewrite Hsub.
  eexists _, _. split; [reflexivity |].
  cbn [eventStore subscriptions pendingPolls].
  split; [done |]. split; [apply lookup_delete_eq |].
  split; [intros other Hne; by rewrite lookup_delete_ne |].
  split; [| split; [| split]].
  - intros p r. rewrite in_map_iff. split.
    + intros ([p' s2] & [= <- <-] & Hin). apply filter_In in Hin as [Hin Heq].
      apply String.eqb_eq in Heq. simpl in Heq. by subst.
    + intros [Hin ->]. exists (p, sid). split; [done |].
      apply filter_In. split; [done |]. apply String.eqb_refl.
  - intros p s2. rewrite filter_In. cbn [snd]. rewrite negb_true_iff.
    by rewrite String.eqb_neq.
  - intros pollId. unfold poll. cbn [subscriptions].
    by rewrite lookup_delete_eq.
  - unfold unsubscribe. cbn [subscriptions]. by rewrite lookup_delete_eq.
Qed.

Lemma unsubscribe_cancels_its_polls_witness :
  let s := {| sub_id := "S1"; event_types := ["task.created"];
              webhook_url := None; callback_id := None; created_at := 0;
              last_event_id := None |} in
  let st := {| eventStore := []; subscriptions := {[ "S1" := s ]};
               pendingPolls := [("p1", "S1"); ("p2", "S2")] |} in
  ∃ st' cancelled,
    unsubscribe "S1" st = (st', None, cancelled)
    ∧ cancelled = [("p1", {| poll_error := None; events := [] |})]
    ∧ pendingPolls st' = [("p2", "S2")].
Proof.
  intros s st.
  destruct (unsubscribe_cancels_its_polls "S1" st s eq_refl)
    as (st' & cancelled & Heq & _).
  exists st', cancelled. split; [exact Heq |].
  injection Heq as <- <-. split; reflexivity.
Defined.

(** *** Polls that wait *)

Lemma mapHas_false k m : mapHas k m = false ↔ ∀ v, ¬ In (k, v) m.
Proof.
  unfold mapHas. split.
  - intros Hno v Hin.
    assert (existsb (λ kv, String.eqb k kv.1) m = true) as Hyes.
    { apply existsb_exists. exists (k, v). split; [done |].
      apply String.eqb_refl. }
    congruence.
  - intros Hno. destruct (existsb _ m) eqn:Hex; [| done].
    apply existsb_exists in Hex as ([k' v] & Hin & Heq).
    apply String.eqb_eq in Heq. simpl in Heq. subst. by destruct (Hno v).
Qed.

Lemma mapSet_fresh k v m :
  mapHas k m = false → mapSet k v m = (m ++ [(k, v)])%list.
Proof.
  induction m as [| [k' v'] m IH]; simpl; [done |].
  intros [Hk Hm]%orb_false_iff. rewrite Hk. by rewrite IH.
Qed.

Lemma notifyLoop_app ev l1 l2 subs :
  notifyLoop ev (l1 ++ l2) subs
  = (let '(w1, subs1, out1) := notifyLoop ev l1 subs in
     let '(w2, subs2, out2) := notifyLoop ev l2 subs1 in
     ((w1 ++ w2)%list, subs2, (out1 ++ out2)%list)).
Proof.
  revert subs. induction l1 as [| [p sid] l1 IH]; intros subs; simpl.
  - by destruct (notifyLoop ev l2 subs) as [[w2 subs2] out2].
  - destruct (subs !! sid) as [s |].
    + destruct (includes (event_types s) (type ev)).
      * rewrite IH.
        destruct (notifyLoop ev l1 _) as [[w1 subs1] out1].
        by destruct (notifyLoop ev l2 subs1) as [[w2 subs2] out2].
      * rewrite IH.
        destruct (notifyLoop ev l1 _) as [[w1 subs1] out1].
        by destruct (notifyLoop ev l2 subs1) as [[w2 subs2] out2].
    + rewrite IH.
      destruct (notifyLoop ev l1 _) as [[w1 subs1] out1].
      by destruct (notifyLoop ev l2 subs1) as [[w2 subs2] out2].
Qed.

(** The loop changes cursors only, and wakes only polls that waited. *)
Lemma notifyLoop_keeps ev polls subs :
  (∀ sid, event_types <$> (notifyLoop ev polls subs).1.2 !! sid
          = event_types <$> subs !! sid)
  ∧ (∀ kv, In kv (notifyLoop ev polls subs).1.1 → In kv polls).
Proof.
  revert subs. induction polls as [| [p sid'] rest IH]; intros subs; simpl;
    [done |].
  destruct (subs !! sid') as [s' |] eqn:Hs'.
  - destruct (includes (event_types s') (type ev)).
    + destruct (IH (resolvePoll sid' [ev] subs)) as [Hty Hsub].
      destruct (notifyLoop ev rest _) as [[w subs'] out]. simpl in *.
      split; [| auto]. intros sid. rewrite Hty. unfold resolvePoll. simpl.
      destruct (decide (sid' = sid)) as [-> | Hne].
      * rewrite lookup_alter_eq. by destruct (subs !! sid).
      * by rewrite lookup_alter_ne.
    + destruct (IH subs) as [Hty Hsub].
      destruct (notifyLoop ev rest subs) as [[w subs'] out]. simpl in *.
      split; [done |]. intros kv [<- | Hin]; auto.
  - destruct (IH subs) as [Hty Hsub].
    destruct (notifyLoop ev rest subs) as [[w subs'] out]. simpl in *.
    split; [done |]. intros kv [<- | Hin]; auto.
Qed.

(** X16.  A waiting poll is woken by the next event of a subscribed type:
    the poll (made with a fresh poll id, when nothing was due) is handed
    that one event, the cursor of its subscription moves to it, and the
    poll is no longer pending, so that its timer has nothing left to do. *)
Theorem emit_wakes_waiting_poll pollId sid st s eid t_ev t_pr ty pl :
  subscriptions st !! sid = Some s →
  pendingEvents s (eventStore st) = [] →
  mapHas pollId (pendingPolls st) = false →
  includes (event_types s) ty = true →
  let ev := {| id := eid; type := ty; timestamp := t_ev; payload := pl |} in
  ∃ st1 st2 woken,
    poll pollId sid st = (st1, Suspended pollId)
    ∧ emit eid t_ev t_pr ty pl st1 = (st2, ev, woken)
    ∧ In (pollId, {| poll_error := None; events := [ev] |}) woken
    ∧ last_event_id <$> subscriptions st2 !! sid = Some (Some eid)
    ∧ mapHas pollId (pendingPolls st2) = false
    ∧ pollTimeout pollId st2 = (st2, None).
Proof.
  intros Hsub Hdue Hfresh Hty ev.
  unfold poll. rewrite Hsub, Hdue. cbn [last].
  rewrite (mapSet_fresh _ _ _ Hfresh).
  exists {| eventStore := eventStore st; subscriptions := subscriptions st;
            pendingPolls := pendingPolls st ++ [(pollId, sid)] |}.
  unfold emit, notifyPollers.
  cbn [eventStore subscriptions pendingPolls].
  rewrite notifyLoop_app. fold ev.
  destruct (notifyLoop_keeps ev (pendingPolls st) (subscriptions st))
    as [Htypes Hwait].
  destruct (notifyLoop ev (pendingPolls st) (subscriptions st))
    as [[w1 subs1] out1]. cbn [fst snd] in Htypes, Hwait.
  specialize (Htypes sid). rewrite Hsub in Htypes.
  destruct (subs1 !! sid) as [s1 |] eqn:Hs1; [| done].
  injection Htypes as Htypes.
  cbn [notifyLoop]. rewrite Hs1, Htypes. cbn [type ev]. rewrite Hty.
  assert (mapHas pollId (w1 ++ []) = false) as Hgone.
  { rewrite app_nil_r. apply mapHas_false. intros v Hin.
    apply Hwait in Hin. by eapply mapHas_false in Hfresh. }
  eexists _, _. split; [reflexivity |]. split; [reflexivity |].
  split; [apply in_or_app; right; by left |].
  split; [| split].
  - cbn [subscriptions]. unfold resolvePoll. cbn [last id].
    by rewrite lookup_alter_eq, Hs1.
  - exact Hgone.
  - unfold pollTimeout. cbn [pendingPolls]. by rewrite Hgone.
Qed.

Lemma emit_wakes_waiting_poll_witness :
  let s := {| sub_id := "S1"; event_types := ["task.created"];
              webhook_url := None; callback_id := None; created_at := 0;
              last_event_id := None |} in
  let st := {| eventStore := []; subscriptions := {[ "S1" := s ]};
               pendingPolls := [] |} in
  let ev := {| id := "e1"; type := "task.created"; timestamp := 1000;
               payload := JNull |} in
  ∃ st1 st2 woken,
    poll "p1" "S1" st = (st1, Suspended "p1")
    ∧ emit "e1" 1000 1000 "task.created" JNull st1 = (st2, ev, woken)
    ∧ In ("p1", {| poll_error := None; events := [ev] |}) woken
    ∧ last_event_id <$> subscriptions st2 !! "S1" = Some (Some "e1")
    ∧ mapHas "p1" (pendingPolls st2) = false
    ∧ pollTimeout "p1" st2 = (st2, None).
Proof.
  intros s st ev.
  apply (emit_wakes_waiting_poll "p1" "S1" st s "e1" 1000 1000 "task.created"
           JNull); reflexivity.
Defined.

(** What the loop does for a subscription that has not subscribed to the
    type of the event: its record and its waiting polls stay, and no poll
    woken was one of them. *)
Lemma notifyLoop_other_type ev sid s polls subs :
  subs !! sid = Some s →
  includes (event_types s) (type ev) = false →
  (notifyLoop ev polls subs).1.2 !! sid = Some s
  ∧ (∀ p, In (p, sid) polls → In (p, sid) (notifyLoop ev polls subs).1.1)
  ∧ (∀ p r, In (p, r) (notifyLoop ev polls subs).2 →
            ∃ sid', sid' ≠ sid ∧ In (p, sid') polls).
Proof.
  revert subs. induction polls as [| [p0 sid'] rest IH]; intros subs Hs Hty;
    simpl; [done |].
  destruct (subs !! sid') as [s' |] eqn:Hs'.
  - destruct (includes (event_types s') (type ev)) eqn:Hinc.
    + assert (sid' ≠ sid) as Hne by (intros ->; congruence).
      assert (resolvePoll sid' [ev] subs !! sid = Some s) as Hs1.
      { unfold resolvePoll. simpl. by rewrite lookup_alter_ne. }
      destruct (IH _ Hs1 Hty) as (Hsub & Hkeep & Hout).
      destruct (notifyLoop ev rest _) as [[w subs'] out]. simpl in *.
      split; [done |]. split.
      * intros p [[= _ ?] | Hin]; [done | auto].
      * intros p r [[= <- _] | Hin]; [exists sid'; auto |].
        destruct (Hout p r Hin) as (x & ? & ?). exists x; auto.
    + destruct (IH _ Hs Hty) as (Hsub & Hkeep & Hout).
      destruct (notifyLoop ev rest subs) as [[w subs'] out]. simpl in *.
      split; [done |]. split.
      * intros p [[= -> ->] | Hin]; [by left | right; auto].
      * intros p r Hin. destruct (Hout p r Hin) as (x & ? & ?).
        exists x; auto.
  - destruct (IH _ Hs Hty) as (Hsub & Hkeep & Hout).
    destruct (notifyLoop ev rest subs) as [[w subs'] out]. simpl in *.
    split; [done |]. split.
    + intros p [[= -> ->] | Hin]; [by left | right; auto].
    + intros p r Hin. destruct (Hout p r Hin) as (x & ? & ?).
      exists x; auto.
Qed.

Lemma mapHas_true k v m : In (k, v) m → mapHas k m = true.
Proof.
  intros Hin. unfold mapHas. apply existsb_exists. exists (k, v).
  split; [done |]. apply String.eqb_refl.
Qed.

(** X17.  An event of a type the subscription has not asked for passes it
    by: a poll that waits on the subscription stays pending and is handed
    nothing, the cursor does not move, and when the timer of the poll fires
    the poll resolves with no events. *)
Theorem emit_of_other_type_passes_by pollId sid st s eid t_ev t_pr ty pl :
  subscriptions st !! sid = Some s →
  In (pollId, sid) (pendingPolls st) →
  (∀ sid', In (pollId, sid') (pendingPolls st) → sid' = sid) →
  includes (event_types s) ty = false →
  ∃ st' ev woken,
    emit eid t_ev t_pr ty pl st = (st', ev, woken)
    ∧ subscriptions st' !! sid = Some s
    ∧ In (pollId, sid) (pendingPolls st')
    ∧ (∀ r, ¬ In (pollId, r) woken)
    ∧ (pollTimeout pollId st').2
      = Some {| poll_error := None; events := [] |}.
Proof.
  intros Hsub Hwait Honly Hty. unfold emit, notifyPollers.
  cbn [eventStore subscriptions pendingPolls].
  set (ev := {| id := eid; type := ty; timestamp := t_ev; payload := pl |}).
  destruct (notifyLoop_other_type ev sid s (pendingPolls st)
              (subscriptions st) Hsub Hty) as (Hs' & Hkeep & Hout).
  destruct (notifyLoop ev (pendingPolls st) (subscriptions st))
    as [[w subs'] out]. cbn [fst snd] in Hs', Hkeep, Hout.
  eexists _, _, _. split; [reflexivity |].
  cbn [subscriptions pendingPolls].
  split; [done |]. split; [auto |]. split.
  - intros r Hin. destruct (Hout _ _ Hin) as (sid' & Hne & Hin').
    by apply Honly in Hin'.
  - unfold pollTimeout. cbn [pendingPolls].
    by rewrite (mapHas_true pollId sid w (Hkeep _ Hwait)).
Qed.

Lemma emit_of_other_type_passes_by_witness :
  let s := {| sub_id := "S1"; event_types := ["task.created"];
              webhook_url := None; callback_id := None; created_at := 0;
              last_event_id := None |} in
  let st := {| eventStore := []; subscriptions := {[ "S1" := s ]};
               pendingPolls := [("p1", "S1")] |} in
  ∃ st' ev woken,
    emit "e1" 1000 1000 "job.created" JNull st = (st', ev, woken)
    ∧ subscriptions st' !! "S1" = Some s
    ∧ In ("p1", "S1") (pendingPolls st')
    ∧ (∀ r, ¬ In ("p1", r) woken)
    ∧ (pollTimeout "p1" st').2
      = Some {| poll_error := None; events := [] |}.
Proof.
  intros s st.
  apply (emit_of_other_type_passes_by "p1" "S1" st s "e1" 1000 1000
           "job.created" JNull).
  - reflexivity.
  - by left.
  - intros sid' [[= <-] | []]. reflexivity.
  - reflexivity.
Defined.

(** *** The log and its readers *)

(** X18.  [listEvents] returns events of the log, newest first, at most
    [limit] of them; each has the type asked for, when one is asked for,
    and is later than [since], when that is given; a falsy [since] (null,
    the empty string, 0) filters nothing. *)
Theorem listEvents_newest_first since ty limit st :
  let r := listEvents since ty limit st in
  (0 ≤ limit → (length r ≤ Z.to_nat limit)%nat)
  ∧ (∀ (i j : nat) a b,
       r !! i = Some a → r !! j = Some b → (i < j)%nat →
       timestamp b ≤ timestamp a)
  ∧ (∀ e, In e r →
       In e (eventStore st)
       ∧ (∀ t, ty = Some t → t ≠ "" → type e = t)
       ∧ (∀ s, truthy since = true → getTime since = Some s →
               s < timestamp e))
  ∧ (truthy since = false → r = listEvents JNull ty limit st).
Proof.
  intros r. subst r.
  assert (truthy since = false →
          listEvents since ty limit st = listEvents JNull ty limit st)
    as Hfalsy.
  { intros Hf. unfold listEvents. by rewrite Hf. }
  unfold listEvents at 1 2 3 4 5.
  set (evs1 := if truthy since then _ else _).
  set (evs2 := match ty with Some _ => _ | None => _ end).
  set (cmp := λ a b : event, timestamp b - timestamp a).
  assert (sortedBy cmp (sort cmp evs2)) as Hsorted.
  { apply (sort_sorted cmp (λ _, True)); unfold cmp; intros; try done; lia. }
  split; [| split; [| split]].
  - intros Hlimit. unfold sliceTo. rewrite (proj2 (Z.leb_le _ _) Hlimit).
    rewrite length_take. lia.
  - intros i j a b Ha Hb Hlt.
    assert (∀ k x, sliceTo limit (sort cmp evs2) !! k = Some x →
                   sort cmp evs2 !! k = Some x) as Hpre.
    { intros k x. unfold sliceTo.
      destruct (0 <=? limit); intros H%lookup_take_Some; tauto. }
    pose proof (sortedBy_lookup cmp _ i j a b Hsorted (Hpre _ _ Ha)
                  (Hpre _ _ Hb) Hlt) as Hle.
    unfold cmp in Hle. lia.
  - intros e He. apply sliceTo_In, sort_In in He.
    assert (In e evs1 ∧ ∀ t, ty = Some t → t ≠ "" → type e = t) as [He1 Hty].
    { subst evs2. destruct ty as [t |]; [| by split].
      destruct (negb (String.eqb t "")) eqn:Hne.
      - apply filter_In in He as [He Heq]. apply String.eqb_eq in Heq.
        split; [done |]. by intros ? [= <-] _.
      - apply negb_false_iff, String.eqb_eq in Hne. split; [done |].
        by intros ? [= <-] ?. }
    split; [| split; [done |]].
    + subst evs1. destruct (truthy since); [| done].
      destruct (getTime since); [| done]. by apply filter_In in He1 as [? _].
    + intros s0 Htr Hs. subst evs1. rewrite Htr, Hs in He1.
      apply filter_In in He1 as [_ Hlt]. by apply Z.ltb_lt.
  - exact Hfalsy.
Qed.

Lemma listEvents_newest_first_witness :
  let e1 := {| id := "e1"; type := "task.created"; timestamp := 1000;
               payload := JNull |} in
  let e2 := {| id := "e2"; type := "task.created"; timestamp := 2000;
               payload := JNull |} in
  let st := {| eventStore := [e1; e2]; subscriptions := ∅;
               pendingPolls := [] |} in
  listEvents JNull None 1 st = [e2]
  ∧ (length (listEvents JNull None 1 st) ≤ Z.to_nat 1)%nat.
Proof.
  intros e1 e2 st. split; [reflexivity |].
  destruct (listEvents_newest_first JNull None 1 st) as (Hlen & _).
  apply Hlen. lia.
Defined.

Lemma filter_sublist {A} (f : A → bool) l : List.filter f l `sublist_of` l.
Proof.
  induction l as [| x l IH]; simpl; [constructor |].
  destruct (f x); by constructor.
Qed.

Lemma filter_all {A} (f : A → bool) l :
  (∀ x, In x l → f x = true) → List.filter f l = l.
Proof.
  induction l as [| x l IH]; simpl; [done |]. intros Hall.
  rewrite (Hall x) by auto. f_equal. apply IH. auto.
Qed.

(** X19.  Pruning never reorders: what is left is the log with some events
    taken out.  When no event is older than the retention period, what is
    left is exactly the [MAX_EVENTS] newest entries (the whole log when it
    has no more than that), those emitted first being dropped first. *)
Theorem pruneEvents_keeps_the_newest now store :
  pruneEvents now store `sublist_of` store
  ∧ ((∀ e, In e store → now - EVENT_RETENTION_MS < timestamp e) →
     pruneEvents now store = drop (length store - MAX_EVENTS) store).
Proof.
  split.
  - unfold pruneEvents. destruct (MAX_EVENTS <? length _)%nat.
    + etrans; [apply sublist_drop | apply filter_sublist].
    + apply filter_sublist.
  - intros Hyoung. unfold pruneEvents.
    rewrite filter_all by (intros e He; apply Z.ltb_lt; by apply Hyoung).
    destruct (MAX_EVENTS <? length store)%nat eqn:Hlen; [done |].
    apply Nat.ltb_ge in Hlen.
    by replace (length store - MAX_EVENTS)%nat with 0%nat by lia.
Qed.

Lemma pruneEvents_keeps_the_newest_witness :
  let e1 := {| id := "e1"; type := "task.created"; timestamp := 1000;
               payload := JNull |} in
  let e2 := {| id := "e2"; type := "task.created"; timestamp := 2000;
               payload := JNull |} in
  pruneEvents 3000 [e1; e2] = [e1; e2].
Proof.
  intros e1 e2.
  destruct (pruneEvents_keeps_the_newest 3000 [e1; e2]) as [_ Hnew].
  rewrite Hnew; [reflexivity |].
  intros e [<- | [<- | []]]; unfold EVENT_RETENTION_MS; simpl; lia.
Defined.

Lemma last_In {A} (l : list A) z : last l = Some z → In z l.
Proof.
  intros H. rewrite <- list_elem_of_In. by apply last_Some_elem_of.
Qed.

(** In a log in the order of its stamps, the last event a filter keeps has
    the latest stamp of those it keeps. *)
Lemma last_filter_latest (f : event → bool) store z :
  sortedBy (λ a b, timestamp a - timestamp b) store →
  last (List.filter f store) = Some z →
  ∀ x, In x (List.filter f store) → timestamp x ≤ timestamp z.
Proof.
  induction store as [| a l IH]; simpl; [done |].
  intros [Ha Hs]. destruct (f a) eqn:Hfa; [| by apply IH].
  destruct (List.filter f l) as [| y F] eqn:HF.
  - intros [= <-] x [<- | []]. lia.
  - intros Hlast x [<- | Hx].
    + assert (In z l) as Hz.
      { assert (In z (List.filter f l)) as Hz'
          by (rewrite HF; by apply last_In).
        by apply filter_In in Hz' as [? _]. }
      specialize (Ha z Hz). lia.
    + by apply IH.
Qed.

Lemma find_present (e : event) store :
  In e store →
  ∃ f, List.find (λ x, String.eqb (id x) (id e)) store = Some f
       ∧ In f store ∧ id f = id e.
Proof.
  intros Hin. destruct (List.find _ store) as [f |] eqn:Hf.
  - apply find_some in Hf as [Hf Heq]. apply String.eqb_eq in Heq. eauto.
  - pose proof (find_none _ _ Hf e Hin) as Hno. simpl in Hno.
    by rewrite String.eqb_refl in Hno.
Qed.

(** X20.  No event twice, when the log is in the order of its stamps and
    events with the same id carry the same stamp: a poll that delivers
    events moves the cursor to the last of them, and a second poll made
    right after finds nothing due and is left waiting. *)
Theorem second_poll_finds_nothing pollA pollB sid st s e :
  subscriptions st !! sid = Some s →
  sortedBy (λ a b, timestamp a - timestamp b) (eventStore st) →
  (∀ a b, In a (eventStore st) → In b (eventStore st) → id a = id b →
          timestamp a = timestamp b) →
  last (pendingEvents s (eventStore st)) = Some e →
  id e ≠ "" →
  poll pollA sid st
  = (advanced sid s e st,
     Resolved {| poll_error := None;
                 events := pendingEvents s (eventStore st) |})
  ∧ poll pollB sid (advanced sid s e st)
    = ({| eventStore := eventStore st;
          subscriptions := subscriptions (advanced sid s e st);
          pendingPolls := mapSet pollB sid (pendingPolls st) |},
       Suspended pollB).
Proof.
  intros Hsub Hsorted Hids Hlast Hid.
  split; [unfold poll; by rewrite Hsub, Hlast |].
  assert (In e (pendingEvents s (eventStore st))) as Hdue by by apply last_In.
  pose proof Hdue as Hdue'. unfold pendingEvents in Hdue'.
  apply filter_In in Hdue' as [Hin Hpass].
  apply andb_prop in Hpass as [Hty Hafter].
  destruct (find_present e _ Hin) as (f & Hfind & Hf & Hidf).
  set (s' := set_last_event_id (id e) s).
  assert (lastEventTime s' (eventStore st) = Some (timestamp e)) as Htime.
  { unfold lastEventTime. cbn [s' set_last_event_id last_event_id].
    rewrite (proj2 (String.eqb_neq _ _) Hid). cbn [negb]. rewrite Hfind.
    cbn [fmap option_fmap option_map]. f_equal. by apply Hids. }
  assert (pendingEvents s' (eventStore st) = []) as Hnone.
  { unfold pendingEvents. rewrite Htime.
    cbn [s' set_last_event_id event_types]. apply filter_none. intros x Hx.
    destruct (includes (event_types s) (type x)) eqn:Htx; [| done].
    cbn [andb]. apply negb_false_iff, Z.leb_le.
    destruct (Z.le_gt_cases (timestamp x) (timestamp e)) as [| Hgt]; [done |].
    (* [x] would have been due as well, and later than the last due *)
    assert (In x (pendingEvents s (eventStore st))) as Hxdue.
    { unfold pendingEvents. apply filter_In. split; [done |].
      rewrite Htx. cbn [andb].
      destruct (lastEventTime s (eventStore st)) as [t0 |]; [| done].
      apply negb_true_iff, Z.leb_gt.
      apply negb_true_iff, Z.leb_gt in Hafter. lia. }
    pose proof (last_filter_latest _ _ _ Hsorted Hlast x Hxdue). lia. }
  unfold poll, advanced. cbn [subscriptions eventStore pendingPolls].
  rewrite lookup_insert_eq. fold s'. by rewrite Hnone.
Qed.

Lemma second_poll_finds_nothing_witness :
  let e1 := {| id := "e1"; type := "task.created"; timestamp := 1000;
               payload := JNull |} in
  let e2 := {| id := "e2"; type := "task.created"; timestamp := 1000;
               payload := JNull |} in
  let s := {| sub_id := "S1"; event_types := ["task.created"];
              webhook_url := None; callback_id := None; created_at := 0;
              last_event_id := None |} in
  let st := {| eventStore := [e1; e2]; subscriptions := {[ "S1" := s ]};
               pendingPolls := [] |} in
  poll "p1" "S1" st
  = (advanced "S1" s e2 st,
     Resolved {| poll_error := None; events := [e1; e2] |})
  ∧ (poll "p2" "S1" (advanced "S1" s e2 st)).2 = Suspended "p2".
Proof.
  intros e1 e2 s st.
  destruct (second_poll_finds_nothing "p1" "p2" "S1" st s e2)
    as [H1 H2].
  - reflexivity.
  - simpl. repeat split; try done; intros y Hy;
      repeat (destruct Hy as [<- | Hy]; [simpl; lia |]); destruct Hy.
  - intros a b Ha Hb _.
    repeat (destruct Ha as [<- | Ha]; [| ]);
      repeat (destruct Hb as [<- | Hb]; [| ]); try done.
  - reflexivity.
  - discriminate.
  - split; [exact H1 |]. by rewrite H2.
Defined.

End EventEmitterMore.

(** * Properties of the task handlers *)

Module TaskToolsSpec.
Import Json Db TaskLock DbSlug TaskTools QueueNotions FileNames JsonSpec
  TaskLockSpec TaskLockMore.

Lemma append_cons c (a b : string) :
  (String c a ++ b)%string = String c (a ++ b).
Proof. reflexivity. Qed.

Lemma length_append (a b : string) :
  String.length (a ++ b) = (String.length a + String.length b)%nat.
Proof.
  induction a as [| c a IH]; [done |].
  rewrite append_cons. cbn [String.length]. by rewrite IH.
Qed.

Lemma substring_skip k (a b : string) :
  String.substring (String.length a) k (a ++ b) = String.substring 0 k b.
Proof.
  induction a as [| c a IH]; [done |].
  rewrite append_cons. cbn [String.length String.substring]. exact IH.
Qed.

Lemma substring_all (b : string) : String.substring 0 (String.length b) b = b.
Proof.
  induction b as [| c b IH]; [done |].
  cbn [String.length String.substring]. by rewrite IH.
Qed.

(** A name built with an extension has it. *)
Lemma endsWith_append (a suffix : string) : endsWith (a ++ suffix) suffix = true.
Proof.
  unfold endsWith. rewrite length_append.
  apply andb_true_intro. split.
  - apply Nat.leb_le. lia.
  - replace (String.length a + String.length suffix - String.length suffix)%nat
      with (String.length a) by lia.
    rewrite substring_skip, substring_all. apply String.eqb_refl.
Qed.

Lemma append_assoc (a b c : string) : (a ++ (b ++ c))%string = ((a ++ b) ++ c)%string.
Proof.
  induction a as [| x a IH]; [done |]. rewrite !append_cons. by rewrite IH.
Qed.

Lemma researchFile_json j : endsWith (researchFile j) ".json" = true.
Proof. unfold researchFile. rewrite append_assoc. apply endsWith_append. Qed.

Lemma materialsFile_json j : endsWith (materialsFile j) ".json" = true.
Proof. unfold materialsFile. rewrite append_assoc. apply endsWith_append. Qed.

(** The log after an [emit]. *)
Lemma emit_log eid t_ev t_pr ty pl b :
  EventEmitter.eventStore (EventEmitter.emit eid t_ev t_pr ty pl b).1.1
  = EventEmitter.pruneEvents t_pr
      (EventEmitter.eventStore b
       ++ [{| EventEmitter.id := eid; EventEmitter.type := ty;
              EventEmitter.timestamp := t_ev; EventEmitter.payload := pl |}]).
Proof. apply EventEmitterSpec.emit_eventStore. Qed.

(** A failed [claimTask] leaves the directory as it was. *)
Lemma claimTask_failure_keeps now_check now_claim key agent fs :
  (∀ task stamp, (claimTask now_check now_claim key agent fs).2
                 ≠ Returns (Claimed task stamp)) →
  (claimTask now_check now_claim key agent fs).1 = fs.
Proof.
  unfold claimTask. destruct (fileExists fs key); [| done]. cbn [negb].
  destruct (truthy _); [| done]. cbn [negb].
  destruct (to_object _); [| done]. destruct (_ && _); [done |].
  intros H. by destruct (H _ _ eq_refl).
Qed.

(** X21.  [tasks_claim] answers what [claimTask] answers, and tells the bus
    only of a claim that succeeded: then one event 'task.claimed' is added
    to the log, stamped by the clock, whose payload names the file and the
    agent and carries the task's company; after any other answer the
    directory and the bus are as before and no poll is woken. *)
Theorem tasks_claim_emits_on_success_only now_check now_claim eid now_event
    now_prune key agent w :
  let '(w', r, woken) :=
    tasks_claim now_check now_claim eid now_event now_prune key agent w in
  r = (claimTask now_check now_claim key agent (tasks w)).2
  ∧ tasks w' = (claimTask now_check now_claim key agent (tasks w)).1
  ∧ match r with
    | Returns (Claimed task _) =>
        ∃ pl,
          EventEmitter.eventStore (bus w')
          = EventEmitter.pruneEvents now_prune
              (EventEmitter.eventStore (bus w)
               ++ [{| EventEmitter.id := eid;
                      EventEmitter.type := "task.claimed";
                      EventEmitter.timestamp := now_event;
                      EventEmitter.payload := JObj pl |}])
          ∧ pl !! "filename" = Some (JStr key)
          ∧ pl !! "agent_id" = Some agent
          ∧ pl !! "company" = get task "company"
    | _ => w' = w ∧ woken = []
    end.
Proof.
  unfold tasks_claim.
  destruct (claimTask now_check now_claim key agent (tasks w)) as [fs' r]
    eqn:Hclaim.
  destruct r as [[e | e by_ at_ | task stamp] | e].
  1, 2, 4: (split; [done |]; split; [done |]; split; [| done];
            pose proof (claimTask_failure_keeps now_check now_claim key agent
                          (tasks w)) as Hkeep;
            rewrite Hclaim in Hkeep; cbn [fst snd] in Hkeep;
            rewrite Hkeep by done; by destruct w).
  set (pl := objectOf _).
  pose proof (emit_log eid now_event now_prune "task.claimed" pl (bus w))
    as Hlog.
  destruct (EventEmitter.emit eid now_event now_prune "task.claimed" pl
              (bus w)) as [[b' ev] woken].
  cbn [fst snd] in Hlog. split; [done |]. split; [done |]. cbn [bus].
  subst pl. unfold objectOf in *. eexists. split; [exact Hlog |].
  destruct (orElse _ _), (get task "company"); cbn; by simplify_map_eq.
Qed.

(** X22.  [tasks_complete] deletes the file and, for a record, adds one
    event 'task.completed' that carries the record's type, read before the
    deletion.  A garbled file is deleted with [success = true] as well, but
    in silence: nothing is emitted.  For a plain file name with no file the
    answer is 'Task not found', and nothing changes. *)
Theorem tasks_complete_event eid now_event now_prune key tokens w :
  (∀ m, is_record (tasks w) key m →
     ∃ w' woken pl,
       tasks_complete eid now_event now_prune key tokens w
       = (w', Returns {| success := true; error := None |}, woken)
       ∧ tasks w' = delete key (tasks w)
       ∧ EventEmitter.eventStore (bus w')
         = EventEmitter.pruneEvents now_prune
             (EventEmitter.eventStore (bus w)
              ++ [{| EventEmitter.id := eid;
                     EventEmitter.type := "task.completed";
                     EventEmitter.timestamp := now_event;
                     EventEmitter.payload := JObj pl |}])
       ∧ pl !! "filename" = Some (JStr key)
       ∧ pl !! "type" = m !! "type"
       ∧ pl !! "company" = m !! "company"
       ∧ pl !! "tokens" = Some tokens)
  ∧ (tasks w !! key = Some Garbled →
     tasks_complete eid now_event now_prune key tokens w
     = ({| tasks := delete key (tasks w); bus := bus w |},
        Returns {| success := true; error := None |}, []))
  ∧ (plainName key = true → tasks w !! key = None →
     tasks_complete eid now_event now_prune key tokens w
     = (w, Returns {| success := false; error := Some "Task not found" |},
        [])).
Proof.
  split; [| split].
  - intros m Hrec. unfold tasks_complete.
    rewrite (completeTask_succeeds key (tasks w) _ Hrec) by done.
    unfold getTask. rewrite (readJsonFile_record _ _ _ _ Hrec).
    cbn [success andb truthy propsOf to_object props].
    set (pl := objectOf _).
    pose proof (emit_log eid now_event now_prune "task.completed" pl (bus w))
      as Hlog.
    destruct (EventEmitter.emit eid now_event now_prune "task.completed" pl
                (bus w)) as [[b' ev] woken].
    cbn [fst snd] in Hlog. eexists _, _, _. split; [reflexivity |].
    cbn [tasks bus]. split; [done |]. split; [exact Hlog |].
    destruct (orElse _ _), (m !! "type"), (m !! "company"); cbn;
      by simplify_map_eq.
  - intros Hf. unfold tasks_complete.
    rewrite (completeTask_succeeds key (tasks w) _ Hf) by done.
    unfold getTask, readJsonFile. by rewrite Hf.
  - intros _ Hf. unfold tasks_complete, completeTask.
    rewrite (fileExists_false _ _ Hf). by destruct w.
Qed.

Lemma tasks_complete_event_witness :
  let w := {| tasks := {[ "a.json" := Garbled ]};
              bus := BusNotions.start |} in
  tasks_complete "e1" 1000 1000 "a.json" JNull w
  = ({| tasks := delete "a.json" (tasks w); bus := bus w |},
     Returns {| success := true; error := None |}, [])
  ∧ tasks_complete "e1" 1000 1000 "b.json" JNull w
    = (w, Returns {| success := false; error := Some "Task not found" |}, []).
Proof.
  intros w. split.
  - destruct (tasks_complete_event "e1" 1000 1000 "a.json" JNull w)
      as (_ & Hgarbled & _).
    apply Hgarbled. reflexivity.
  - destruct (tasks_complete_event "e1" 1000 1000 "b.json" JNull w)
      as (_ & _ & Hmissing).
    apply Hmissing; reflexivity.
Defined.

(** The creating handlers on a job whose task file is free, and on one
    whose task file is there. *)
Lemma createFor_free kind file data jobs now eid now_event now_prune id j w :
  jobs !! id = Some j →
  tasks w !! file j = None →
  let pl := objectOf
              [ ("filename", Some (JStr (file j)));
                ("type", Some (JStr kind));
                ("job_id", Some (JNum (job_id j)));
                ("company", Some (JStr (company j))) ] in
  let out := EventEmitter.emit eid now_event now_prune "task.created" pl
               (bus w) in
  createFor kind file data jobs now eid now_event now_prune id w
  = ({| tasks :=
          <[file j := Doc (JObj (<["status" := JStr "pending"]>
                                   (<["createdAt" := JTime now]> (data j))))]>
            (tasks w);
        bus := out.1.1 |},
     Returns (CreateAnswer
                {| created_ok := true; already_exists := false;
                   filename := file j |} (job_id j) (company j)),
     out.2).
Proof.
  intros Hjob Hfree pl out. unfold createFor, createTask.
  rewrite Hjob, (fileExists_false _ _ Hfree). cbn [created_ok already_exists
    andb negb]. fold pl. fold out. by destruct out as [[b' ev] woken].
Qed.

Lemma createFor_taken kind file data jobs now eid now_event now_prune id j w f :
  jobs !! id = Some j →
  tasks w !! file j = Some f →
  createFor kind file data jobs now eid now_event now_prune id w
  = (w,
     Returns (CreateAnswer
                {| created_ok := true; already_exists := true;
                   filename := file j |} (job_id j) (company j)),
     []).
Proof.
  intros Hjob Hf. unfold createFor, createTask.
  rewrite Hjob, (fileExists_true _ _ _ Hf). cbn. by destruct w.
Qed.

(** X23.  Research is queued once per company slug, not once per job: after
    a research task was created for one job, a request for any job whose
    company has the same slug (the same job, or another job at that
    company, or at a company whose name differs in case or punctuation only)
    answers [already_exists = true], emits nothing and leaves the first
    job's task in place. *)
Theorem research_queued_once_per_slug jobs now1 eid1 te1 tp1 id1 j1
    now2 eid2 te2 tp2 id2 j2 w :
  jobs !! id1 = Some j1 →
  jobs !! id2 = Some j2 →
  slugify (company j1) = slugify (company j2) →
  tasks w !! researchFile j1 = None →
  ∃ w1 woken m,
    tasks_create_research jobs now1 eid1 te1 tp1 id1 w
    = (w1,
       Returns (CreateAnswer
                  {| created_ok := true; already_exists := false;
                     filename := researchFile j1 |} (job_id j1) (company j1)),
       woken)
    ∧ tasks_create_research jobs now2 eid2 te2 tp2 id2 w1
      = (w1,
         Returns (CreateAnswer
                    {| created_ok := true; already_exists := true;
                       filename := researchFile j1 |}
                    (job_id j2) (company j2)),
         [])
    ∧ is_record (tasks w1) (researchFile j1) m
    ∧ m !! "jobId" = Some (JNum (job_id j1))
    ∧ m !! "company" = Some (JStr (company j1))
    ∧ m !! "status" = Some (JStr "pending").
Proof.
  intros Hj1 Hj2 Hslug Hfree. unfold tasks_create_research.
  rewrite (createFor_free "research" researchFile researchData jobs now1 eid1
             te1 tp1 id1 j1 w Hj1 Hfree).
  assert (researchFile j2 = researchFile j1) as Hsame
    by (unfold researchFile; by rewrite Hslug).
  eexists _, _, _. split; [reflexivity |]. split.
  - erewrite (createFor_taken "research" researchFile researchData jobs now2
                eid2 te2 tp2 id2 j2).
    + by rewrite Hsame.
    + done.
    + cbn [tasks]. rewrite Hsame. apply lookup_insert_eq.
  - cbn [tasks]. split; [apply lookup_insert_eq |].
    unfold researchData. cbn [list_to_map foldr].
    repeat split; by simplify_map_eq.
Qed.

Lemma research_queued_once_per_slug_witness :
  let j1 := {| job_id := 1; company := "Acme AI"; role := "Engineer";
               jobType := JNull; compensation := JNull; source := JNull;
               apply_url := JNull; notes := JNull |} in
  let j2 := {| job_id := 2; company := "ACME.ai"; role := "Designer";
               jobType := JNull; compensation := JNull; source := JNull;
               apply_url := JNull; notes := JNull |} in
  let jobs : gmap Z job := <[1 := j1]> (<[2 := j2]> ∅) in
  let w := {| tasks := ∅; bus := BusNotions.start |} in
  ∃ w1 woken m,
    tasks_create_research jobs 1000 "e1" 1000 1000 1 w
    = (w1,
       Returns (CreateAnswer
                  {| created_ok := true; already_exists := false;
                     filename := "research-acme-ai.json" |} 1 "Acme AI"),
       woken)
    ∧ tasks_create_research jobs 2000 "e2" 2000 2000 2 w1
      = (w1,
         Returns (CreateAnswer
                    {| created_ok := true; already_exists := true;
                       filename := "research-acme-ai.json" |} 2 "ACME.ai"),
         [])
    ∧ is_record (tasks w1) "research-acme-ai.json" m
    ∧ m !! "jobId" = Some (JNum 1)
    ∧ m !! "company" = Some (JStr "Acme AI")
    ∧ m !! "status" = Some (JStr "pending").
Proof.
  intros j1 j2 jobs w.
  apply (research_queued_once_per_slug jobs 1000 "e1" 1000 1000 1 j1
           2000 "e2" 2000 2000 2 j2 w); reflexivity.
Defined.

(** The entry of a pending research task under the filters 'research' and
    'pending'. *)
Lemma listEntry_pending_research now inc key m :
  m !! "status" = Some (JStr "pending") →
  m !! "type" = Some (JStr "research") →
  listEntry now
    {| type := JStr "research"; status := JStr "pending";
       includeStale := inc |} key {| elems := None; props := m |}
  = Some {| elems := None; props := <["filename" := JStr key]> m |}.
Proof.
  intros Hs Hty. unfold listEntry, statusOrPending, get, set.
  cbn [includeStale type status props elems].
  rewrite !lookup_insert_ne by done. rewrite Hs.
  change (truthy (JStr "pending")) with true. cbv iota.
  change (strict_eq (JStr "pending") (JStr "in_progress")) with false.
  rewrite andb_false_r. cbn [andb props].
  rewrite !lookup_insert_ne by done. rewrite Hty.
  change (truthy (JStr "research")) with true.
  change (strict_eq (JStr "research") (JStr "research")) with true.
  change (strict_eq (JStr "pending") (JStr "pending")) with true.
  done.
Qed.

(** X24.  What [tasks_create_research] queues, [tasks_list] shows: the file
    name the handler builds ends in [.json], so the new task is in the
    listing of pending research tasks, with the job's id, and the count
    returned is the number of tasks listed. *)
Theorem queued_research_is_listed clock inc jobs now eid now_event now_prune
    id j w :
  objects_only (tasks w) →
  jobs !! id = Some j →
  tasks w !! researchFile j = None →
  ∃ w1 a woken ans t,
    tasks_create_research jobs now eid now_event now_prune id w
    = (w1, a, woken)
    ∧ tasks_list clock (JStr "research") (JStr "pending") inc w1 = Returns ans
    ∧ count ans = length (listed ans)
    ∧ In t (listed ans)
    ∧ get t "filename" = Some (JStr (researchFile j))
    ∧ get t "jobId" = Some (JNum (job_id j))
    ∧ get t "status" = Some (JStr "pending")
    ∧ get t "createdAt" = Some (JTime now).
Proof.
  intros Hok Hjob Hfree. unfold tasks_create_research.
  rewrite (createFor_free "research" researchFile researchData jobs now eid
             now_event now_prune id j w Hjob Hfree).
  set (m := <["status" := JStr "pending"]>
              (<["createdAt" := JTime now]> (researchData j))).
  set (fs1 := <[researchFile j := Doc (JObj m)]> (tasks w)).
  assert (objects_only fs1) as Hok1
    by (apply objects_only_insert; [done | simpl; eauto]).
  destruct (listTasksSync_returns clock
              {| type := JStr "research"; status := JStr "pending";
                 includeStale := inc |} fs1 Hok1) as (ts & Heq & Hin).
  eexists _, _, _, {| listed := ts; count := length ts |},
    {| elems := None; props := <["filename" := JStr (researchFile j)]> m |}.
  split; [reflexivity |]. unfold tasks_list. cbn [tasks]. fold fs1.
  rewrite Heq. split; [done |]. split; [done |]. split.
  - apply Hin. exists (researchFile j), {| elems := None; props := m |}.
    assert (getTask fs1 (researchFile j) = JObj m) as Hget.
    { unfold getTask, readJsonFile, fs1. by rewrite lookup_insert_eq. }
    rewrite Hget. split; [apply researchFile_json |].
    split; [done |]. split; [done |].
    apply listEntry_pending_research; subst m; unfold researchData;
      cbn [list_to_map foldr]; by simplify_map_eq.
  - unfold get. cbn [props]. subst m. unfold researchData.
    cbn [list_to_map foldr]. repeat split; by simplify_map_eq.
Qed.

Lemma queued_research_is_listed_witness :
  let j := {| job_id := 1; company := "Acme AI"; role := "Engineer";
              jobType := JNull; compensation := JNull; source := JNull;
              apply_url := JNull; notes := JNull |} in
  let jobs : gmap Z job := <[1 := j]> ∅ in
  let w := {| tasks := ∅; bus := BusNotions.start |} in
  ∃ w1 a woken ans t,
    tasks_create_research jobs 1000 "e1" 1000 1000 1 w = (w1, a, woken)
    ∧ tasks_list (λ _, 5000) (JStr "research") (JStr "pending") true w1
      = Returns ans
    ∧ count ans = length (listed ans)
    ∧ In t (listed ans)
    ∧ get t "filename" = Some (JStr (researchFile j))
    ∧ get t "jobId" = Some (JNum (job_id j))
    ∧ get t "status" = Some (JStr "pending")
    ∧ get t "createdAt" = Some (JTime 1000).
Proof.
  intros j jobs w.
  apply (queued_research_is_listed (λ _, 5000) true jobs 1000 "e1" 1000 1000
           1 j w).
  - apply objects_only_empty.
  - reflexivity.
  - reflexivity.
Defined.

End TaskToolsSpec.

(** * The handlers of the event tools *)

Module EventToolsSpec.
Import Json EventEmitter EventTools EventEmitterSpec EventEmitterMore.

Lemma includes_In l s : includes l s = true ↔ In s l.
Proof.
  unfold includes. rewrite existsb_exists. split.
  - intros (x & Hin & Heq). apply String.eqb_eq in Heq. by subst.
  - intros Hin. exists s. split; [done | apply String.eqb_refl].
Qed.

Lemma includes_not_In l s : negb (includes l s) = true ↔ ¬ In s l.
Proof.
  rewrite negb_true_iff, <- includes_In. by destruct (includes l s).
Qed.

Lemma filter_nil_none {A} (f : A → bool) l :
  List.filter f l = [] → ∀ x, In x l → f x = false.
Proof.
  induction l as [| a l IH]; simpl; [done |].
  destruct (f a) eqn:Hfa; [done |].
  intros Hnil x [-> | Hin]; auto.
Qed.

Lemma filter_keeps_all {A} (f : A → bool) l :
  (∀ x, In x l → f x = true) → List.filter f l = l.
Proof.
  induction l as [| a l IH]; simpl; [done |].
  intros Hall. rewrite (Hall a) by auto. f_equal. auto.
Qed.

(** X25.  [subscribe] of the event bus drops the types it does not know
    without a word: a subscription is made as soon as one requested type is
    known, for exactly the known ones among those requested (stored under
    the new id, with no cursor); it is refused, and the bus left as it was,
    only when none is known. *)
Theorem subscribe_keeps_the_known_types sid now types url cb st :
  match subscribe sid now types url cb st with
  | (st', Subscribed s accepted) =>
      s = sid
      ∧ (∃ t, In t types ∧ In t EVENT_TYPES)
      ∧ (∀ t, In t accepted ↔ In t types ∧ In t EVENT_TYPES)
      ∧ getSubscription sid st'
        = Some {| sub_id := sid; event_types := accepted; webhook_url := url;
                  callback_id := cb; created_at := now;
                  last_event_id := None |}
      ∧ eventStore st' = eventStore st
      ∧ pendingPolls st' = pendingPolls st
  | (st', SubscribeFailed _) =>
      st' = st ∧ ∀ t, In t types → ¬ In t EVENT_TYPES
  end.
Proof.
  unfold subscribe.
  destruct (List.filter (λ t, includes EVENT_TYPES t) types)
    as [| t0 rest] eqn:Hf.
  - split; [done |]. intros t Hin Hknown.
    apply includes_In in Hknown.
    by rewrite (filter_nil_none _ _ Hf t Hin) in Hknown.
  - assert (∀ t, In t (t0 :: rest) ↔ In t types ∧ In t EVENT_TYPES) as Hacc.
    { intros t. rewrite <- Hf, List.filter_In, includes_In. done. }
    split; [done |]. split.
    { exists t0. apply Hacc. by left. }
    split; [done |]. unfold getSubscription. cbn [subscriptions].
    rewrite lookup_insert_eq. done.
Qed.

(** X26.  The handler [events_subscribe] is stricter than the bus: one
    unknown type refuses the whole request, the answer lists exactly the
    unknown types asked for, and nothing is subscribed; when it does
    subscribe, it is for all the types requested.  An empty request gets
    past the check and is refused by [subscribe] itself. *)
Theorem events_subscribe_all_or_nothing sid now types url cb st :
  match events_subscribe sid now types url cb st with
  | (st', SubscribeAnswer (Subscribed s accepted)) =>
      s = sid ∧ accepted = types ∧ types ≠ []
      ∧ (∀ t, In t types → In t EVENT_TYPES)
      ∧ getSubscription sid st'
        = Some {| sub_id := sid; event_types := types; webhook_url := url;
                  callback_id := cb; created_at := now;
                  last_event_id := None |}
  | (st', SubscribeAnswer (SubscribeFailed _)) => st' = st ∧ types = []
  | (st', InvalidTypes _ invalid valid) =>
      st' = st ∧ valid = EVENT_TYPES ∧ invalid ≠ []
      ∧ ∀ t, In t invalid ↔ In t types ∧ ¬ In t EVENT_TYPES
  end.
Proof.
  unfold events_subscribe.
  destruct (List.filter (λ t, negb (includes EVENT_TYPES t)) types)
    as [| t0 rest] eqn:Hinv.
  - assert (∀ t, In t types → In t EVENT_TYPES) as Hall.
    { intros t Hin. apply includes_In.
      pose proof (filter_nil_none _ _ Hinv t Hin) as Hn.
      by apply negb_false_iff in Hn. }
    unfold subscribe.
    rewrite (filter_keeps_all (λ t, includes EVENT_TYPES t) types)
      by (intros t Hin; apply includes_In; auto).
    destruct types as [| t1 types']; [done |].
    split; [done |]. split; [done |]. split; [done |]. split; [done |].
    unfold getSubscription. cbn [subscriptions]. by rewrite lookup_insert_eq.
  - split; [done |]. split; [done |]. split; [done |].
    intros t. rewrite <- Hinv, List.filter_In, includes_not_In. done.
Qed.

(** X27.  Unsubscribing undoes subscribing: for an id the bus does not know
    yet, [subscribe] followed by [unsubscribe] gives back the bus as it was,
    reports success and cancels no poll. *)
Theorem subscribe_then_unsubscribe sid now types url cb st :
  subscriptions st !! sid = None →
  (∀ kv, In kv (pendingPolls st) → kv.2 ≠ sid) →
  (∃ t, In t types ∧ In t EVENT_TYPES) →
  ∃ accepted,
    (subscribe sid now types url cb st).2 = Subscribed sid accepted
    ∧ unsubscribe sid (subscribe sid now types url cb st).1 = (st, None, []).
Proof.
  intros Hfresh Hpolls (t & Hin & Hknown). unfold subscribe.
  destruct (List.filter (λ t, includes EVENT_TYPES t) types)
    as [| t0 rest] eqn:Hf.
  { apply includes_In in Hknown.
    by rewrite (filter_nil_none _ _ Hf t Hin) in Hknown. }
  exists (t0 :: rest). split; [done |].
  unfold unsubscribe. cbn [fst subscriptions pendingPolls eventStore].
  rewrite lookup_insert_eq, delete_insert_id by done.
  rewrite (filter_keeps_all (λ kv : string * string,
                               negb (String.eqb kv.2 sid)) (pendingPolls st)).
  2:{ intros kv Hkv. apply negb_true_iff, String.eqb_neq. by apply Hpolls. }
  assert (List.filter (λ kv : string * string, String.eqb kv.2 sid)
            (pendingPolls st) = []) as ->.
  { clear -Hpolls. induction (pendingPolls st) as [| kv l IH]; [done |].
    simpl. destruct (String.eqb kv.2 sid) eqn:He.
    - apply String.eqb_eq in He. exfalso. eapply Hpolls; [by left | done].
    - apply IH. intros kv' Hin. apply Hpolls. by right. }
  by destruct st.
Qed.

Lemma subscribe_then_unsubscribe_witness :
  ∃ accepted,
    (subscribe "s1" 1000 ["task.created"; "nonsense"] None None
       BusNotions.start).2 = Subscribed "s1" accepted
    ∧ unsubscribe "s1"
        (subscribe "s1" 1000 ["task.created"; "nonsense"] None None
           BusNotions.start).1
      = (BusNotions.start, None, []).
Proof.
  apply (subscribe_then_unsubscribe "s1" 1000 ["task.created"; "nonsense"]
           None None BusNotions.start).
  - apply lookup_empty.
  - intros kv [].
  - exists "task.created". split; [by left |]. unfold EVENT_TYPES.
    right. right. right. by left.
Defined.

Lemma mapDelete_mapSet_fresh k v m :
  mapHas k m = false → mapDelete k (mapSet k v m) = m.
Proof.
  intros Hno. rewrite (mapSet_fresh k v m Hno). unfold mapDelete.
  rewrite List.filter_app. cbn [List.filter fst].
  rewrite String.eqb_refl. cbn [negb]. rewrite app_nil_r.
  apply filter_keeps_all. intros [k' v'] Hin. cbn [fst].
  apply negb_true_iff, String.eqb_neq. intros <-.
  by apply (proj1 (mapHas_false k m) Hno v').
Qed.

(** X28.  A poll that finds nothing due is left waiting by [events_poll];
    when its timer fires it settles with no events and the bus is as it was
    before the call: no cursor has moved and no entry is left behind, so a
    timer firing again would find nothing to do. *)
Theorem waiting_poll_times_out pollId sid st s :
  subscriptions st !! sid = Some s →
  pendingEvents s (eventStore st) = [] →
  mapHas pollId (pendingPolls st) = false →
  ∃ st1,
    events_poll pollId sid st = (st1, PollWaiting pollId)
    ∧ mapHas pollId (pendingPolls st1) = true
    ∧ pollTimeout pollId st1
      = (st, Some {| poll_error := None; events := [] |})
    ∧ pollTimeout pollId st = (st, None).
Proof.
  intros Hsub Hnone Hfresh.
  exists {| eventStore := eventStore st; subscriptions := subscriptions st;
            pendingPolls := mapSet pollId sid (pendingPolls st) |}.
  split.
  { unfold events_poll, getSubscription, poll. by rewrite Hsub, Hnone. }
  split; [apply mapHas_mapSet |]. split.
  - unfold pollTimeout. cbn [pendingPolls eventStore subscriptions].
    rewrite mapHas_mapSet, mapDelete_mapSet_fresh by done. by destruct st.
  - unfold pollTimeout. by rewrite Hfresh.
Qed.

Lemma waiting_poll_times_out_witness :
  let s := {| sub_id := "S1"; event_types := ["task.created"];
              webhook_url := None; callback_id := None; created_at := 0;
              last_event_id := None |} in
  let e := {| id := "e1"; type := "job.created"; timestamp := 1000;
              payload := JNull |} in
  let st := {| eventStore := [e]; subscriptions := {[ "S1" := s ]};
               pendingPolls := [("p0", "S1")] |} in
  ∃ st1,
    events_poll "p1" "S1" st = (st1, PollWaiting "p1")
    ∧ mapHas "p1" (pendingPolls st1) = true
    ∧ pollTimeout "p1" st1
      = (st, Some {| poll_error := None; events := [] |})
    ∧ pollTimeout "p1" st = (st, None).
Proof.
  intros s e st.
  apply (waiting_poll_times_out "p1" "S1" st s); reflexivity.
Defined.

End EventToolsSpec.

(** * The handlers of the task tools, one after another *)

Module TaskFlowSpec.
Import Json Db TaskLock DbSlug TaskTools QueueNotions JsonSpec TaskLockSpec
  TaskToolsSpec.

(** The two kinds of task never share a file. *)
Lemma researchFile_not_materialsFile j j' : researchFile j ≠ materialsFile j'.
Proof.
  unfold researchFile, materialsFile. intros Heq.
  apply (f_equal (λ s, String.get 0 s)) in Heq. cbn in Heq. discriminate.
Qed.

(** X29.  Research and materials tasks of a job live side by side: their
    file names differ whatever the company, so after a research task was
    queued the materials task of the same job is still created, each call
    adds its own 'task.created' event, and both records are in the
    directory, each with its own type. *)
Theorem research_and_materials_side_by_side jobs now1 eid1 te1 tp1
    now2 eid2 te2 tp2 id j w :
  jobs !! id = Some j →
  tasks w !! researchFile j = None →
  tasks w !! materialsFile j = None →
  ∃ w1 w2 woken1 woken2 pl1 pl2 m1 m2,
    tasks_create_research jobs now1 eid1 te1 tp1 id w
    = (w1,
       Returns (CreateAnswer
                  {| created_ok := true; already_exists := false;
                     filename := researchFile j |} (job_id j) (company j)),
       woken1)
    ∧ tasks_create_materials jobs now2 eid2 te2 tp2 id w1
      = (w2,
         Returns (CreateAnswer
                    {| created_ok := true; already_exists := false;
                       filename := materialsFile j |} (job_id j) (company j)),
         woken2)
    ∧ is_record (tasks w2) (researchFile j) m1
    ∧ m1 !! "type" = Some (JStr "research")
    ∧ m1 !! "createdAt" = Some (JTime now1)
    ∧ is_record (tasks w2) (materialsFile j) m2
    ∧ m2 !! "type" = Some (JStr "materials")
    ∧ m2 !! "createdAt" = Some (JTime now2)
    ∧ EventEmitter.eventStore (bus w2)
      = EventEmitter.pruneEvents tp2
          (EventEmitter.pruneEvents tp1
             (EventEmitter.eventStore (bus w)
              ++ [{| EventEmitter.id := eid1;
                     EventEmitter.type := "task.created";
                     EventEmitter.timestamp := te1;
                     EventEmitter.payload := JObj pl1 |}])
           ++ [{| EventEmitter.id := eid2;
                  EventEmitter.type := "task.created";
                  EventEmitter.timestamp := te2;
                  EventEmitter.payload := JObj pl2 |}])
    ∧ pl1 !! "filename" = Some (JStr (researchFile j))
    ∧ pl2 !! "filename" = Some (JStr (materialsFile j)).
Proof.
  intros Hjob Hr Hm. unfold tasks_create_research, tasks_create_materials.
  rewrite (createFor_free "research" researchFile researchData jobs now1 eid1
             te1 tp1 id j w Hjob Hr).
  eexists _, _, _, _, _, _, _, _.
  split; [reflexivity |].
  erewrite (createFor_free "materials" materialsFile materialsData jobs now2
              eid2 te2 tp2 id j _ Hjob).
  2:{ cbn [tasks]. rewrite lookup_insert_ne; [done |].
      apply researchFile_not_materialsFile. }
  split; [reflexivity |]. cbn [tasks bus].
  split.
  { unfold is_record. rewrite lookup_insert_ne
      by (intros Heq; symmetry in Heq;
          by apply researchFile_not_materialsFile in Heq).
    apply lookup_insert_eq. }
  split; [unfold researchData; cbn [list_to_map foldr]; by simplify_map_eq |].
  split; [by simplify_map_eq |].
  split; [apply lookup_insert_eq |].
  split; [unfold materialsData; cbn [list_to_map foldr]; by simplify_map_eq |].
  split; [by simplify_map_eq |].
  split.
  { rewrite emit_log. rewrite emit_log. unfold objectOf. reflexivity. }
  split; cbn [omap list_to_map foldr fmap option_fmap option_map fst snd];
    by simplify_map_eq.
Qed.

Lemma research_and_materials_side_by_side_witness :
  let j := {| job_id := 1; company := "Acme AI"; role := "Engineer";
              jobType := JStr "full-time"; compensation := JNull;
              source := JNull; apply_url := JNull; notes := JNull |} in
  let jobs : gmap Z job := <[1 := j]> ∅ in
  let w := {| tasks := ∅; bus := BusNotions.start |} in
  ∃ w1 w2 m1 m2,
    (tasks_create_research jobs 1000 "e1" 1000 1000 1 w).1.1 = w1
    ∧ (tasks_create_materials jobs 2000 "e2" 2000 2000 1 w1).1.1 = w2
    ∧ is_record (tasks w2) "research-acme-ai.json" m1
    ∧ is_record (tasks w2) "generate-materials-acme-ai.json" m2
    ∧ length (EventEmitter.eventStore (bus w2)) = 2%nat.
Proof.
  intros j jobs w.
  destruct (research_and_materials_side_by_side jobs 1000 "e1" 1000 1000
              2000 "e2" 2000 2000 1 j w)
    as (w1 & w2 & k1 & k2 & pl1 & pl2 & m1 & m2 & H1 & H2 & Hr & _ & _ & Hm
        & _ & _ & Hlog & _);
    [reflexivity | reflexivity | reflexivity |].
  exists w1, w2, m1, m2.
  split; [by rewrite H1 |]. split; [by rewrite H2 |].
  split; [exact Hr |]. split; [exact Hm |].
  rewrite Hlog. reflexivity.
Defined.

(** X30.  What [tasks_claim] hands out is what [tasks_get] shows afterwards;
    [tasks_release] then puts the task back without telling the bus, and
    [tasks_get] shows it pending, with no claim fields and with the file
    name. *)
Theorem tasks_get_follows_claim_and_release now_check now_claim eid te tp key
    agent w w1 task stamp woken m :
  is_record (tasks w) key m →
  tasks_claim now_check now_claim eid te tp key agent w
  = (w1, Returns (Claimed task stamp), woken) →
  tasks_get key w1 = Returns (GetTask task)
  ∧ ∃ w2 t2,
      tasks_release key w1 = (w2, Returns {| success := true; error := None |})
      ∧ bus w2 = bus w1
      ∧ tasks_get key w2 = Returns (GetTask t2)
      ∧ get t2 "status" = Some (JStr "pending")
      ∧ get t2 "claimed_at" = None
      ∧ get t2 "claimed_by" = None
      ∧ get t2 "filename" = Some (JStr key)
      ∧ ∀ k, k ≠ "status" → k ≠ "claimed_at" → k ≠ "claimed_by" →
             k ≠ "filename" → get t2 k = m !! k.
Proof.
  intros Hrec Hclaim. unfold tasks_claim in Hclaim.
  destruct (prop_is (m !! "status") "in_progress"
            && negb (isLockStale now_check {| elems := None; props := m |}))
    eqn:Hfree.
  { apply andb_prop in Hfree as [Hst Hfresh].
    apply negb_true_iff in Hfresh.
    rewrite (claimTask_locked now_check now_claim key agent _ m Hrec Hst
               Hfresh) in Hclaim. discriminate. }
  rewrite (claimTask_free now_check now_claim key agent _ m Hrec Hfree)
    in Hclaim.
  cbv zeta in Hclaim.
  destruct (EventEmitter.emit _ _ _ _ _ _) as [[b' ev] wk].
  injection Hclaim as <- <- <- <-.
  split.
  { unfold tasks_get, getTask, readJsonFile. cbn [tasks].
    rewrite lookup_insert_eq. cbn [truthy negb to_object].
    unfold set. cbn [props elems]. by rewrite insert_insert_eq. }
  unfold tasks_release. cbn [tasks bus].
  erewrite releaseTask_record by apply lookup_insert_eq.
  eexists _, _. split; [reflexivity |]. split; [reflexivity |].
  unfold tasks_get, getTask, readJsonFile. cbn [tasks].
  rewrite lookup_insert_eq. cbn [truthy negb to_object].
  split; [reflexivity |]. unfold get, set, released. cbn [props].
  repeat split; try by simplify_map_eq.
  intros k H1 H2 H3 H4. by simplify_map_eq.
Qed.

Lemma tasks_get_follows_claim_and_release_witness :
  let m : gmap string json :=
    {[ "status" := JStr "pending"; "company" := JStr "Acme AI" ]} in
  let w := {| tasks := {[ "a.json" := Doc (JObj m) ]};
              bus := BusNotions.start |} in
  let w1 := (tasks_claim 1000 2000 "e1" 2000 2000 "a.json" (JStr "worker-A")
               w).1.1 in
  ∃ task, tasks_get "a.json" w1 = Returns (GetTask task)
          ∧ get task "claimed_by" = Some (JStr "worker-A").
Proof.
  intros m w w1.
  set (m' := <["filename" := JStr "a.json"]>
               (<["claimed_by" := JStr "worker-A"]>
                  (<["claimed_at" := JTime 2000]>
                     (<["status" := JStr "in_progress"]> m)))).
  exists {| elems := None; props := m' |}. split; [| reflexivity].
  apply (tasks_get_follows_claim_and_release 1000 2000 "e1" 2000 2000
           "a.json" (JStr "worker-A") w w1 {| elems := None; props := m' |}
           2000 [] m).
  - reflexivity.
  - reflexivity.
Defined.

End TaskFlowSpec.
